(** * SH1107 OLED driver: a shallow embedding of [sh1107_driver.py]

    The driver class [SH1107] extends MicroPython's [framebuf.FrameBuffer].
    Python integers are [Z]; a [bytearray] is a [list Z] whose stores are
    range- and index-checked as Python does; methods that mutate [self] or
    talk to the bus are computations in a state-and-exception monad. *)

From Stdlib Require Import ZArith List Lia Bool SpecFloat.
From stdpp Require Import base list.
Import ListNotations.

Local Open Scope Z_scope.

(** ** Exceptions and the state/exception monad *)

(** The Python exceptions the driver can meet.  [FuelExhausted] is not a
    Python exception: it marks a [while] loop of the model that ran out of
    its iteration budget, and is shown unreachable where it matters. *)
Inductive exn : Type :=
  | IndexError
  | ValueError
  | AttributeError
  | ZeroDivisionError
  | OverflowError
  | OSError
  | FuelExhausted.

Inductive result (A : Type) : Type :=
  | Ok (a : A)
  | Raise (e : exn).
Arguments Ok {A} a.
Arguments Raise {A} e.

(** A method body: it runs on a state, may change it, and either returns a
    value or raises.  The state reached at the moment of a [Raise] is kept:
    Python does not roll back mutations when an exception unwinds. *)
Definition M (S A : Type) : Type := S -> S * result A.

Definition ret {S A} (a : A) : M S A := fun s => (s, Ok a).

Definition raise {S A} (e : exn) : M S A := fun s => (s, Raise e).

Definition bind {S A B} (m : M S A) (k : A -> M S B) : M S B :=
  fun s =>
    match m s with
    | (s', Ok a) => k a s'
    | (s', Raise e) => (s', Raise e)
    end.

Notation "'let*' x ':=' m 'in' k" := (bind m (fun x => k))
  (at level 10, x name, m at level 100, k at level 200).
Notation "m1 >> m2" := (bind m1 (fun _ => m2))
  (at level 63, right associativity).

Definition gets {S A} (f : S -> A) : M S A := fun s => (s, Ok (f s)).

Definition modify {S} (f : S -> S) : M S unit := fun s => (f s, Ok tt).

(** [try: body except OSError: handler] *)
Definition try_except_OSError {S A} (body handler : M S A) : M S A :=
  fun s =>
    match body s with
    | (s', Raise OSError) => handler s'
    | r => r
    end.

(** Run a computation on a component of the state. *)
Definition zoom {S T A} (get : S -> T) (set : T -> S -> S) (m : M T A) : M S A :=
  fun s => let '(t', r) := m (get s) in (set t' s, r).

(** [for x in xs: body x] *)
Fixpoint for_ {S X} (xs : list X) (body : X -> M S unit) : M S unit :=
  match xs with
  | [] => ret tt
  | x :: xs' => body x >> for_ xs' body
  end.

(** [range(n)] and [range(lo, hi)] *)
Definition range (n : Z) : list Z := seqZ 0 n.
Definition range2 (lo hi : Z) : list Z := seqZ lo (hi - lo).

(** [range(0, n, step)] for a positive [step] *)
Definition range_step (n step : Z) : list Z :=
  (fun k => k * step) <$> seqZ 0 ((n + step - 1) / step).

(** ** Python [bytearray] access *)

(** Index normalisation of [seq[i]]: negative indices count from the end. *)
Definition norm_index (len : nat) (i : Z) : option nat :=
  let j := if i <? 0 then i + Z.of_nat len else i in
  if (0 <=? j) && (j <? Z.of_nat len) then Some (Z.to_nat j) else None.

(** [b[i]] *)
Definition bytearray_get (i : Z) : M (list Z) Z :=
  fun b =>
    match norm_index (length b) i with
    | Some n => match b !! n with
                | Some v => (b, Ok v)
                | None => (b, Raise IndexError)
                end
    | None => (b, Raise IndexError)
    end.

(** [b[i] = v]: the value must be a byte, the index in range. *)
Definition bytearray_set (i v : Z) : M (list Z) unit :=
  fun b =>
    if (0 <=? v) && (v <? 256) then
      match norm_index (length b) i with
      | Some n => (<[n := v]> b, Ok tt)
      | None => (b, Raise IndexError)
      end
    else (b, Raise ValueError).

(** [b[lo:hi]] for non-negative bounds (the only ones the driver uses):
    a fresh copy, clipped to the length. *)
Definition slice (b : list Z) (lo hi : Z) : list Z :=
  take (Z.to_nat (hi - lo)) (drop (Z.to_nat lo) b).

(** ** The driver object *)

(** The fields set by [SH1107.__init__].  [buffer] is the one bytearray
    shared by the driver and its [FrameBuffer] base; [physical_buffer] is
    an attribute only of a landscape ([rotate]) instance. *)
Record SH1107 : Type := mkSH1107 {
  addr : Z;
  external_vcc : bool;
  rotate : bool;
  physical_width : Z;
  physical_height : Z;
  width : Z;
  height : Z;
  pages : Z;
  buffer : list Z;
  physical_buffer : option (list Z)
}.

Definition set_buffer (b : list Z) (d : SH1107) : SH1107 :=
  mkSH1107 (addr d) (external_vcc d) (rotate d) (physical_width d)
    (physical_height d) (width d) (height d) (pages d) b (physical_buffer d).

Definition set_physical_buffer (pb : list Z) (d : SH1107) : SH1107 :=
  mkSH1107 (addr d) (external_vcc d) (rotate d) (physical_width d)
    (physical_height d) (width d) (height d) (pages d) (buffer d) (Some pb).

(** [self.buffer[i]] *)
Definition buffer_get (i : Z) : M SH1107 Z :=
  zoom buffer set_buffer (bytearray_get i).

(** Access to [self.physical_buffer]; the attribute is missing on a
    portrait instance. *)
Definition on_physical {A} (m : M (list Z) A) : M SH1107 A :=
  fun d =>
    match physical_buffer d with
    | Some pb => let '(pb', r) := m pb in (set_physical_buffer pb' d, r)
    | None => (d, Raise AttributeError)
    end.

(** ** Layout rotator *)

(** [SH1107._rotate_buffer] *)
Definition _rotate_buffer : M SH1107 unit :=
  let* n := on_physical (gets (fun pb => Z.of_nat (length pb))) in
  for_ (range n) (fun i => on_physical (bytearray_set i 0)) >>
  for_ (range 8) (fun src_page =>
    for_ (range 128) (fun src_col =>
      let* src_byte := buffer_get (src_page * 128 + src_col) in
      if src_byte =? 0 then ret tt
      else
        for_ (range 8) (fun bit =>
          if Z.land src_byte (Z.shiftl 1 bit) =? 0 then ret tt
          else
            let src_y := src_page * 8 + bit in
            let src_x := src_col in
            let dst_x := src_y in
            let dst_y := 127 - src_x in
            let dst_page := dst_y / 8 in
            let dst_bit := dst_y mod 8 in
            let* old := on_physical (bytearray_get (dst_page * 64 + dst_x)) in
            on_physical
              (bytearray_set (dst_page * 64 + dst_x)
                 (Z.lor old (Z.shiftl 1 dst_bit)))))).

(** [while cond: body], on the tuple of the loop's local variables.  The
    iteration budget [fuel] only makes the definition structural. *)
Fixpoint while_ {S L} (fuel : nat) (cond : L -> bool) (body : L -> M S L)
    (l : L) : M S L :=
  if cond l then
    match fuel with
    | O => raise FuelExhausted
    | Datatypes.S fuel' => let* l' := body l in while_ fuel' cond body l'
    end
  else ret l.

(** ** The pixel primitive surface *)

(** The drawing primitives of [framebuf.FrameBuffer] that the shape
    rasterizer calls through [self]. *)
Class Surface (S : Type) : Type := {
  pixel : Z -> Z -> Z -> S -> S;
  hline : Z -> Z -> Z -> Z -> S -> S;
  line : Z -> Z -> Z -> Z -> Z -> S -> S
}.

(** Modelled from the spec: the rasterisation of [FrameBuffer.line], an
    external primitive the specification only names; the points it visits
    between two end points are left open. *)
Class LineRaster : Type := line_points : Z -> Z -> Z -> Z -> list (Z * Z).

(** Modelled from the spec: [FrameBuffer.pixel] on the MONO_VLSB layout
    (pages of [width] bytes, bit 0 the topmost row of a page); a
    coordinate outside the grid is ignored. *)
Definition fb_pixel (x y c : Z) (d : SH1107) : SH1107 :=
  if (0 <=? x) && (x <? width d) && (0 <=? y) && (y <? height d) then
    let m := Z.shiftl 1 (y mod 8) in
    set_buffer
      (alter (fun v => if c =? 0 then Z.ldiff v m else Z.lor v m)
         (Z.to_nat (y / 8 * width d + x)) (buffer d)) d
  else d.

(** Modelled from the spec: [FrameBuffer.fill_rect], clipped pixel by pixel. *)
Definition fb_fill_rect (x y w h c : Z) (d : SH1107) : SH1107 :=
  foldl (fun d j => foldl (fun d i => fb_pixel (x + i) (y + j) c d) d (seqZ 0 w))
    d (seqZ 0 h).

(** Modelled from the spec: [FrameBuffer.hline] and [FrameBuffer.vline]. *)
Definition fb_hline (x y w c : Z) (d : SH1107) : SH1107 := fb_fill_rect x y w 1 c d.
Definition fb_vline (x y h c : Z) (d : SH1107) : SH1107 := fb_fill_rect x y 1 h c d.

(** Modelled from the spec: [FrameBuffer.fill], every pixel set to the colour. *)
Definition fb_fill (c : Z) (d : SH1107) : SH1107 :=
  set_buffer ((fun _ => if c =? 0 then 0 else 255) <$> buffer d) d.

(** Modelled from the spec: [FrameBuffer.line], the clipped pixels of the
    rasterised segment. *)
Definition fb_line `{LineRaster} (x1 y1 x2 y2 c : Z) (d : SH1107) : SH1107 :=
  foldl (fun d p => fb_pixel p.1 p.2 c d) d (line_points x1 y1 x2 y2).

(** [class SH1107(framebuf.FrameBuffer)] *)
#[export] Instance SH1107_Surface `{LineRaster} : Surface SH1107 :=
  {| pixel := fb_pixel; hline := fb_hline; line := fb_line |}.

(** The same interface on a drawing log: each primitive call is recorded,
    in call order, with its arguments as passed (nothing is clipped). *)
Inductive draw_call : Type :=
  | Pixel (x y c : Z)
  | HLine (x y w c : Z)
  | Line (x1 y1 x2 y2 c : Z).

#[export] Instance Log_Surface : Surface (list draw_call) :=
  {| pixel := fun x y c s => s ++ [Pixel x y c];
     hline := fun x y w c s => s ++ [HLine x y w c];
     line := fun x1 y1 x2 y2 c s => s ++ [Line x1 y1 x2 y2 c] |}.

(** The pixels a recorded [pixel] or [hline] call asks for. *)
Definition call_covers (px py : Z) (k : draw_call) : bool :=
  match k with
  | Pixel x y _ => (px =? x) && (py =? y)
  | HLine x y w _ => (py =? y) && (x <=? px) && (px <? x + w)
  | Line _ _ _ _ _ => false
  end.

Definition plotted (log : list draw_call) (px py : Z) : bool :=
  existsb (call_covers px py) log.

(** ** Floating point *)

(** The float operations [ellipse] uses, as an interface.  MicroPython
    converts the int operand of a mixed operation with [float_of_int],
    which does not raise: an int beyond the range of the floats becomes an
    infinity.  [true_div] is [/] on two ints with a non-zero divisor.
    [int_of_float] is the truncation [int(x)] performs; it is defined on
    the finite floats only, and [is_nan] tells the two other cases apart:
    [int] raises [ValueError] on a NaN and [OverflowError] on an
    infinity. *)
Class PyFloat (F : Type) : Type := {
  float_of_int : Z -> F;
  half : F;
  fadd : F -> F -> F;
  fsub : F -> F -> F;
  fmul : F -> F -> F;
  fpow : F -> F -> F;
  true_div : Z -> Z -> F;
  int_of_float : F -> option Z;
  is_nan : F -> bool;
  fpos : F -> bool
}.

(** [int(x)] on a float [x] *)
Definition int_ {S F} `{PyFloat F} (x : F) : M S Z :=
  match int_of_float x with
  | Some n => ret n
  | None => raise (if is_nan x then ValueError else OverflowError)
  end.

(** ** Shape rasterizer *)

Section Shapes.
Context {S : Type} `{Surface S} {F : Type} `{PyFloat F}.

(** The update of [x], [y], [err] at the end of a filled-circle pass. *)
Definition circle_fill_next (l : Z * Z * Z) : Z * Z * Z :=
  let '(x, y, err) := l in
  let err := err + (1 + 2 * y) in
  let y := y + 1 in
  if 2 * err >? 2 * x + 1 then
    let x := x - 1 in
    let err := err + (1 - 2 * x) in
    (x, y, err)
  else (x, y, err).

(** One pass of the filled-circle loop body. *)
Definition circle_fill_body (x0 y0 c : Z) (l : Z * Z * Z) : M S (Z * Z * Z) :=
  let '(x, y, err) := l in
  modify (hline (x0 - x) (y0 + y) (2 * x + 1) c) >>
  (if negb (y =? 0) then modify (hline (x0 - x) (y0 - y) (2 * x + 1) c)
   else ret tt) >>
  ret (circle_fill_next l).

(** The update of [x], [y], [err] at the end of an outline-circle pass. *)
Definition circle_outline_next (l : Z * Z * Z) : Z * Z * Z :=
  let '(x, y, err) := l in
  let '(y, err) := if err <=? 0 then (y + 1, err + (2 * (y + 1) + 1)) else (y, err) in
  let '(x, err) := if err >? 0 then (x - 1, err - (2 * (x - 1) + 1)) else (x, err) in
  (x, y, err).

(** One pass of the outline-circle loop body. *)
Definition circle_outline_body (x0 y0 c : Z) (l : Z * Z * Z) : M S (Z * Z * Z) :=
  let '(x, y, err) := l in
  modify (pixel (x0 + x) (y0 + y) c) >>
  modify (pixel (x0 + y) (y0 + x) c) >>
  modify (pixel (x0 - y) (y0 + x) c) >>
  modify (pixel (x0 - x) (y0 + y) c) >>
  modify (pixel (x0 - x) (y0 - y) c) >>
  modify (pixel (x0 - y) (y0 - x) c) >>
  modify (pixel (x0 + y) (y0 - x) c) >>
  modify (pixel (x0 + x) (y0 - y) c) >>
  ret (circle_outline_next l).

(** [SH1107.circle] *)
Definition circle (x0 y0 r c : Z) (f : bool) : M S unit :=
  let x := r in
  let y := 0 in
  let err := 0 in
  if f then
    while_ (Z.to_nat (r + 1)) (fun '(x, y, err) => y <=? r)
      (circle_fill_body x0 y0 c) (x, y, err) >> ret tt
  else
    while_ (Z.to_nat (r + 1)) (fun '(x, y, err) => x >=? y)
      (circle_outline_body x0 y0 c) (x, y, err) >> ret tt.

(** The four symmetric points of an ellipse pass. *)
Definition ellipse_points (x0 y0 c x y : Z) : M S unit :=
  modify (pixel (x0 + x) (y0 + y) c) >>
  modify (pixel (x0 - x) (y0 + y) c) >>
  modify (pixel (x0 + x) (y0 - y) c) >>
  modify (pixel (x0 - x) (y0 - y) c).

(** [SH1107.ellipse] *)
Definition ellipse (x0 y0 a b c : Z) (f : bool) : M S unit :=
  if f then
    for_ (range2 (- b) (b + 1)) (fun y =>
      if b * b =? 0 then raise ZeroDivisionError
      else
        let* x := int_
                    (fmul (float_of_int a)
                       (fpow (fsub (float_of_int 1) (true_div (y * y) (b * b)))
                          half)) in
        modify (hline (x0 - x) (y0 + y) (2 * x + 1) c))
  else
    let x := 0 in
    let y := b in
    let a2 := a * a in
    let b2 := b * b in
    let d := b2 - a2 * b + a2 / 4 in
    let dx := 0 in
    let dy := 2 * a2 * y in
    (* Region 1 *)
    let* l := while_ (Z.to_nat (dy - dx))
                (fun '(x, y, d, dx, dy) => dx <? dy)
                (fun '(x, y, d, dx, dy) =>
                   ellipse_points x0 y0 c x y >>
                   if d <? 0 then
                     let x := x + 1 in
                     let dx := dx + 2 * b2 in
                     let d := d + (dx + b2) in
                     ret (x, y, d, dx, dy)
                   else
                     let x := x + 1 in
                     let y := y - 1 in
                     let dx := dx + 2 * b2 in
                     let dy := dy - 2 * a2 in
                     let d := d + (dx - dy + b2) in
                     ret (x, y, d, dx, dy))
                (x, y, d, dx, dy) in
    let '(x, y, _, dx, dy) := l in
    (* Region 2 *)
    let xh := fadd (float_of_int x) half in
    let d := fsub (fadd (fmul (fmul (float_of_int b2) xh) xh)
                     (float_of_int (a2 * (y - 1) * (y - 1))))
               (float_of_int (a2 * b2)) in
    while_ (Z.to_nat (y + 1))
      (fun '(x, y, d, dx, dy) => y >=? 0)
      (fun '(x, y, d, dx, dy) =>
         ellipse_points x0 y0 c x y >>
         if fpos d then
           let y := y - 1 in
           let dy := dy - 2 * a2 in
           let d := fadd d (float_of_int (a2 - dy)) in
           ret (x, y, d, dx, dy)
         else
           let y := y - 1 in
           let x := x + 1 in
           let dx := dx + 2 * b2 in
           let dy := dy - 2 * a2 in
           let d := fadd d (float_of_int (dx - dy + a2)) in
           ret (x, y, d, dx, dy))
      (x, y, d, dx, dy) >> ret tt.

(** [if ya > yb: xa, ya, xb, yb = xb, yb, xa, ya] *)
Definition swap_if_above (p q : Z * Z) : (Z * Z) * (Z * Z) :=
  if p.2 >? q.2 then (q, p) else (p, q).

(** [SH1107.triangle] *)
Definition triangle (x0 y0 x1 y1 x2 y2 c : Z) (f : bool) : M S unit :=
  if f then
    let '(p0, p1) := swap_if_above (x0, y0) (x1, y1) in
    let '(p1, p2) := swap_if_above p1 (x2, y2) in
    let '(p0, p1) := swap_if_above p0 p1 in
    let '(x0, y0) := p0 in
    let '(x1, y1) := p1 in
    let '(x2, y2) := p2 in
    for_ (range2 y0 (y2 + 1)) (fun y =>
      let '(xa, xb) :=
        if y <=? y1 then
          (* Upper part *)
          (if negb (y1 =? y0) then x0 + (x1 - x0) * (y - y0) / (y1 - y0) else x0,
           if negb (y2 =? y0) then x0 + (x2 - x0) * (y - y0) / (y2 - y0) else x0)
        else
          (* Lower part *)
          (if negb (y2 =? y1) then x1 + (x2 - x1) * (y - y1) / (y2 - y1) else x1,
           if negb (y2 =? y0) then x0 + (x2 - x0) * (y - y0) / (y2 - y0) else x0) in
      let '(xa, xb) := if xa >? xb then (xb, xa) else (xa, xb) in
      modify (hline xa y (xb - xa + 1) c))
  else
    modify (line x0 y0 x1 y1 c) >>
    modify (line x1 y1 x2 y2 c) >>
    modify (line x2 y2 x0 y0 c).

End Shapes.

(** ** The bus and the transfer protocol *)

(** What the driver does to the outside world, in program order: an
    addressed bus write that went through, one that failed, and the timed
    waits. *)
Inductive event : Type :=
  | Writeto (a : Z) (data : list Z)
  | WritetoFailed (a : Z) (data : list Z)
  | SleepUs (n : Z)
  | SleepMs (n : Z).

(** The I2C transport and the clock: [fails n] says whether the [n]-th
    call of [writeto] (counted from 0 over the bus's lifetime) raises
    [OSError], [calls] counts the calls made, and [trace] records the
    writes and waits so far. *)
Record Bus : Type := mkBus {
  fails : nat -> bool;
  calls : nat;
  trace : list event
}.

(** A driver instance together with the bus [self.i2c] refers to. *)
Record World : Type := mkWorld {
  drv : SH1107;
  i2c : Bus
}.

Definition set_drv (d : SH1107) (w : World) : World := mkWorld d (i2c w).
Definition set_i2c (b : Bus) (w : World) : World := mkWorld (drv w) b.

Definition emit (e : event) : M Bus unit :=
  modify (fun b => mkBus (fails b) (calls b) (trace b ++ [e])).

(** [i2c.writeto(addr, data)] *)
Definition writeto (a : Z) (data : list Z) : M Bus unit :=
  fun b =>
    if fails b (calls b) then
      (mkBus (fails b) (Datatypes.S (calls b)) (trace b ++ [WritetoFailed a data]),
       Raise OSError)
    else
      (mkBus (fails b) (Datatypes.S (calls b)) (trace b ++ [Writeto a data]), Ok tt).

Definition on_bus {A} (m : M Bus A) : M World A := zoom i2c set_i2c m.
Definition on_drv {A} (m : M SH1107 A) : M World A := zoom drv set_drv m.

(** [time.sleep_us] and [time.sleep_ms] *)
Definition sleep_us (n : Z) : M World unit := on_bus (emit (SleepUs n)).
Definition sleep_ms (n : Z) : M World unit := on_bus (emit (SleepMs n)).

(** [bytes(xs)]: every element must be a byte. *)
Definition bytes {S} (xs : list Z) : M S (list Z) :=
  if forallb (fun v => (0 <=? v) && (v <? 256)) xs then ret xs
  else raise ValueError.

(** SH1107 commands *)
Definition _SET_CONTRAST : Z := 0x81.
Definition _SET_ENTIRE_ON : Z := 0xA4.
Definition _SET_NORM_INV : Z := 0xA6.
Definition _SET_DISP : Z := 0xAE.
Definition _SET_SCAN_DIR : Z := 0xC0.
Definition _SET_SEG_REMAP : Z := 0xA0.
Definition _SET_MUX_RATIO : Z := 0xA8.
Definition _SET_DISP_OFFSET : Z := 0xD3.
Definition _SET_DISP_START_LINE : Z := 0xDC.
Definition _SET_DISP_CLK_DIV : Z := 0xD5.
Definition _SET_PRECHARGE : Z := 0xD9.
Definition _SET_VCOM_DESEL : Z := 0xDB.
Definition _SET_PAGE_ADDR : Z := 0xB0.
Definition _SET_COL_ADDR_LOW : Z := 0x00.
Definition _SET_COL_ADDR_HIGH : Z := 0x10.
Definition _SET_MEM_ADDR_MODE : Z := 0x20.

(** [SH1107.write_cmd] *)
Definition write_cmd (cmd : Z) : M World unit :=
  let* a := gets (fun w => addr (drv w)) in
  let* msg := bytes [0x80; cmd] in
  on_bus (writeto a msg).

(** [SH1107.write_data] *)
Definition write_data (data : list Z) : M World unit :=
  let chunk_size := 16 in
  for_ (range_step (Z.of_nat (length data)) chunk_size) (fun i =>
    let* a := gets (fun w => addr (drv w)) in
    let* ctl := bytes [0x40] in
    on_bus (writeto a (ctl ++ slice data i (i + chunk_size))) >>
    sleep_us 50).

(** Which bytearray [buffer_to_send] refers to. *)
Inductive buffer_ref : Type := PhysicalBuffer | LogicalBuffer.

(** [buffer_to_send[lo:hi]] *)
Definition slice_of (r : buffer_ref) (lo hi : Z) : M World (list Z) :=
  match r with
  | PhysicalBuffer => on_drv (on_physical (gets (fun b => slice b lo hi)))
  | LogicalBuffer => gets (fun w => slice (buffer (drv w)) lo hi)
  end.

(** The statements [show] runs for one page, in its [try] block and again
    in its [except] block. *)
Definition send_page (buffer_to_send : buffer_ref) (page : Z) : M World unit :=
  write_cmd (Z.lor _SET_PAGE_ADDR page) >>
  write_cmd (Z.lor _SET_COL_ADDR_LOW 0) >>
  write_cmd (Z.lor _SET_COL_ADDR_HIGH 0) >>
  let start := page * 64 in
  let* data := slice_of buffer_to_send start (start + 64) in
  write_data data.

(** [SH1107.show] *)
Definition show : M World unit :=
  let* rot := gets (fun w => rotate (drv w)) in
  let* buffer_to_send :=
    (if rot then on_drv _rotate_buffer >> ret PhysicalBuffer
     else ret LogicalBuffer) in
  for_ (range 16) (fun page =>
    try_except_OSError
      (send_page buffer_to_send page >> sleep_us 100)
      (sleep_ms 10 >> send_page buffer_to_send page)).

(** The command bytes [init_display] sends, in order. *)
Definition init_commands : list Z :=
  [ Z.lor _SET_DISP 0x00;
    _SET_DISP_START_LINE; 0x00;
    _SET_CONTRAST; 0x2F;
    _SET_MEM_ADDR_MODE;
    Z.lor _SET_SEG_REMAP 0x00;
    Z.lor _SET_SCAN_DIR 0x00;
    _SET_MUX_RATIO; 0x7F;
    _SET_DISP_OFFSET; 0x60;
    _SET_DISP_CLK_DIV; 0x51;
    _SET_PRECHARGE; 0x22;
    _SET_VCOM_DESEL; 0x35;
    _SET_ENTIRE_ON;
    _SET_NORM_INV;
    Z.lor _SET_DISP 0x01 ].

(** [SH1107.init_display] *)
Definition init_display : M World unit :=
  for_ init_commands write_cmd >>
  on_drv (modify (fb_fill 0)) >>
  show.

(** [SH1107.__init__]: the instance built on the bus [b], then
    [init_display] run on it. *)
Definition SH1107_init (b : Bus) (a : Z) (rot ext_vcc : bool) : World * result unit :=
  let physical_width := 64 in
  let physical_height := 128 in
  let width := if rot then 128 else 64 in
  let height := if rot then 64 else 128 in
  let pages := height / 8 in
  let buffer := replicate (Z.to_nat (pages * width)) 0 in
  let physical_buffer :=
    if rot then Some (replicate (Z.to_nat (16 * 64)) 0) else None in
  init_display
    (mkWorld
       (mkSH1107 a ext_vcc rot physical_width physical_height width height
          pages buffer physical_buffer) b).

(** [SH1107.contrast] *)
Definition contrast (value : Z) : M World unit :=
  write_cmd _SET_CONTRAST >> write_cmd value.

(** [SH1107.invert] *)
Definition invert (inv : Z) : M World unit :=
  write_cmd (Z.lor _SET_NORM_INV (Z.land inv 1)) >> sleep_ms 10.

(** [SH1107.poweroff] *)
Definition poweroff : M World unit := write_cmd (Z.lor _SET_DISP 0x00).

(** [SH1107.poweron] *)
Definition poweron : M World unit := write_cmd (Z.lor _SET_DISP 0x01).

(** ** The public operations *)

(** A call of one of the driver's public methods, with its arguments. *)
Inductive operation : Type :=
  | OpFill (c : Z)
  | OpPixel (x y c : Z)
  | OpHline (x y w c : Z)
  | OpVline (x y h c : Z)
  | OpFillRect (x y w h c : Z)
  | OpCircle (x0 y0 r c : Z) (f : bool)
  | OpEllipse (x0 y0 a b c : Z) (f : bool)
  | OpTriangle (x0 y0 x1 y1 x2 y2 c : Z) (f : bool)
  | OpShow
  | OpContrast (value : Z)
  | OpInvert (inv : Z)
  | OpPoweroff
  | OpPoweron.

Section Operations.
Context `{LineRaster} {F : Type} `{PyFloat F}.

Definition run_op (op : operation) : M World unit :=
  match op with
  | OpFill c => on_drv (modify (fb_fill c))
  | OpPixel x y c => on_drv (modify (fb_pixel x y c))
  | OpHline x y w c => on_drv (modify (fb_hline x y w c))
  | OpVline x y h c => on_drv (modify (fb_vline x y h c))
  | OpFillRect x y w h c => on_drv (modify (fb_fill_rect x y w h c))
  | OpCircle x0 y0 r c f => on_drv (circle x0 y0 r c f)
  | OpEllipse x0 y0 a b c f => on_drv (ellipse x0 y0 a b c f)
  | OpTriangle x0 y0 x1 y1 x2 y2 c f => on_drv (triangle x0 y0 x1 y1 x2 y2 c f)
  | OpShow => show
  | OpContrast value => contrast value
  | OpInvert inv => invert inv
  | OpPoweroff => poweroff
  | OpPoweron => poweron
  end.

(** The states a driver instance can be in: the one its constructor
    leaves, and the one any public operation leaves, whether they
    return or raise. *)
Inductive reachable : World -> Prop :=
  | reach_init b a rot ext_vcc :
      reachable (SH1107_init b a rot ext_vcc).1
  | reach_op w op :
      reachable w -> reachable (run_op op w).1.

End Operations.

(** ** Notions used in the statements *)

(** The buffer-size invariant of the data model. *)
Definition buffers_sized (d : SH1107) : Prop :=
  Z.of_nat (length (buffer d)) = width d * height d / 8 /\
  length (buffer d) = 1024%nat /\
  (is_Some (physical_buffer d) <-> rotate d = true) /\
  (forall pb, physical_buffer d = Some pb -> length pb = 1024%nat).

(** The same invariant, of the driver of a world. *)
Definition world_sized (w : World) : Prop := buffers_sized (drv w).

(** The loop variables [(x, y, err)] of the filled circle of radius [r] on
    entry to its [n]-th pass (counted from 0). *)
Definition circle_fill_state (r : Z) (n : nat) : Z * Z * Z :=
  Nat.iter n circle_fill_next (r, 0, 0).

(** The half-width of the span the filled circle draws at rows [+n], [-n]. *)
Definition fill_x (r : Z) (n : nat) : Z := (circle_fill_state r n).1.1.

(** The pixels the outline circle may ask for: the eight reflections of a
    point [(a, b)] of the first octant on or just inside the circle. *)
Definition on_outline (x0 y0 r px py : Z) : Prop :=
  exists a b,
    0 <= b <= a /\ a <= r /\ a * a + (b + 1) * (b + 1) <= r * r + 1 /\
    (((px = x0 + a \/ px = x0 - a) /\ (py = y0 + b \/ py = y0 - b)) \/
     ((px = x0 + b \/ px = x0 - b) /\ (py = y0 + a \/ py = y0 - a))).

(** Bit [b] of byte [i] of a buffer. *)
Definition bit_of (buf : list Z) (i b : Z) : bool :=
  Z.testbit (buf !!! Z.to_nat i) b.

(** Where the rotation sends the logical bit at page [p], byte [c], bit
    [b], that is pixel [(x, y) = (c, 8p + b)]: to pixel
    [(dst_x, dst_y) = (y, 127 - x)], stored in byte [dst_y / 8 * 64 + dst_x]
    at bit [dst_y mod 8]. *)
Definition dst_index (p c b : Z) : Z := (127 - c) / 8 * 64 + (p * 8 + b).
Definition dst_bit (c : Z) : Z := (127 - c) mod 8.

(** A cleared buffer of [w]-byte pages with the single pixel [(x, y)] lit
    (MONO_VLSB layout). *)
Definition lone_pixel (w x y : Z) : list Z :=
  <[Z.to_nat (y / 8 * w + x) := Z.shiftl 1 (y mod 8)]> (replicate 1024 0).

(** The body of the bit loop of [_rotate_buffer], for one bit of a
    non-zero source byte. *)
Definition rotate_bit (src_page src_col src_byte bit : Z) : M SH1107 unit :=
  if Z.land src_byte (Z.shiftl 1 bit) =? 0 then ret tt
  else
    let src_y := src_page * 8 + bit in
    let src_x := src_col in
    let dst_x := src_y in
    let dst_y := 127 - src_x in
    let dst_page := dst_y / 8 in
    let dst_bit := dst_y mod 8 in
    let* old := on_physical (bytearray_get (dst_page * 64 + dst_x)) in
    on_physical
      (bytearray_set (dst_page * 64 + dst_x) (Z.lor old (Z.shiftl 1 dst_bit))).

(** The body of the column loop of [_rotate_buffer], for one source byte. *)
Definition rotate_byte (src_page src_col : Z) : M SH1107 unit :=
  let* src_byte := buffer_get (src_page * 128 + src_col) in
  if src_byte =? 0 then ret tt
  else for_ (range 8) (rotate_bit src_page src_col src_byte).

(** The logical bits the rotation loops have visited when they are about
    to look at bit [B] of byte [C] of page [P]. *)
Definition visited (P C B p c b : Z) : Prop :=
  p < P \/ (p = P /\ (c < C \/ (c = C /\ b < B))).

(** The physical buffer holds exactly the images of the set logical bits
    visited so far, and nothing else. *)
Definition rotated_so_far (buf : list Z) (P C B : Z) (pb : list Z) : Prop :=
  length pb = 1024%nat /\
  (forall i, 0 <= i < 1024 -> 0 <= pb !!! Z.to_nat i < 256) /\
  (forall i k, 0 <= i < 1024 -> 0 <= k ->
     (bit_of pb i k = true <->
      exists p c b,
        0 <= p < 8 /\ 0 <= c < 128 /\ 0 <= b < 8 /\ visited P C B p c b /\
        bit_of buf (p * 128 + c) b = true /\
        i = dst_index p c b /\ k = dst_bit c)).

(** A state predicate a computation keeps, however it ends. *)
Definition preserves {S A} (P : S -> Prop) (m : M S A) : Prop :=
  forall s, P s -> P (m s).1.

(** ** The bus traffic of a page *)

(** The payload slices [write_data] cuts its argument into. *)
Definition chunks (data : list Z) : list (list Z) :=
  (fun i => slice data i (i + 16)) <$> range_step (Z.of_nat (length data)) 16.

(** A bus transaction the driver attempts: the bytes it writes and the
    waits that follow the write once it has gone through. *)
Definition txn : Type := list Z * list event.

(** The transactions of one page of a frame: three address commands, then
    the page's bytes in chunks. *)
Definition page_txns (data : list Z) (page : Z) : list txn :=
  [([0x80; Z.lor 0xB0 page], []); ([0x80; 0x00], []); ([0x80; 0x10], [])]
  ++ ((fun ch => (0x40 :: ch, [SleepUs 50])) <$> chunks data).

(** The trace of transactions that all go through. *)
Definition txn_events (a : Z) (txs : list txn) : list event :=
  flat_map (fun t => Writeto a t.1 :: t.2) txs.

(** The trace of an attempt whose [j]-th write fails. *)
Definition failed_events (a : Z) (txs : list txn) (j : nat) : list event :=
  txn_events a (take j txs) ++
  match txs !! j with
  | Some t => [WritetoFailed a t.1]
  | None => []
  end.

(** Running transactions on the bus, one after the other. *)
Definition run_txns (a : Z) (txs : list txn) : M Bus unit :=
  for_ txs (fun t => writeto a t.1 >> for_ t.2 emit).

(** The buffer [show] sends: [buffer_to_send]. *)
Definition active_buffer (d : SH1107) : list Z :=
  if rotate d then default [] (physical_buffer d) else buffer d.

(** The 64 bytes of a page of the buffer [show] sends. *)
Definition page_data (d : SH1107) (page : Z) : list Z :=
  slice (active_buffer d) (page * 64) (page * 64 + 64).

(** The trace of a page that goes through at the first attempt. *)
Definition page_events (d : SH1107) (page : Z) : list event :=
  txn_events (addr d) (page_txns (page_data d page) page).

(** The bus state after [n] more calls of [writeto] and the events [evs]. *)
Definition advance (n : nat) (evs : list event) (b : Bus) : Bus :=
  mkBus (fails b) (calls b + n) (trace b ++ evs).

(** No call of [writeto] among the next [n] fails. *)
Definition reliable_for (n : nat) (b : Bus) : Prop :=
  forall i, (i < n)%nat -> fails b (calls b + i) = false.

(** The value [show] gives [buffer_to_send]. *)
Definition buffer_ref_of (d : SH1107) : buffer_ref :=
  if rotate d then PhysicalBuffer else LogicalBuffer.

(** The body of the page loop of [show]. *)
Definition show_page (buffer_to_send : buffer_ref) (page : Z) : M World unit :=
  try_except_OSError
    (send_page buffer_to_send page >> sleep_us 100)
    (sleep_ms 10 >> send_page buffer_to_send page).

(** The driver as [show] leaves it: rotated when landscape. *)
Definition rotated (d : SH1107) : SH1107 :=
  if rotate d then (_rotate_buffer d).1 else d.

(** The world after [n] more bus calls and the events [evs]. *)
Definition wadvance (n : nat) (evs : list event) (w : World) : World :=
  set_i2c (advance n evs (i2c w)) w.

(** The trace of pages that all go through at the first attempt. *)
Definition frame_events (d : SH1107) (pages : list Z) : list event :=
  flat_map (fun page => page_events d page ++ [SleepUs 100]) pages.

(** The trace of the initialization commands that go through. *)
Definition command_events (a : Z) (cmds : list Z) : list event :=
  (fun c => Writeto a [0x80; c]) <$> cmds.

(** The instance [__init__] builds before it calls [init_display]. *)
Definition fresh_instance (a : Z) (rot ext_vcc : bool) : SH1107 :=
  mkSH1107 a ext_vcc rot 64 128 (if rot then 128 else 64)
    (if rot then 64 else 128) (if rot then 8 else 16) (replicate 1024 0)
    (if rot then Some (replicate 1024 0) else None).

(** The transactions of the initialization commands. *)
Definition command_txns (cmds : list Z) : list txn :=
  (fun c => ([0x80; c], [])) <$> cmds.

(** Modelled from the spec: reading a pixel of the logical buffer back
    (MONO_VLSB layout), for coordinates inside the grid. *)
Definition pixel_lit (d : SH1107) (x y : Z) : bool :=
  bit_of (buffer d) (y / 8 * width d + x) (y mod 8).

(** A bus on which only call number [k] fails, and one that never fails. *)
Definition flaky_bus (k : nat) : Bus := mkBus (fun n => Nat.eqb n k) 0 [].
Definition reliable_bus : Bus := mkBus (fun _ => false) 0 [].

(** ** Example inputs *)

(** An instance of the float interface for running examples: IEEE 754
    binary64 with rounding to nearest even, from the Standard Library's
    [SpecFloat].  An int is converted by rounding it, to an infinity when
    it is beyond the range; [n / m] divides the two converted ints; the
    only power [ellipse] takes, [** 0.5], is the correctly rounded square
    root; [int] truncates towards zero. *)
Definition binary64 : PyFloat spec_float :=
  let of_int := fun n => binary_normalize 53 1024 n 0 false in
  {| float_of_int := of_int;
     half := S754_finite false 4503599627370496 (-53);
     fadd := SFadd 53 1024;
     fsub := SFsub 53 1024;
     fmul := SFmul 53 1024;
     fpow := fun x e =>
       if SFeqb e (S754_finite false 4503599627370496 (-53))
       then SFsqrt 53 1024 x else S754_nan;
     true_div := fun n m => SFdiv 53 1024 (of_int n) (of_int m);
     int_of_float := fun x =>
       match x with
       | S754_zero _ => Some 0
       | S754_finite s m e =>
           let n := Z.shiftl (Z.pos m) e in Some (if s then - n else n)
       | _ => None
       end;
     is_nan := fun x => match x with S754_nan => true | _ => false end;
     fpos := fun x => SFltb (S754_zero false) x |}.

(** A rasterisation of segments for running examples: the two end points. *)
Definition end_points : LineRaster := fun x1 y1 x2 y2 => [(x1, y1); (x2, y2)].

(** A landscape instance whose only lit pixel is [(0, 0)]. *)
Definition lit_instance : SH1107 :=
  set_buffer (lone_pixel 128 0 0) (fresh_instance 0x3C true false).

(** A bus on which calls number [k] and [k + 1] fail. *)
Definition broken_bus (k : nat) : Bus :=
  mkBus (fun n => Nat.eqb n k || Nat.eqb n (Datatypes.S k)) 0 [].

(** ** The convenience classes *)

(** [SH1107_Portrait.__init__] *)
Definition SH1107_Portrait_init (b : Bus) (a : Z) (ext_vcc : bool) : World * result unit :=
  SH1107_init b a false ext_vcc.

(** [SH1107_Landscape.__init__] *)
Definition SH1107_Landscape_init (b : Bus) (a : Z) (ext_vcc : bool) : World * result unit :=
  SH1107_init b a true ext_vcc.

(** ** Further notions used in the statements *)

(** The payload bytes of the data writes of a trace (the writes behind the
    control byte [0x40]), in the order they were sent. *)
Definition data_payload (evs : list event) : list Z :=
  flat_map (fun e => match e with
                     | Writeto _ (ctl :: payload) => if ctl =? 0x40 then payload else []
                     | _ => []
                     end) evs.

(** A computation ends normally or with [OSError], after at most [n] more
    bus calls; it touches nothing of the world but the bus counters. *)
Definition bus_bounded (n : nat) (m : M World unit) (w : World) : Prop :=
  exists k evs r,
    m w = (wadvance k evs w, r) /\ (k <= n)%nat /\ (r = Ok tt \/ r = Raise OSError).

(** ** The retry policy *)

(** The first of the next [n] calls of [writeto] that fails, if one does,
    counted from 0. *)
Definition first_failure (n : nat) (b : Bus) : option nat :=
  find (fun i => fails b (calls b + i)) (seq 0 n).

(** What the retry policy makes of one page on the bus [b].  If none of
    the page's writes fails, the page is sent and followed by the 100 us
    wait.  If the [j]-th write fails, the attempt ends there; after a 10 ms
    wait the page's three address commands and its data writes are sent
    once more from the start; a write of this second attempt that fails
    ends the frame with [OSError]. *)
Definition page_policy (d : SH1107) (page : Z) (b : Bus) : Bus * result unit :=
  let a := addr d in
  let txs := page_txns (page_data d page) page in
  match first_failure (length txs) b with
  | None => (advance (length txs) (txn_events a txs ++ [SleepUs 100]) b, Ok tt)
  | Some j =>
      let b1 := advance (Datatypes.S j) (failed_events a txs j ++ [SleepMs 10]) b in
      match first_failure (length txs) b1 with
      | None => (advance (length txs) (txn_events a txs) b1, Ok tt)
      | Some j' =>
          (advance (Datatypes.S j') (failed_events a txs j') b1, Raise OSError)
      end
  end.

(** The policy over the pages of a frame: page after page, up to the first
    one whose second attempt fails. *)
Fixpoint frame_policy (d : SH1107) (pages : list Z) (b : Bus) : Bus * result unit :=
  match pages with
  | [] => (b, Ok tt)
  | page :: pages' =>
      match page_policy d page b with
      | (b1, Ok _) => frame_policy d pages' b1
      | (b1, Raise e) => (b1, Raise e)
      end
  end.

(** Both attempts at [page] fail on the bus [b]. *)
Definition fails_twice (d : SH1107) (page : Z) (b : Bus) : Prop :=
  let a := addr d in
  let txs := page_txns (page_data d page) page in
  exists j j',
    first_failure (length txs) b = Some j /\
    first_failure (length txs)
      (advance (Datatypes.S j) (failed_events a txs j ++ [SleepMs 10]) b) = Some j'.

(** Construction on the bus [b]: the first initialization command that
    fails ends it with [OSError]; when all 21 go through, the frame
    transfer follows under the retry policy. *)
Definition init_policy (d : SH1107) (b : Bus) : Bus * result unit :=
  match first_failure (length init_commands) b with
  | Some k =>
      (advance (Datatypes.S k)
         (failed_events (addr d) (command_txns init_commands) k) b,
       Raise OSError)
  | None =>
      frame_policy d (range 16)
        (advance (length init_commands) (command_events (addr d) init_commands) b)
  end.

(** A bus on which exactly the calls numbered in [ks] fail. *)
Definition failing_bus (ks : list nat) : Bus :=
  mkBus (fun n => existsb (Nat.eqb n) ks) 0 [].

(** ** Rows of the filled shapes *)


(** The three conditional swaps with which the filled triangle orders its
    vertices by [y]. *)
Definition sort_vertices (p0 p1 p2 : Z * Z) : (Z * Z) * (Z * Z) * (Z * Z) :=
  let '(p0, p1) := swap_if_above p0 p1 in
  let '(p1, p2) := swap_if_above p1 p2 in
  let '(p0, p1) := swap_if_above p0 p1 in
  (p0, p1, p2).

(** The two ends [(xa, xb)], in increasing order, of the span the filled
    triangle draws on row [y], for vertices ordered by [y]. *)
Definition triangle_span (p0 p1 p2 : Z * Z) (y : Z) : Z * Z :=
  let '(x0, y0) := p0 in
  let '(x1, y1) := p1 in
  let '(x2, y2) := p2 in
  let '(xa, xb) :=
    if y <=? y1 then
      (if negb (y1 =? y0) then x0 + (x1 - x0) * (y - y0) / (y1 - y0) else x0,
       if negb (y2 =? y0) then x0 + (x2 - x0) * (y - y0) / (y2 - y0) else x0)
    else
      (if negb (y2 =? y1) then x1 + (x2 - x1) * (y - y1) / (y2 - y1) else x1,
       if negb (y2 =? y0) then x0 + (x2 - x0) * (y - y0) / (y2 - y0) else x0) in
  if xa >? xb then (xb, xa) else (xa, xb).

(** The spans, one per row, that a loop over rows appends to the drawing
    log. *)
Definition row_spans (span : Z -> Z * Z) (c : Z) (rows : list Z) : list draw_call :=
  map (fun y => HLine (span y).1 y ((span y).2 - (span y).1 + 1) c) rows.

(** * Proofs *)

(** ** Rules for [preserves] *)

Section PreservesRules.
Context {S : Type} (P : S -> Prop).

Lemma preserves_ret {A} (a : A) : preserves P (ret a).
Proof. intros s Hs. exact Hs. Qed.

Lemma preserves_raise {A} e : preserves P (@raise S A e).
Proof. intros s Hs. exact Hs. Qed.

Lemma preserves_gets {A} (f : S -> A) : preserves P (gets f).
Proof. intros s Hs. exact Hs. Qed.

Lemma preserves_modify (f : S -> S) :
  (forall s, P s -> P (f s)) -> preserves P (modify f).
Proof. intros Hf s Hs. apply Hf, Hs. Qed.

Lemma preserves_bind {A B} (m : M S A) (k : A -> M S B) :
  preserves P m -> (forall a, preserves P (k a)) -> preserves P (bind m k).
Proof.
  intros Hm Hk s Hs. unfold bind.
  specialize (Hm s Hs). destruct (m s) as [s' [a|e]]; simpl in *.
  - apply Hk, Hm.
  - exact Hm.
Qed.

Lemma preserves_try {A} (body handler : M S A) :
  preserves P body -> preserves P handler ->
  preserves P (try_except_OSError body handler).
Proof.
  intros Hb Hh s Hs. unfold try_except_OSError.
  specialize (Hb s Hs). destruct (body s) as [s' [a|[]]]; simpl in *;
    try exact Hb.
  apply Hh, Hb.
Qed.

Lemma preserves_for {X} (xs : list X) (body : X -> M S unit) :
  (forall x, preserves P (body x)) -> preserves P (for_ xs body).
Proof.
  intros Hb. induction xs as [|x xs IH]; simpl.
  - apply preserves_ret.
  - apply preserves_bind; [apply Hb | intros _; exact IH].
Qed.

Lemma preserves_while {L} fuel (cond : L -> bool) (body : L -> M S L) l :
  (forall l, preserves P (body l)) -> preserves P (while_ fuel cond body l).
Proof.
  intros Hb. revert l. induction fuel as [|fuel IH]; intros l; simpl.
  - destruct (cond l); [apply preserves_raise | apply preserves_ret].
  - destruct (cond l); [|apply preserves_ret].
    apply preserves_bind; [apply Hb | intros l'; apply IH].
Qed.

Lemma preserves_if {A} (b : bool) (m1 m2 : M S A) :
  preserves P m1 -> preserves P m2 -> preserves P (if b then m1 else m2).
Proof. destruct b; auto. Qed.

End PreservesRules.

Lemma preserves_zoom {S T A} (P : S -> Prop) (Q : T -> Prop)
    (get : S -> T) (set : T -> S -> S) (m : M T A) :
  (forall s, P s -> Q (get s)) ->
  (forall s t, P s -> Q t -> P (set t s)) ->
  preserves Q m -> preserves P (zoom get set m).
Proof.
  intros Hget Hset Hm s Hs. unfold zoom.
  specialize (Hm (get s) (Hget s Hs)).
  destruct (m (get s)) as [t' r]; simpl in *. apply Hset; assumption.
Qed.

(** ** The primitives keep the buffers' sizes *)

Lemma buffers_sized_set_buffer b d :
  length b = length (buffer d) -> buffers_sized d -> buffers_sized (set_buffer b d).
Proof.
  intros Hlen (H1 & H2 & H3 & H4). unfold buffers_sized. simpl.
  rewrite Hlen. auto.
Qed.

Lemma buffers_sized_set_physical pb pb0 d :
  physical_buffer d = Some pb0 -> length pb = length pb0 ->
  buffers_sized d -> buffers_sized (set_physical_buffer pb d).
Proof.
  intros Hpb Hlen (H1 & H2 & H3 & H4). unfold buffers_sized. simpl.
  repeat split; auto.
  - intros _. apply H3. rewrite Hpb. eauto.
  - intros pb' [= <-]. rewrite Hlen. eauto.
Qed.

Lemma fb_pixel_sized x y c d : buffers_sized d -> buffers_sized (fb_pixel x y c d).
Proof.
  intros Hd. unfold fb_pixel.
  destruct (_ && _); [|exact Hd].
  apply buffers_sized_set_buffer; [|exact Hd]. apply length_alter.
Qed.

Lemma foldl_sized {X} (f : SH1107 -> X -> SH1107) (xs : list X) d :
  (forall d x, buffers_sized d -> buffers_sized (f d x)) ->
  buffers_sized d -> buffers_sized (foldl f d xs).
Proof.
  intros Hf. revert d. induction xs as [|x xs IH]; intros d Hd; simpl; auto.
Qed.

Lemma fb_fill_rect_sized x y w h c d :
  buffers_sized d -> buffers_sized (fb_fill_rect x y w h c d).
Proof.
  intros Hd. unfold fb_fill_rect.
  apply foldl_sized; [|exact Hd]. intros d' j Hd'.
  apply foldl_sized; [|exact Hd']. intros d'' i Hd''.
  apply fb_pixel_sized, Hd''.
Qed.

Lemma fb_fill_sized c d : buffers_sized d -> buffers_sized (fb_fill c d).
Proof.
  intros Hd. apply buffers_sized_set_buffer; [|exact Hd]. apply length_fmap.
Qed.

Lemma fb_line_sized `{LineRaster} x1 y1 x2 y2 c d :
  buffers_sized d -> buffers_sized (fb_line x1 y1 x2 y2 c d).
Proof.
  intros Hd. unfold fb_line. apply foldl_sized; [|exact Hd].
  intros d' p Hd'. apply fb_pixel_sized, Hd'.
Qed.

Lemma bytearray_get_same i b : (bytearray_get i b).1 = b.
Proof.
  unfold bytearray_get. destruct (norm_index _ _); [|reflexivity].
  destruct (b !! _); reflexivity.
Qed.

Lemma bytearray_set_length i v b : length (bytearray_set i v b).1 = length b.
Proof.
  unfold bytearray_set. destruct (_ && _); [|reflexivity].
  destruct (norm_index _ _); [|reflexivity]. simpl. apply length_insert.
Qed.

Lemma on_physical_sized {A} (m : M (list Z) A) :
  (forall b, length (m b).1 = length b) ->
  preserves buffers_sized (on_physical m).
Proof.
  intros Hm d Hd. unfold on_physical.
  destruct (physical_buffer d) as [pb|] eqn:Hpb; [|exact Hd].
  specialize (Hm pb). destruct (m pb) as [pb' r]; simpl in *.
  eapply buffers_sized_set_physical; eauto.
Qed.

Lemma buffer_get_sized i : preserves buffers_sized (buffer_get i).
Proof.
  intros d Hd. unfold buffer_get, zoom.
  pose proof (bytearray_get_same i (buffer d)) as Hb.
  destruct (bytearray_get i (buffer d)) as [b' r]; simpl in *. subst b'.
  apply buffers_sized_set_buffer; auto.
Qed.

Lemma rotate_buffer_sized : preserves buffers_sized _rotate_buffer.
Proof.
  unfold _rotate_buffer.
  apply preserves_bind; [apply on_physical_sized; reflexivity|]. intros n.
  apply preserves_bind.
  { apply preserves_for. intros i. apply on_physical_sized.
    intros b. apply bytearray_set_length. }
  intros _. apply preserves_for. intros src_page.
  apply preserves_for. intros src_col.
  apply preserves_bind; [apply buffer_get_sized|]. intros src_byte.
  apply preserves_if; [apply preserves_ret|].
  apply preserves_for. intros bit.
  apply preserves_if; [apply preserves_ret|].
  apply preserves_bind.
  - apply on_physical_sized. intros b. f_equal. apply bytearray_get_same.
  - intros old. apply on_physical_sized. intros b. apply bytearray_set_length.
Qed.

(** ** The shapes keep whatever the primitives keep *)

Section ShapesPreserve.
Context {S : Type} `{Surface S} {F : Type} `{PyFloat F} (P : S -> Prop).
Hypothesis pixel_keeps : forall x y c s, P s -> P (pixel x y c s).
Hypothesis hline_keeps : forall x y w c s, P s -> P (hline x y w c s).
Hypothesis line_keeps : forall x1 y1 x2 y2 c s, P s -> P (line x1 y1 x2 y2 c s).

Ltac keep :=
  repeat first
    [ apply preserves_ret | apply preserves_raise
    | apply preserves_modify; solve [auto]
    | apply preserves_if
    | apply preserves_bind; [|intros ?] ].

Lemma circle_preserves x0 y0 r c f : preserves P (circle x0 y0 r c f).
Proof.
  unfold circle. destruct f.
  - apply preserves_bind; [|intros ?; apply preserves_ret].
    apply preserves_while. intros [[x y] err]. unfold circle_fill_body. keep.
  - apply preserves_bind; [|intros ?; apply preserves_ret].
    apply preserves_while. intros [[x y] err]. unfold circle_outline_body. keep.
Qed.

Lemma ellipse_points_preserves x0 y0 c x y :
  preserves P (ellipse_points x0 y0 c x y).
Proof. unfold ellipse_points. keep. Qed.

Lemma ellipse_preserves x0 y0 a b c f : preserves P (ellipse x0 y0 a b c f).
Proof.
  unfold ellipse. destruct f.
  - apply preserves_for. intros y.
    destruct (b * b =? 0); [apply preserves_raise|].
    apply preserves_bind; [|intros x; keep].
    unfold int_. destruct (int_of_float _); [apply preserves_ret | apply preserves_raise].
  - apply preserves_bind.
    + apply preserves_while. intros [[[[x y] d] dx] dy].
      apply preserves_bind; [apply ellipse_points_preserves|]. intros _. keep.
    + intros [[[[x y] d] dx] dy].
      apply preserves_bind; [|intros ?; apply preserves_ret].
      apply preserves_while. intros [[[[x' y'] d'] dx'] dy'].
      apply preserves_bind; [apply ellipse_points_preserves|]. intros _. keep.
Qed.

Lemma triangle_preserves x0 y0 x1 y1 x2 y2 c f :
  preserves P (triangle x0 y0 x1 y1 x2 y2 c f).
Proof.
  unfold triangle. destruct f.
  - destruct (swap_if_above (x0, y0) (x1, y1)) as [p0 p1].
    destruct (swap_if_above p1 (x2, y2)) as [p1' p2].
    destruct (swap_if_above p0 p1') as [[x0' y0'] [x1' y1']].
    destruct p2 as [x2' y2'].
    apply preserves_for. intros y.
    destruct (if y <=? y1' then _ else _) as [xa xb].
    destruct (if xa >? xb then _ else _) as [xa' xb']. keep.
  - keep.
Qed.

End ShapesPreserve.

(** ** The protocol engine keeps the buffers' sizes *)

Lemma on_drv_sized {A} (m : M SH1107 A) :
  preserves buffers_sized m -> preserves world_sized (on_drv m).
Proof.
  intros Hm. unfold on_drv.
  apply (preserves_zoom world_sized buffers_sized); auto.
Qed.

Lemma on_bus_sized {A} (m : M Bus A) : preserves world_sized (on_bus m).
Proof.
  intros w Hw. unfold on_bus, zoom. destruct (m (i2c w)) as [b r]. exact Hw.
Qed.

Lemma bytes_preserves {S} (P : S -> Prop) xs : preserves P (bytes xs).
Proof.
  unfold bytes. apply preserves_if; [apply preserves_ret | apply preserves_raise].
Qed.

Lemma write_cmd_sized cmd : preserves world_sized (write_cmd cmd).
Proof.
  unfold write_cmd.
  apply preserves_bind; [apply preserves_gets|]. intros a.
  apply preserves_bind; [apply bytes_preserves|]. intros msg.
  apply on_bus_sized.
Qed.

Lemma write_data_sized data : preserves world_sized (write_data data).
Proof.
  unfold write_data. apply preserves_for. intros i.
  apply preserves_bind; [apply preserves_gets|]. intros a.
  apply preserves_bind; [apply bytes_preserves|]. intros ctl.
  apply preserves_bind; [apply on_bus_sized|]. intros _. apply on_bus_sized.
Qed.

Lemma send_page_sized r page : preserves world_sized (send_page r page).
Proof.
  unfold send_page.
  repeat (apply preserves_bind; [apply write_cmd_sized|]; intros _).
  apply preserves_bind; [|intros data; apply write_data_sized].
  destruct r; simpl.
  - apply on_drv_sized, on_physical_sized. reflexivity.
  - apply preserves_gets.
Qed.

Lemma show_sized : preserves world_sized show.
Proof.
  unfold show.
  apply preserves_bind; [apply preserves_gets|]. intros rot.
  apply preserves_bind.
  { apply preserves_if; [|apply preserves_ret].
    apply preserves_bind; [|intros _; apply preserves_ret].
    apply on_drv_sized, rotate_buffer_sized. }
  intros r. apply preserves_for. intros page. apply preserves_try.
  - apply preserves_bind; [apply send_page_sized|]. intros _. apply on_bus_sized.
  - apply preserves_bind; [apply on_bus_sized|]. intros _. apply send_page_sized.
Qed.

Lemma init_display_sized : preserves world_sized init_display.
Proof.
  unfold init_display.
  apply preserves_bind; [apply preserves_for; intros c; apply write_cmd_sized|].
  intros _. apply preserves_bind; [|intros _; apply show_sized].
  apply on_drv_sized, preserves_modify. intros d. apply fb_fill_sized.
Qed.

Lemma SH1107_init_sized b a rot ext_vcc :
  world_sized (SH1107_init b a rot ext_vcc).1.
Proof.
  unfold SH1107_init. apply init_display_sized.
  unfold world_sized, buffers_sized. simpl.
  destruct rot; simpl; repeat split; try reflexivity; try (intros; eauto; fail).
  - intros pb [= <-]. reflexivity.
  - intros [pb Hpb]. discriminate.
  - discriminate.
  - discriminate.
Qed.

Lemma run_op_sized `{LineRaster} {F} `{PyFloat F} op :
  preserves world_sized (run_op op).
Proof.
  destruct op; simpl.
  - apply on_drv_sized, preserves_modify. intros d. apply fb_fill_sized.
  - apply on_drv_sized, preserves_modify. intros d. apply fb_pixel_sized.
  - apply on_drv_sized, preserves_modify. intros d. apply fb_fill_rect_sized.
  - apply on_drv_sized, preserves_modify. intros d. apply fb_fill_rect_sized.
  - apply on_drv_sized, preserves_modify. intros d. apply fb_fill_rect_sized.
  - apply on_drv_sized, circle_preserves; simpl; intros.
    + now apply fb_pixel_sized.
    + now apply fb_fill_rect_sized.
  - apply on_drv_sized, ellipse_preserves; simpl; intros.
    + now apply fb_pixel_sized.
    + now apply fb_fill_rect_sized.
  - apply on_drv_sized, triangle_preserves; simpl; intros.
    + now apply fb_fill_rect_sized.
    + now apply fb_line_sized.
  - apply show_sized.
  - apply preserves_bind; [apply write_cmd_sized|]. intros _. apply write_cmd_sized.
  - apply preserves_bind; [apply write_cmd_sized|]. intros _. apply on_bus_sized.
  - apply write_cmd_sized.
  - apply write_cmd_sized.
Qed.

(** C9. In every state a driver instance can reach (after construction and
    after any sequence of public operations, returning or raising), the
    logical buffer has [width * height / 8] bytes, which is 1024 in both
    orientations, and the physical buffer exists exactly for a landscape
    ([rotate]) instance and then has exactly 1024 bytes. *)
Theorem buffer_lengths_invariant `{LineRaster} {F} `{PyFloat F} (w : World) :
  reachable w ->
  Z.of_nat (length (buffer (drv w))) = width (drv w) * height (drv w) / 8 /\
  length (buffer (drv w)) = 1024%nat /\
  (is_Some (physical_buffer (drv w)) <-> rotate (drv w) = true) /\
  (forall pb, physical_buffer (drv w) = Some pb -> length pb = 1024%nat).
Proof.
  intros Hw. change (world_sized w).
  induction Hw as [b a rot ext_vcc | w op Hw IH].
  - apply SH1107_init_sized.
  - apply run_op_sized, IH.
Qed.

(** ** Total correctness of loops *)

(** A [while] loop whose body keeps an invariant [I] and, whenever the
    condition holds, returns with a strictly smaller positive [variant],
    returns within [variant] passes, with the invariant and the negated
    condition. *)
Lemma while_total {S L} (I : L -> S -> Prop) (variant : L -> Z)
    (cond : L -> bool) (body : L -> M S L) :
  (forall l s, I l s -> cond l = true ->
     0 < variant l /\
     exists s' l', body l s = (s', Ok l') /\ I l' s' /\ variant l' < variant l) ->
  forall fuel l s,
    I l s -> (Z.to_nat (variant l) <= fuel)%nat ->
    exists s' l', while_ fuel cond body l s = (s', Ok l') /\ I l' s' /\ cond l' = false.
Proof.
  intros Hbody fuel. induction fuel as [|fuel IH]; intros l s HI Hfuel.
  - simpl. destruct (cond l) eqn:Hc.
    + destruct (Hbody l s HI Hc) as [Hpos _]. lia.
    + exists s, l. auto.
  - simpl. destruct (cond l) eqn:Hc.
    + destruct (Hbody l s HI Hc) as (Hpos & s1 & l1 & Hrun & HI1 & Hdec).
      unfold bind. rewrite Hrun. apply IH; [exact HI1 | lia].
    + exists s, l. auto.
Qed.

(** A [for] loop over [range n] whose body keeps an invariant indexed by
    the number of completed passes. *)
Lemma for_range_total {S} (I : Z -> S -> Prop) (body : Z -> M S unit) n :
  (forall i s, 0 <= i < n -> I i s ->
     exists s', body i s = (s', Ok tt) /\ I (i + 1) s') ->
  forall s, I 0 s -> 0 <= n ->
  exists s', for_ (range n) body s = (s', Ok tt) /\ I n s'.
Proof.
  intros Hbody.
  assert (Hgen : forall (k : nat) i s, 0 <= i -> i + Z.of_nat k = n -> I i s ->
            exists s', for_ (seqZ i (Z.of_nat k)) body s = (s', Ok tt) /\ I n s').
  { induction k as [|k IH]; intros i s Hi Hk HI.
    - simpl. replace n with i by lia. exists s. auto.
    - rewrite seqZ_cons by lia. simpl.
      destruct (Hbody i s ltac:(lia) HI) as (s1 & Hrun & HI1).
      unfold bind. rewrite Hrun.
      replace (Z.pred (Z.of_nat (Datatypes.S k))) with (Z.of_nat k) by lia.
      apply IH; [lia | lia | exact HI1]. }
  intros s HI Hn. unfold range.
  destruct (Hgen (Z.to_nat n) 0 s ltac:(lia) ltac:(lia) HI) as (s' & Hrun & HI').
  rewrite Z2Nat.id in Hrun by lia. eauto.
Qed.

(** ** The outline circle terminates *)

Lemma circle_outline_next_decreases x y err :
  let '(x', y', _) := circle_outline_next (x, y, err) in x' - y' < x - y.
Proof.
  unfold circle_outline_next.
  destruct (err <=? 0) eqn:He.
  - destruct (err + (2 * (y + 1) + 1) >? 0); lia.
  - destruct (err >? 0) eqn:He'; lia.
Qed.

Lemma circle_outline_loop_total {S} `{Surface S} x0 y0 c fuel l s :
  (Z.to_nat (l.1.1 - l.1.2 + 1) <= fuel)%nat ->
  exists s' l',
    while_ fuel (fun '(x, y, err) => x >=? y) (circle_outline_body x0 y0 c) l s
    = (s', Ok l').
Proof.
  intros Hfuel.
  destruct (while_total (fun _ _ => True) (fun l => l.1.1 - l.1.2 + 1)
              (fun '(x, y, err) => x >=? y) (circle_outline_body x0 y0 c))
    with (fuel := fuel) (l := l) (s := s) as (s' & l' & Hrun & _); eauto.
  clear. intros [[x y] err] s _ Hc. split; [simpl; lia|].
  pose proof (circle_outline_next_decreases x y err) as Hd.
  eexists _, (circle_outline_next (x, y, err)).
  split; [reflexivity|]. split; [exact I|].
  destruct (circle_outline_next (x, y, err)) as [[x' y'] err']. simpl. lia.
Qed.

(** C10. The outline-circle loop terminates for every integer radius: a
    pass strictly decreases [x - y], and [circle] with [f = False] returns
    normally on every surface, from every state, for all arguments. *)
Theorem circle_outline_terminates :
  (forall x y err : Z,
     let '(x', y', _) := circle_outline_next (x, y, err) in x' - y' < x - y) /\
  (forall (S : Type) (HS : Surface S) (x0 y0 r c : Z) (s : S),
     exists s', circle x0 y0 r c false s = (s', Ok tt)).
Proof.
  split; [exact circle_outline_next_decreases|].
  intros S HS x0 y0 r c s. unfold circle.
  destruct (circle_outline_loop_total x0 y0 c (Z.to_nat (r + 1)) (r, 0, 0) s)
    as (s' & l' & Hrun).
  { simpl. lia. }
  exists s'. unfold bind. rewrite Hrun. reflexivity.
Qed.

(** ** The filled circle contains the outline *)


Lemma circle_fill_state_S r n :
  circle_fill_state r (Datatypes.S n) = circle_fill_next (circle_fill_state r n).
Proof. reflexivity. Qed.

(** Closed form of the error term, and the bounds on the half-width. *)
Lemma circle_fill_state_inv r n :
  let '(x, y, err) := circle_fill_state r n in
  y = Z.of_nat n /\
  err = (x - 1) * (x - 1) + y * y - (r - 1) * (r - 1) /\
  (x = r \/ x * x - x + y * y >= (r - 1) * (r - 1) + 2) /\
  r - y <= x <= r.
Proof.
  induction n as [|n IH].
  - simpl. repeat split; try lia.
  - rewrite circle_fill_state_S.
    destruct (circle_fill_state r n) as [[x y] err].
    destruct IH as (Hy & Herr & Hx & Hb). unfold circle_fill_next.
    destruct (2 * (err + (1 + 2 * y)) >? 2 * x + 1) eqn:Hc.
    + apply Z.gtb_lt in Hc. split; [lia|]. split; [lia|]. split; [right; nia | lia].
    + split; [lia|]. split; [lia|]. split; [|lia].
      destruct Hx as [Hx|Hx]; [left; exact Hx | right; nia].
Qed.

(** The half-width shrinks by at most one per row. *)
Lemma fill_x_step r n : fill_x r n - 1 <= fill_x r (Datatypes.S n) <= fill_x r n.
Proof.
  unfold fill_x. rewrite circle_fill_state_S.
  destruct (circle_fill_state r n) as [[x y] err]. unfold circle_fill_next.
  destruct (_ >? _); simpl; lia.
Qed.

Lemma fill_x_slope r m n :
  (m <= n)%nat -> fill_x r m + Z.of_nat m <= fill_x r n + Z.of_nat n.
Proof.
  induction 1 as [|n Hle IH]; [lia|].
  pose proof (fill_x_step r n). lia.
Qed.

(** A first-octant outline point lies inside the span of its own row... *)
Lemma fill_x_covers_row r a b :
  0 <= b <= a -> a <= r -> a * a + (b + 1) * (b + 1) <= r * r + 1 ->
  a <= fill_x r (Z.to_nat b).
Proof.
  intros Hb Ha Hin.
  pose proof (circle_fill_state_inv r (Z.to_nat b)) as Hinv.
  unfold fill_x. destruct (circle_fill_state r (Z.to_nat b)) as [[x y] err].
  destruct Hinv as (Hy & _ & Hx & Hlo). simpl.
  rewrite Z2Nat.id in Hy by lia. subst y.
  destruct Hx as [Hx|Hx]; [lia|].
  destruct (Z_le_gt_dec a x) as [Hle|Hgt]; [exact Hle|]. exfalso.
  assert (Hsq : (x + 1) * (x + 1) <= a * a) by nia.
  nia.
Qed.

(** ... and its mirror image across the diagonal inside the span of the
    mirrored row. *)
Lemma fill_x_covers_mirror r a b :
  0 <= b <= a -> a <= r -> a * a + (b + 1) * (b + 1) <= r * r + 1 ->
  b <= fill_x r (Z.to_nat a).
Proof.
  intros Hb Ha Hin.
  pose proof (fill_x_covers_row r a b Hb Ha Hin) as Hrow.
  pose proof (fill_x_slope r (Z.to_nat b) (Z.to_nat a) ltac:(lia)) as Hs.
  rewrite !Z2Nat.id in Hs by lia. lia.
Qed.

Lemma plotted_app log1 log2 px py :
  plotted (log1 ++ log2) px py = plotted log1 px py || plotted log2 px py.
Proof. unfold plotted. apply existsb_app. Qed.

Lemma hline_covers x0 y x c px :
  x0 - x <= px <= x0 + x ->
  call_covers px y (HLine (x0 - x) y (2 * x + 1) c) = true.
Proof.
  intros Hpx. simpl. rewrite Z.eqb_refl.
  replace (x0 - x <=? px) with true by (symmetry; apply Z.leb_le; lia).
  replace (px <? x0 - x + (2 * x + 1)) with true by (symmetry; apply Z.ltb_lt; lia).
  reflexivity.
Qed.

(** What one pass of the filled circle appends to the drawing log. *)
Lemma circle_fill_body_log x0 y0 c x y err (s : list draw_call) :
  circle_fill_body x0 y0 c (x, y, err) s =
  (s ++ HLine (x0 - x) (y0 + y) (2 * x + 1) c
      :: (if y =? 0 then [] else [HLine (x0 - x) (y0 - y) (2 * x + 1) c]),
   Ok (circle_fill_next (x, y, err))).
Proof.
  unfold circle_fill_body, bind, modify, ret. simpl.
  destruct (y =? 0); simpl; [reflexivity|].
  now rewrite <- app_assoc.
Qed.

(** What the filled circle records: a span of half-width [fill_x r n] on
    both rows at distance [n] of the centre, for every [n <= r]. *)
Lemma circle_fill_log x0 y0 r c (s : list draw_call) :
  0 <= r ->
  exists s',
    circle x0 y0 r c true s = (s', Ok tt) /\
    forall n px,
      Z.of_nat n <= r ->
      x0 - fill_x r n <= px <= x0 + fill_x r n ->
      plotted s' px (y0 + Z.of_nat n) = true /\
      plotted s' px (y0 - Z.of_nat n) = true.
Proof.
  intros Hr. unfold circle.
  set (I := fun (l : Z * Z * Z) (s' : list draw_call) =>
    exists n, l = circle_fill_state r n /\ Z.of_nat n <= r + 1 /\
      forall m px, (m < n)%nat ->
        x0 - fill_x r m <= px <= x0 + fill_x r m ->
        plotted s' px (y0 + Z.of_nat m) = true /\
        plotted s' px (y0 - Z.of_nat m) = true).
  destruct (while_total I (fun l => r - l.1.2 + 1)
              (fun '(x, y, err) => y <=? r) (circle_fill_body x0 y0 c))
    with (fuel := Z.to_nat (r + 1)) (l := (r, 0, 0)) (s := s)
    as (s' & l' & Hrun & (n & Hl & Hn & Hcov) & Hexit).
  - intros l s1 (n & Hl & Hn & Hcov) Hc.
    pose proof (circle_fill_state_inv r n) as Hinv.
    assert (Hfx : fill_x r n = l.1.1) by (unfold fill_x; now rewrite Hl).
    rewrite <- Hl in Hinv. destruct l as [[x y] err].
    destruct Hinv as (Hy & _ & _ & _). simpl in Hfx.
    apply Z.leb_le in Hc. split; [simpl; lia|].
    eexists _, _. split; [apply circle_fill_body_log|]. split.
    + exists (Datatypes.S n). split; [now rewrite circle_fill_state_S, Hl|].
      split; [lia|]. intros m px Hm Hpx. rewrite !plotted_app.
      destruct (Nat.eq_dec m n) as [->|Hne].
      * rewrite Hfx in Hpx.
        pose proof (hline_covers x0 (y0 + y) x c px Hpx) as Hup.
        pose proof (hline_covers x0 (y0 - y) x c px Hpx) as Hdown.
        replace (y0 + Z.of_nat n) with (y0 + y) by lia.
        replace (y0 - Z.of_nat n) with (y0 - y) by lia.
        destruct (y =? 0) eqn:Hy0.
        -- apply Z.eqb_eq in Hy0. replace (y0 - y) with (y0 + y) by lia.
           unfold plotted at 2 4. cbn [existsb]. rewrite Hup.
           rewrite orb_true_r. auto.
        -- unfold plotted at 2 4. cbn [existsb]. rewrite Hup, Hdown.
           rewrite !orb_true_r. auto.
      * destruct (Hcov m px ltac:(lia) Hpx) as [H1 H2]. rewrite H1, H2. auto.
    + destruct (circle_fill_next (x, y, err)) as [[x' y'] err'] eqn:Hnext.
      unfold circle_fill_next in Hnext.
      destruct (_ >? _) in Hnext; injection Hnext as <- <- <-; simpl; lia.
  - exists 0%nat. split; [reflexivity|]. split; [lia|]. intros m px Hm. lia.
  - simpl. lia.
  - exists s'. unfold bind. rewrite Hrun. split; [reflexivity|].
    intros m px Hm Hpx. apply Hcov; [|exact Hpx].
    pose proof (circle_fill_state_inv r n) as Hinv. rewrite <- Hl in Hinv.
    destruct l' as [[x y] err]. destruct Hinv as (Hy & _).
    apply Z.leb_gt in Hexit. lia.
Qed.

(** What one pass of the outline circle appends to the drawing log. *)
Lemma circle_outline_body_log x0 y0 c x y err (s : list draw_call) :
  circle_outline_body x0 y0 c (x, y, err) s =
  (s ++ [Pixel (x0 + x) (y0 + y) c; Pixel (x0 + y) (y0 + x) c;
         Pixel (x0 - y) (y0 + x) c; Pixel (x0 - x) (y0 + y) c;
         Pixel (x0 - x) (y0 - y) c; Pixel (x0 - y) (y0 - x) c;
         Pixel (x0 + y) (y0 - x) c; Pixel (x0 + x) (y0 - y) c],
   Ok (circle_outline_next (x, y, err))).
Proof.
  unfold circle_outline_body, bind, modify, ret. cbn [pixel Log_Surface].
  now rewrite <- !app_assoc.
Qed.

(** Every pixel the outline circle records is a reflection of a
    first-octant point on or just inside the circle. *)
Lemma circle_outline_log x0 y0 r c :
  exists s',
    circle x0 y0 r c false ([] : list draw_call) = (s', Ok tt) /\
    forall px py, plotted s' px py = true -> on_outline x0 y0 r px py.
Proof.
  unfold circle.
  set (I := fun (l : Z * Z * Z) (s' : list draw_call) =>
    let '(x, y, err) := l in
    err = x * x + (y + 1) * (y + 1) - r * r - 1 /\
    (err <= 0 \/ x < y) /\ 0 <= y /\ x <= r /\
    forall px py, plotted s' px py = true -> on_outline x0 y0 r px py).
  destruct (while_total I (fun l => l.1.1 - l.1.2 + 1)
              (fun '(x, y, err) => x >=? y) (circle_outline_body x0 y0 c))
    with (fuel := Z.to_nat (r + 1)) (l := (r, 0, 0)) (s := ([] : list draw_call))
    as (s' & l' & Hrun & HI & _).
  - intros [[x y] err] s (Herr & Hneg & Hy & Hx & Hlog) Hc.
    apply Z.geb_le in Hc. split; [simpl; lia|].
    eexists _, _. split; [apply circle_outline_body_log|].
    assert (He : err <= 0) by lia. split.
    + unfold I, circle_outline_next.
      replace (err <=? 0) with true by (symmetry; apply Z.leb_le; lia).
      destruct (err + (2 * (y + 1) + 1) >? 0) eqn:Hc2.
      * apply Z.gtb_lt in Hc2.
        split; [lia|]. split; [lia|]. split; [lia|]. split; [lia|].
        intros px py. rewrite plotted_app, orb_true_iff.
        intros [Hold|Hnew]; [now apply Hlog|].
        exists x, y. split; [lia|]. split; [lia|]. split; [lia|].
        unfold plotted in Hnew. cbn [existsb call_covers] in Hnew.
        rewrite !orb_true_iff, !andb_true_iff, !Z.eqb_eq in Hnew. lia.
      * assert (~ 0 < err + (2 * (y + 1) + 1)) by (rewrite <- Z.gtb_lt; congruence).
        split; [lia|]. split; [lia|]. split; [lia|]. split; [lia|].
        intros px py. rewrite plotted_app, orb_true_iff.
        intros [Hold|Hnew]; [now apply Hlog|].
        exists x, y. split; [lia|]. split; [lia|]. split; [lia|].
        unfold plotted in Hnew. cbn [existsb call_covers] in Hnew.
        rewrite !orb_true_iff, !andb_true_iff, !Z.eqb_eq in Hnew. lia.
    + pose proof (circle_outline_next_decreases x y err) as Hd.
      destruct (circle_outline_next (x, y, err)) as [[x' y'] err']. simpl. lia.
  - unfold I. split; [lia|]. split; [lia|]. split; [lia|]. split; [lia|].
    intros px py Hp. discriminate Hp.
  - simpl. lia.
  - exists s'. unfold bind. rewrite Hrun. split; [reflexivity|].
    destruct l' as [[x y] err]. apply HI.
Qed.

(** C5. For every centre and radius, every pixel the outline-circle
    algorithm plots is among the pixels the filled-circle algorithm plots
    for the same centre and radius (for a negative radius neither plots
    anything). *)
Theorem circle_outline_within_fill (x0 y0 r c px py : Z) :
  plotted (circle x0 y0 r c false ([] : list draw_call)).1 px py = true ->
  plotted (circle x0 y0 r c true ([] : list draw_call)).1 px py = true.
Proof.
  destruct (circle_outline_log x0 y0 r c) as (so & Hso & Hout).
  rewrite Hso. cbn [fst]. intros Hp.
  destruct (Hout px py Hp) as (a & b & Hb & Ha & Hin & Hpt).
  destruct (circle_fill_log x0 y0 r c [] ltac:(lia)) as (sf & Hsf & Hcov).
  rewrite Hsf. cbn [fst].
  pose proof (fill_x_covers_row r a b Hb Ha Hin) as Hrow.
  pose proof (fill_x_covers_mirror r a b Hb Ha Hin) as Hmir.
  destruct Hpt as [[Hpx Hpy]|[Hpx Hpy]].
  - destruct (Hcov (Z.to_nat b) px ltac:(lia) ltac:(lia)) as [Hup Hdown].
    rewrite Z2Nat.id in Hup, Hdown by lia.
    destruct Hpy as [->| ->]; assumption.
  - destruct (Hcov (Z.to_nat a) px ltac:(lia) ltac:(lia)) as [Hup Hdown].
    rewrite Z2Nat.id in Hup, Hdown by lia.
    destruct Hpy as [->| ->]; assumption.
Qed.

(** ** The rotation *)

Lemma testbit_byte_high v n : 0 <= v < 256 -> 8 <= n -> Z.testbit v n = false.
Proof.
  intros Hv Hn. destruct (Z.eq_dec v 0) as [->|Hne]; [apply Z.bits_0|].
  apply Z.bits_above_log2; [lia|].
  assert (Z.log2 v < 8) by (apply Z.log2_lt_pow2; lia). lia.
Qed.

Lemma byte_of_low_bits v :
  0 <= v -> (forall n, 8 <= n -> Z.testbit v n = false) -> v < 256.
Proof.
  intros Hv Hhigh.
  assert (Heq : v = v mod 2 ^ 8).
  { apply Z.bits_inj'. intros n Hn.
    destruct (Z_lt_le_dec n 8) as [Hlt|Hge].
    - now rewrite Z.mod_pow2_bits_low.
    - rewrite Z.mod_pow2_bits_high by lia. now apply Hhigh. }
  rewrite Heq. change 256 with (2 ^ 8). apply Z.mod_pos_bound. lia.
Qed.

Lemma testbit_lor_shiftl v j k :
  0 <= j -> Z.testbit (Z.lor v (Z.shiftl 1 j)) k = Z.testbit v k || (j =? k).
Proof.
  intros Hj. rewrite Z.lor_spec, Z.shiftl_1_l, Z.pow2_bits_eqb by lia. reflexivity.
Qed.

Lemma byte_lor_shiftl v j :
  0 <= v < 256 -> 0 <= j < 8 -> 0 <= Z.lor v (Z.shiftl 1 j) < 256.
Proof.
  intros Hv Hj.
  assert (0 <= Z.lor v (Z.shiftl 1 j)).
  { apply Z.lor_nonneg. split; [lia|]. rewrite Z.shiftl_1_l. apply Z.pow_nonneg. lia. }
  split; [assumption|]. apply byte_of_low_bits; [assumption|].
  intros n Hn. rewrite testbit_lor_shiftl by lia.
  rewrite testbit_byte_high by lia.
  replace (j =? n) with false by (symmetry; apply Z.eqb_neq; lia). reflexivity.
Qed.

Lemma land_shiftl_eqb v b :
  0 <= b -> (Z.land v (Z.shiftl 1 b) =? 0) = negb (Z.testbit v b).
Proof.
  intros Hb. destruct (Z.testbit v b) eqn:Hbit; simpl.
  - apply Z.eqb_neq. intros H0.
    assert (Hx : Z.testbit (Z.land v (Z.shiftl 1 b)) b = true).
    { rewrite Z.land_spec, Hbit, Z.shiftl_1_l, Z.pow2_bits_eqb, Z.eqb_refl by lia.
      reflexivity. }
    rewrite H0, Z.bits_0 in Hx. discriminate.
  - apply Z.eqb_eq. apply Z.bits_inj'. intros n Hn.
    rewrite Z.land_spec, Z.shiftl_1_l, Z.pow2_bits_eqb, Z.bits_0 by lia.
    destruct (Z.eqb_spec b n) as [<-|Hne]; [now rewrite Hbit|].
    apply andb_false_r.
Qed.

Lemma dst_index_range p c b :
  0 <= p < 8 -> 0 <= c < 128 -> 0 <= b < 8 ->
  0 <= dst_index p c b < 1024 /\ 0 <= dst_bit c < 8.
Proof.
  intros Hp Hc Hb. unfold dst_index, dst_bit.
  Z.div_mod_to_equations. lia.
Qed.

Lemma dst_injective p c b p' c' b' :
  0 <= p < 8 -> 0 <= c < 128 -> 0 <= b < 8 ->
  0 <= p' < 8 -> 0 <= c' < 128 -> 0 <= b' < 8 ->
  dst_index p c b = dst_index p' c' b' -> dst_bit c = dst_bit c' ->
  p = p' /\ c = c' /\ b = b'.
Proof.
  unfold dst_index, dst_bit. intros Hp Hc Hb Hp' Hc' Hb'.
  Z.div_mod_to_equations. lia.
Qed.

Lemma norm_index_in_range len i :
  0 <= i < Z.of_nat len -> norm_index len i = Some (Z.to_nat i).
Proof.
  intros Hi. unfold norm_index.
  replace (i <? 0) with false by (symmetry; apply Z.ltb_ge; lia).
  replace (0 <=? i) with true by (symmetry; apply Z.leb_le; lia).
  replace (i <? Z.of_nat len) with true by (symmetry; apply Z.ltb_lt; lia).
  reflexivity.
Qed.

Lemma bytearray_get_ok i b :
  0 <= i < Z.of_nat (length b) -> bytearray_get i b = (b, Ok (b !!! Z.to_nat i)).
Proof.
  intros Hi. unfold bytearray_get. rewrite norm_index_in_range by exact Hi.
  rewrite list_lookup_lookup_total_lt by lia. reflexivity.
Qed.

Lemma bytearray_set_ok i v b :
  0 <= i < Z.of_nat (length b) -> 0 <= v < 256 ->
  bytearray_set i v b = (<[Z.to_nat i := v]> b, Ok tt).
Proof.
  intros Hi Hv. unfold bytearray_set. rewrite norm_index_in_range by exact Hi.
  replace (0 <=? v) with true by (symmetry; apply Z.leb_le; lia).
  replace (v <? 256) with true by (symmetry; apply Z.ltb_lt; lia).
  reflexivity.
Qed.

Lemma visited_next_bit P C B p c b :
  visited P C (B + 1) p c b <-> visited P C B p c b \/ (p = P /\ c = C /\ b = B).
Proof. unfold visited. lia. Qed.

(** The effect of the innermost statement on the physical buffer. *)
Lemma rotate_bit_pure buf P C B pb :
  0 <= P < 8 -> 0 <= C < 128 -> 0 <= B < 8 ->
  rotated_so_far buf P C B pb ->
  rotated_so_far buf P C (B + 1)
    (if bit_of buf (P * 128 + C) B then
       <[Z.to_nat (dst_index P C B) :=
           Z.lor (pb !!! Z.to_nat (dst_index P C B)) (Z.shiftl 1 (dst_bit C))]> pb
     else pb).
Proof.
  intros HP HC HB (Hlen & Hbytes & Hbits).
  destruct (dst_index_range P C B HP HC HB) as [Hidx Hdbit].
  destruct (bit_of buf (P * 128 + C) B) eqn:Hsrc.
  - split; [now rewrite length_insert|]. split.
    + intros i Hi. destruct (Z.eq_dec i (dst_index P C B)) as [->|Hne].
      * rewrite list_lookup_total_insert_eq by lia.
        apply byte_lor_shiftl; [apply Hbytes; lia | lia].
      * rewrite list_lookup_total_insert_ne by lia. now apply Hbytes.
    + intros i k Hi Hk. unfold bit_of.
      destruct (Z.eq_dec i (dst_index P C B)) as [->|Hne].
      * rewrite list_lookup_total_insert_eq by lia.
        rewrite testbit_lor_shiftl, orb_true_iff by lia.
        fold (bit_of pb (dst_index P C B) k). rewrite Hbits by lia. split.
        -- intros [(p & c & b & Hp & Hc & Hb & Hv & Hs & Hi' & Hk')|Hnew].
           ++ exists p, c, b. rewrite visited_next_bit. auto 10.
           ++ apply Z.eqb_eq in Hnew. exists P, C, B.
              rewrite visited_next_bit. auto 10.
        -- intros (p & c & b & Hp & Hc & Hb & Hv & Hs & Hi' & Hk').
           apply visited_next_bit in Hv. destruct Hv as [Hv|(-> & -> & ->)].
           ++ left. exists p, c, b. auto 10.
           ++ right. apply Z.eqb_eq. now symmetry.
      * rewrite list_lookup_total_insert_ne by lia.
        fold (bit_of pb i k). rewrite Hbits by lia. split.
        -- intros (p & c & b & Hp & Hc & Hb & Hv & Hs & Hi' & Hk').
           exists p, c, b. rewrite visited_next_bit. auto 10.
        -- intros (p & c & b & Hp & Hc & Hb & Hv & Hs & Hi' & Hk').
           apply visited_next_bit in Hv. destruct Hv as [Hv|(-> & -> & ->)].
           ++ exists p, c, b. auto 10.
           ++ contradiction.
  - split; [exact Hlen|]. split; [exact Hbytes|].
    intros i k Hi Hk. rewrite Hbits by lia. split.
    + intros (p & c & b & Hp & Hc & Hb & Hv & Hs & Hi' & Hk').
      exists p, c, b. rewrite visited_next_bit. auto 10.
    + intros (p & c & b & Hp & Hc & Hb & Hv & Hs & Hi' & Hk').
      apply visited_next_bit in Hv. destruct Hv as [Hv|(-> & -> & ->)].
      * exists p, c, b. auto 10.
      * congruence.
Qed.

Lemma rotated_so_far_equiv buf P C B P' C' B' pb :
  (forall p c b, 0 <= p < 8 -> 0 <= c < 128 -> 0 <= b < 8 ->
     bit_of buf (p * 128 + c) b = true ->
     (visited P C B p c b <-> visited P' C' B' p c b)) ->
  rotated_so_far buf P C B pb -> rotated_so_far buf P' C' B' pb.
Proof.
  intros Heq (Hlen & Hbytes & Hbits).
  split; [exact Hlen|]. split; [exact Hbytes|].
  intros i k Hi Hk. rewrite Hbits by lia.
  split; intros (p & c & b & Hp & Hc & Hb & Hv & Hs & Hi' & Hk');
    exists p, c, b; (repeat split; try assumption; try lia);
    now apply (Heq p c b Hp Hc Hb Hs).
Qed.

Lemma on_physical_run {A} (m : M (list Z) A) pb d :
  on_physical m (set_physical_buffer pb d) =
  (let '(pb', r) := m pb in (set_physical_buffer pb' d, r)).
Proof. reflexivity. Qed.

Lemma buffer_get_run i pb d :
  0 <= i < Z.of_nat (length (buffer d)) ->
  buffer_get i (set_physical_buffer pb d) =
  (set_physical_buffer pb d, Ok (buffer d !!! Z.to_nat i)).
Proof.
  intros Hi. unfold buffer_get, zoom. cbn [buffer set_physical_buffer].
  rewrite bytearray_get_ok by exact Hi. reflexivity.
Qed.

Section RotateLoops.
Variable d : SH1107.
Hypothesis buffer_length : length (buffer d) = 1024%nat.

Lemma rotate_bit_run P C B pb :
  0 <= P < 8 -> 0 <= C < 128 -> 0 <= B < 8 ->
  rotated_so_far (buffer d) P C B pb ->
  exists pb',
    rotate_bit P C (buffer d !!! Z.to_nat (P * 128 + C)) B
      (set_physical_buffer pb d) = (set_physical_buffer pb' d, Ok tt) /\
    rotated_so_far (buffer d) P C (B + 1) pb'.
Proof.
  intros HP HC HB Hrot.
  pose proof (rotate_bit_pure (buffer d) P C B pb HP HC HB Hrot) as Hnext.
  destruct (dst_index_range P C B HP HC HB) as [Hidx Hdbit].
  destruct Hrot as (Hlen & Hbytes & _).
  unfold rotate_bit. rewrite land_shiftl_eqb by lia.
  fold (bit_of (buffer d) (P * 128 + C) B).
  destruct (bit_of (buffer d) (P * 128 + C) B); cbn [negb]; cbv iota zeta.
  - eexists. split; [|exact Hnext].
    fold (dst_index P C B). fold (dst_bit C).
    unfold bind. rewrite on_physical_run, bytearray_get_ok by lia.
    rewrite on_physical_run, bytearray_set_ok; [reflexivity | lia |].
    apply byte_lor_shiftl; [apply Hbytes; lia | lia].
  - exists pb. split; [reflexivity | exact Hnext].
Qed.

Lemma rotate_byte_run P C pb :
  0 <= P < 8 -> 0 <= C < 128 ->
  rotated_so_far (buffer d) P C 0 pb ->
  exists pb',
    rotate_byte P C (set_physical_buffer pb d) = (set_physical_buffer pb' d, Ok tt) /\
    rotated_so_far (buffer d) P (C + 1) 0 pb'.
Proof.
  intros HP HC Hrot. unfold rotate_byte, bind.
  rewrite buffer_get_run by lia.
  destruct (buffer d !!! Z.to_nat (P * 128 + C) =? 0) eqn:Hzero.
  - exists pb. split; [reflexivity|].
    apply Z.eqb_eq in Hzero.
    eapply rotated_so_far_equiv; [|exact Hrot].
    intros p c b Hp Hc Hb Hs. unfold visited. split; [lia|].
    intros Hv. destruct (Z.eq_dec p P) as [->|]; [|lia].
    destruct (Z.eq_dec c C) as [->|]; [|lia].
    unfold bit_of in Hs. rewrite Hzero, Z.bits_0 in Hs. discriminate.
  - destruct (for_range_total
                (fun i s => exists pbk, s = set_physical_buffer pbk d /\
                              rotated_so_far (buffer d) P C i pbk)
                (rotate_bit P C (buffer d !!! Z.to_nat (P * 128 + C))) 8)
      with (s := set_physical_buffer pb d) as (s' & Hrun & pb' & -> & Hrot').
    + intros i s Hi (pbk & -> & Hk).
      destruct (rotate_bit_run P C i pbk HP HC Hi Hk) as (pb1 & Hrun & H1).
      eauto.
    + eauto.
    + lia.
    + exists pb'. split; [exact Hrun|].
      eapply rotated_so_far_equiv; [|exact Hrot'].
      intros p c b Hp Hc Hb _. unfold visited. lia.
Qed.

Lemma rotate_page_run P pb :
  0 <= P < 8 ->
  rotated_so_far (buffer d) P 0 0 pb ->
  exists pb',
    for_ (range 128) (rotate_byte P) (set_physical_buffer pb d)
    = (set_physical_buffer pb' d, Ok tt) /\
    rotated_so_far (buffer d) (P + 1) 0 0 pb'.
Proof.
  intros HP Hrot.
  destruct (for_range_total
              (fun i s => exists pbk, s = set_physical_buffer pbk d /\
                            rotated_so_far (buffer d) P i 0 pbk)
              (rotate_byte P) 128)
    with (s := set_physical_buffer pb d) as (s' & Hrun & pb' & -> & Hrot').
  - intros i s Hi (pbk & -> & Hk).
    destruct (rotate_byte_run P i pbk HP Hi Hk) as (pb1 & Hrun & H1). eauto.
  - eauto.
  - lia.
  - exists pb'. split; [exact Hrun|].
    eapply rotated_so_far_equiv; [|exact Hrot'].
    intros p c b Hp Hc Hb _. unfold visited. lia.
Qed.

Lemma rotate_pages_run pb :
  rotated_so_far (buffer d) 0 0 0 pb ->
  exists pb',
    for_ (range 8) (fun src_page => for_ (range 128) (rotate_byte src_page))
      (set_physical_buffer pb d)
    = (set_physical_buffer pb' d, Ok tt) /\
    rotated_so_far (buffer d) 8 0 0 pb'.
Proof.
  intros Hrot.
  destruct (for_range_total
              (fun i s => exists pbk, s = set_physical_buffer pbk d /\
                            rotated_so_far (buffer d) i 0 0 pbk)
              (fun src_page => for_ (range 128) (rotate_byte src_page)) 8)
    with (s := set_physical_buffer pb d) as (s' & Hrun & pb' & -> & Hrot').
  - intros i s Hi (pbk & -> & Hk).
    destruct (rotate_page_run i pbk Hi Hk) as (pb1 & Hrun & H1). eauto.
  - eauto.
  - lia.
  - eauto.
Qed.

Lemma clear_physical_run pb :
  exists pb',
    for_ (range (Z.of_nat (length pb))) (fun i => on_physical (bytearray_set i 0))
      (set_physical_buffer pb d)
    = (set_physical_buffer pb' d, Ok tt) /\
    length pb' = length pb /\
    forall i, 0 <= i < Z.of_nat (length pb) -> pb' !!! Z.to_nat i = 0.
Proof.
  destruct (for_range_total
              (fun i s => exists pbk, s = set_physical_buffer pbk d /\
                            length pbk = length pb /\
                            forall j, 0 <= j < i -> pbk !!! Z.to_nat j = 0)
              (fun i => on_physical (bytearray_set i 0)) (Z.of_nat (length pb)))
    with (s := set_physical_buffer pb d)
    as (s' & Hrun & pb' & -> & Hlen & Hzero).
  - intros i s Hi (pbk & -> & Hlen & Hz).
    rewrite on_physical_run, bytearray_set_ok by lia.
    eexists. split; [reflexivity|]. eexists. split; [reflexivity|].
    split; [now rewrite length_insert|].
    intros j Hj. destruct (Z.eq_dec j i) as [->|Hne].
    + rewrite list_lookup_total_insert_eq by lia. reflexivity.
    + rewrite list_lookup_total_insert_ne by lia. apply Hz. lia.
  - exists pb. split; [reflexivity|]. split; [reflexivity|]. intros j Hj. lia.
  - lia.
  - eauto.
Qed.

(** The whole method on an instance whose buffers have their sizes. *)
Lemma rotate_buffer_run pb :
  physical_buffer d = Some pb -> length pb = 1024%nat ->
  exists pb',
    _rotate_buffer d = (set_physical_buffer pb' d, Ok tt) /\
    rotated_so_far (buffer d) 8 0 0 pb'.
Proof.
  intros Hpb Hlen.
  destruct (clear_physical_run pb) as (pb0 & Hclear & Hlen0 & Hzero).
  assert (Hrot0 : rotated_so_far (buffer d) 0 0 0 pb0).
  { split; [lia|]. split.
    - intros i Hi. rewrite Hzero by lia. lia.
    - intros i k Hi Hk. unfold bit_of. rewrite Hzero, Z.bits_0 by lia.
      split; [discriminate|].
      intros (p & c & b & Hp & Hc & Hb & Hv & _). unfold visited in Hv. lia. }
  destruct (rotate_pages_run pb0 Hrot0) as (pb' & Hrun & Hrot).
  exists pb'. split; [|exact Hrot].
  unfold _rotate_buffer, bind at 1.
  unfold on_physical at 1, gets. rewrite Hpb.
  unfold bind at 1. rewrite Hclear. exact Hrun.
Qed.

End RotateLoops.

Lemma buffers_eq_of_bits (l1 l2 : list Z) :
  length l1 = 1024%nat -> length l2 = 1024%nat ->
  (forall i, 0 <= i < 1024 -> 0 <= l1 !!! Z.to_nat i) ->
  (forall i, 0 <= i < 1024 -> 0 <= l2 !!! Z.to_nat i) ->
  (forall i k, 0 <= i < 1024 -> 0 <= k -> bit_of l1 i k = bit_of l2 i k) ->
  l1 = l2.
Proof.
  intros Hlen1 Hlen2 Hpos1 Hpos2 Hbits. apply list_eq. intros n.
  destruct (Nat.lt_ge_cases n 1024) as [Hlt|Hge].
  - rewrite !list_lookup_lookup_total_lt by lia. f_equal.
    apply Z.bits_inj'. intros k Hk.
    specialize (Hbits (Z.of_nat n) k ltac:(lia) Hk). unfold bit_of in Hbits.
    now rewrite Nat2Z.id in Hbits.
  - rewrite !lookup_ge_None_2 by lia. reflexivity.
Qed.

Lemma lone_pixel_bits w x y i k :
  0 <= y / 8 * w + x < 1024 -> 0 <= i < 1024 -> 0 <= k ->
  bit_of (lone_pixel w x y) i k = true <-> i = y / 8 * w + x /\ k = y mod 8.
Proof.
  intros Hidx Hi Hk. unfold bit_of, lone_pixel.
  assert (0 <= y mod 8 < 8) by (apply Z.mod_pos_bound; lia).
  destruct (Z.eq_dec i (y / 8 * w + x)) as [->|Hne].
  - rewrite list_lookup_total_insert_eq by (rewrite length_replicate; lia).
    rewrite Z.shiftl_1_l, Z.pow2_bits_eqb, Z.eqb_eq by lia. intuition lia.
  - rewrite list_lookup_total_insert_ne by lia.
    rewrite lookup_total_replicate_2 by lia. rewrite Z.bits_0. intuition (discriminate || lia).
Qed.

Lemma lone_pixel_nonneg w x y i : 0 <= i < 1024 -> 0 <= lone_pixel w x y !!! Z.to_nat i.
Proof.
  intros Hi. unfold lone_pixel.
  destruct (Nat.eq_dec (Z.to_nat (y / 8 * w + x)) (Z.to_nat i)) as [Heq|Hne].
  - rewrite Heq, list_lookup_total_insert_eq by (rewrite length_replicate; lia).
    rewrite Z.shiftl_1_l. apply Z.pow_nonneg. lia.
  - rewrite list_lookup_total_insert_ne by exact Hne.
    rewrite lookup_total_replicate_2 by lia. lia.
Qed.

(** A lone lit logical pixel [(x, y)] comes out as the lone physical pixel
    [(y, 127 - x)]. *)
Lemma rotated_lone_pixel buf pb x y :
  0 <= x < 128 -> 0 <= y < 64 ->
  buf = lone_pixel 128 x y -> rotated_so_far buf 8 0 0 pb ->
  pb = lone_pixel 64 y (127 - x).
Proof.
  intros Hx Hy -> (Hlen & Hbytes & Hbits).
  apply buffers_eq_of_bits.
  - exact Hlen.
  - unfold lone_pixel. now rewrite length_insert, length_replicate.
  - intros i Hi. apply Hbytes, Hi.
  - intros i Hi. now apply lone_pixel_nonneg.
  - intros i k Hi Hk.
    assert (Hdst : 0 <= (127 - x) / 8 * 64 + y < 1024)
      by (Z.div_mod_to_equations; lia).
    apply eq_true_iff_eq. rewrite Hbits, lone_pixel_bits by lia. split.
    + intros (p & c & b & Hp & Hc & Hb & _ & Hs & -> & ->).
      apply lone_pixel_bits in Hs; [|Z.div_mod_to_equations; lia..].
      unfold dst_index, dst_bit. Z.div_mod_to_equations. lia.
    + intros [-> ->]. exists (y / 8), x, (y mod 8).
      split; [Z.div_mod_to_equations; lia|]. split; [lia|].
      split; [Z.div_mod_to_equations; lia|].
      split; [unfold visited; Z.div_mod_to_equations; lia|].
      split; [|unfold dst_index, dst_bit; split; [Z.div_mod_to_equations; lia | reflexivity]].
      apply lone_pixel_bits; [Z.div_mod_to_equations; lia.. | split; reflexivity].
Qed.

(** C1. On a landscape instance whose buffers have their 1024 bytes,
    [_rotate_buffer] returns normally and leaves a physical buffer in which
    the bit of byte [dst_y / 8 * 64 + dst_x], position [dst_y mod 8], with
    [(dst_x, dst_y) = (8p + b, 127 - c)], equals bit [b] of logical byte [c]
    of page [p]; every set physical bit is the image of a set logical bit;
    in particular a lone lit logical pixel [(0, 0)] comes out as the lone
    physical pixel [(0, 127)], [(127, 0)] as [(0, 0)] and [(0, 63)] as
    [(63, 127)]. *)
Theorem rotate_buffer_bits (d : SH1107) (pb : list Z) :
  length (buffer d) = 1024%nat ->
  physical_buffer d = Some pb ->
  length pb = 1024%nat ->
  exists pb',
    _rotate_buffer d = (set_physical_buffer pb' d, Ok tt) /\
    length pb' = 1024%nat /\
    (forall p c b, 0 <= p < 8 -> 0 <= c < 128 -> 0 <= b < 8 ->
       bit_of pb' (dst_index p c b) (dst_bit c) = bit_of (buffer d) (p * 128 + c) b) /\
    (forall i k, 0 <= i < 1024 -> 0 <= k -> bit_of pb' i k = true ->
       exists p c b,
         0 <= p < 8 /\ 0 <= c < 128 /\ 0 <= b < 8 /\
         bit_of (buffer d) (p * 128 + c) b = true /\
         i = dst_index p c b /\ k = dst_bit c) /\
    (buffer d = lone_pixel 128 0 0 -> pb' = lone_pixel 64 0 127) /\
    (buffer d = lone_pixel 128 127 0 -> pb' = lone_pixel 64 0 0) /\
    (buffer d = lone_pixel 128 0 63 -> pb' = lone_pixel 64 63 127).
Proof.
  intros Hbuf Hpb Hlen.
  destruct (rotate_buffer_run d Hbuf pb Hpb Hlen) as (pb' & Hrun & Hrot).
  exists pb'. split; [exact Hrun|].
  pose proof Hrot as (Hlen' & Hbytes & Hbits).
  split; [exact Hlen'|]. split; [|split; [|repeat split]].
  - intros p c b Hp Hc Hb.
    destruct (dst_index_range p c b Hp Hc Hb) as [Hidx Hdbit].
    destruct (bit_of (buffer d) (p * 128 + c) b) eqn:Hsrc.
    + apply Hbits; [lia | lia |]. exists p, c, b.
      repeat split; try lia; try assumption. unfold visited. lia.
    + destruct (bit_of pb' (dst_index p c b) (dst_bit c)) eqn:Hdst; [|reflexivity].
      apply Hbits in Hdst; [|lia..].
      destruct Hdst as (p' & c' & b' & Hp' & Hc' & Hb' & _ & Hs' & Hi' & Hk').
      destruct (dst_injective p c b p' c' b') as (-> & -> & ->); try assumption.
      congruence.
  - intros i k Hi Hk Hset. apply Hbits in Hset; [|lia..].
    destruct Hset as (p & c & b & Hp & Hc & Hb & _ & Hs & Hi' & Hk').
    exists p, c, b. auto 10.
  - intros Hlone. apply (rotated_lone_pixel (buffer d) pb' 0 0); auto; lia.
  - intros Hlone. apply (rotated_lone_pixel (buffer d) pb' 127 0); auto; lia.
  - intros Hlone. apply (rotated_lone_pixel (buffer d) pb' 0 63); auto; lia.
Qed.

(** ** Transactions on the bus *)

Lemma advance_advance n1 e1 n2 e2 b :
  advance n2 e2 (advance n1 e1 b) = advance (n1 + n2) (e1 ++ e2) b.
Proof. unfold advance. simpl. now rewrite Nat.add_assoc, app_assoc. Qed.

Lemma advance_0 b : advance 0 [] b = b.
Proof. destruct b. unfold advance. simpl. now rewrite Nat.add_0_r, app_nil_r. Qed.

Lemma reliable_for_advance n m evs b :
  reliable_for (n + m) b -> reliable_for m (advance n evs b).
Proof.
  intros Hb i Hi. unfold advance. simpl.
  rewrite <- Nat.add_assoc. apply Hb. lia.
Qed.

Lemma reliable_for_le n m b : (m <= n)%nat -> reliable_for n b -> reliable_for m b.
Proof. intros Hle Hb i Hi. apply Hb. lia. Qed.

Lemma for_app {S X} (xs ys : list X) (body : X -> M S unit) s :
  for_ (xs ++ ys) body s = (for_ xs body >> for_ ys body) s.
Proof.
  revert s. induction xs as [|x xs IH]; intros s; simpl.
  - reflexivity.
  - unfold bind. destruct (body x s) as [s' [[]|e]]; [apply IH | reflexivity].
Qed.

Lemma emit_run evs b : for_ evs emit b = (advance 0 evs b, Ok tt).
Proof.
  revert b. induction evs as [|e evs IH]; intros b.
  - simpl. now rewrite advance_0.
  - simpl. unfold bind, emit at 1, modify. rewrite IH. f_equal.
    unfold advance. simpl. now rewrite <- app_assoc.
Qed.

Lemma writeto_ok a data b :
  fails b (calls b) = false ->
  writeto a data b = (advance 1 [Writeto a data] b, Ok tt).
Proof.
  intros Hok. unfold writeto. rewrite Hok. unfold advance.
  now rewrite Nat.add_1_r.
Qed.

Lemma writeto_failed a data b :
  fails b (calls b) = true ->
  writeto a data b = (advance 1 [WritetoFailed a data] b, Raise OSError).
Proof.
  intros Hko. unfold writeto. rewrite Hko. unfold advance.
  now rewrite Nat.add_1_r.
Qed.

(** All transactions go through on a bus that stays reliable. *)
Lemma run_txns_ok a txs b :
  reliable_for (length txs) b ->
  run_txns a txs b = (advance (length txs) (txn_events a txs) b, Ok tt).
Proof.
  revert b. induction txs as [|t txs IH]; intros b Hb.
  - simpl. now rewrite advance_0.
  - unfold run_txns. simpl. unfold bind at 1 2.
    rewrite writeto_ok by (rewrite <- (Nat.add_0_r (calls b)); apply Hb; simpl; lia).
    rewrite emit_run, advance_advance. fold (run_txns a txs).
    rewrite IH by (apply reliable_for_advance; exact Hb).
    rewrite advance_advance. reflexivity.
Qed.

(** The attempt stops at the first write that fails. *)
Lemma run_txns_failed a txs j b :
  (j < length txs)%nat ->
  reliable_for j b -> fails b (calls b + j) = true ->
  run_txns a txs b = (advance (Datatypes.S j) (failed_events a txs j) b, Raise OSError).
Proof.
  revert j b. induction txs as [|t txs IH]; intros j b Hj Hb Hko; [simpl in Hj; lia|].
  unfold run_txns. simpl. unfold bind at 1 2. destruct j as [|j].
  - rewrite Nat.add_0_r in Hko. rewrite writeto_failed by exact Hko. reflexivity.
  - rewrite writeto_ok by (rewrite <- (Nat.add_0_r (calls b)); apply Hb; lia).
    rewrite emit_run, advance_advance. fold (run_txns a txs).
    rewrite (IH j).
    + rewrite advance_advance. f_equal. f_equal. unfold failed_events. simpl.
      now rewrite <- !app_assoc.
    + simpl in Hj. lia.
    + apply (reliable_for_advance 1 j). exact Hb.
    + unfold advance. simpl. rewrite <- Hko. f_equal. lia.
Qed.

(** ** The driver's bus methods as transactions *)

Lemma set_i2c_id w : set_i2c (i2c w) w = w.
Proof. now destruct w. Qed.

Lemma set_drv_id w : set_drv (drv w) w = w.
Proof. now destruct w. Qed.

Lemma set_physical_buffer_id d pb :
  physical_buffer d = Some pb -> set_physical_buffer pb d = d.
Proof. destruct d. simpl. now intros ->. Qed.

Lemma on_bus_app a txs1 txs2 w :
  on_bus (run_txns a (txs1 ++ txs2)) w =
  (on_bus (run_txns a txs1) >> on_bus (run_txns a txs2)) w.
Proof.
  unfold on_bus, zoom, bind, run_txns. rewrite for_app. unfold bind.
  destruct (for_ txs1 _ (i2c w)) as [b1 [[]|e]]; reflexivity.
Qed.

Lemma on_bus_cons a t txs w :
  on_bus (run_txns a (t :: txs)) w =
  (on_bus (run_txns a [t]) >> on_bus (run_txns a txs)) w.
Proof. apply (on_bus_app a [t] txs). Qed.

Lemma write_cmd_txn cmd w :
  0 <= cmd < 256 ->
  write_cmd cmd w = on_bus (run_txns (addr (drv w)) [([0x80; cmd], [])]) w.
Proof.
  intros Hcmd. unfold write_cmd, bind at 1 2, gets, bytes. cbn [forallb].
  replace (0 <=? cmd) with true by (symmetry; apply Z.leb_le; lia).
  replace (cmd <? 256) with true by (symmetry; apply Z.ltb_lt; lia).
  cbn. unfold on_bus, zoom, run_txns. cbn. unfold bind.
  destruct (writeto (addr (drv w)) [128; cmd] (i2c w)) as [b' [[]|e]]; reflexivity.
Qed.

Lemma write_data_txn data w :
  write_data data w =
  on_bus (run_txns (addr (drv w))
            ((fun ch => (0x40 :: ch, [SleepUs 50])) <$> chunks data)) w.
Proof.
  unfold write_data, chunks.
  generalize (range_step (Z.of_nat (length data)) 16) as idxs.
  intros idxs. revert w. induction idxs as [|i idxs IH]; intros w.
  - cbn. unfold on_bus, zoom. cbn. now rewrite set_i2c_id.
  - cbn [for_ fmap list_fmap]. unfold bind at 1. unfold bind at 1 2 3, gets, bytes. cbn.
    unfold on_bus at 1 3, zoom, run_txns. cbn. unfold bind at 1 4 5.
    destruct (writeto (addr (drv w)) (64 :: slice data i (i + 16)) (i2c w))
      as [b1 [[]|e]]; [|reflexivity].
    unfold sleep_us, on_bus at 1, zoom, emit at 1 2, modify. cbn.
    unfold bind at 2. rewrite IH. unfold on_bus, zoom, run_txns. cbn. reflexivity.
Qed.

Lemma bind_on_bus {A} (m : M World unit) (mb : M Bus unit)
    (k k' : unit -> M World A) w :
  m w = on_bus mb w ->
  (forall b, k tt (set_i2c b w) = k' tt (set_i2c b w)) ->
  bind m k w = bind (on_bus mb) k' w.
Proof.
  intros Hm Hk. unfold bind. rewrite Hm. unfold on_bus, zoom.
  destruct (mb (i2c w)) as [b [[]|e]]; [apply Hk | reflexivity].
Qed.

Lemma page_addr_byte page : 0 <= page < 16 -> 0 <= Z.lor 0xB0 page < 256.
Proof.
  intros Hpage.
  assert (Hc : page = 0 \/ page = 1 \/ page = 2 \/ page = 3 \/ page = 4 \/
               page = 5 \/ page = 6 \/ page = 7 \/ page = 8 \/ page = 9 \/
               page = 10 \/ page = 11 \/ page = 12 \/ page = 13 \/
               page = 14 \/ page = 15) by lia.
  repeat (destruct Hc as [->|Hc]; [now compute|]). subst. now compute.
Qed.

(** One page of [show] is a list of transactions run on the bus. *)
Lemma send_page_txns page w :
  0 <= page < 16 ->
  (rotate (drv w) = true -> is_Some (physical_buffer (drv w))) ->
  send_page (if rotate (drv w) then PhysicalBuffer else LogicalBuffer) page w =
  on_bus (run_txns (addr (drv w)) (page_txns (page_data (drv w) page) page)) w.
Proof.
  intros Hpage Hpb. unfold send_page, page_txns.
  pose proof (page_addr_byte page Hpage) as Hbyte.
  cbn [app]. rewrite on_bus_cons.
  apply bind_on_bus; [apply write_cmd_txn; exact Hbyte|]. intros b1.
  rewrite on_bus_cons.
  apply bind_on_bus; [apply (write_cmd_txn _ (set_i2c b1 w)); now compute|]. intros b2.
  rewrite on_bus_cons.
  apply bind_on_bus; [apply (write_cmd_txn _ (set_i2c b2 w)); now compute|]. intros b3.
  unfold bind, page_data, active_buffer.
  destruct (rotate (drv w)) eqn:Hrot.
  - destruct (Hpb eq_refl) as [pb Hphys]. rewrite Hphys.
    unfold slice_of, on_drv, zoom, on_physical, gets. cbn. rewrite Hphys.
    rewrite (set_physical_buffer_id _ _ Hphys).
    replace (set_drv (drv w) (set_i2c b3 w)) with (set_i2c b3 w) by reflexivity.
    apply (write_data_txn _ (set_i2c b3 w)).
  - unfold slice_of, gets. apply (write_data_txn _ (set_i2c b3 w)).
Qed.

(** ** Chunking *)

(** The chunks, by their number: the [k]-th holds bytes [16k .. 16k+15]. *)
Lemma chunks_by_index data :
  chunks data =
  (fun k => take 16 (drop (16 * k) data))
    <$> seq 0 (Z.to_nat ((Z.of_nat (length data) + 15) / 16)).
Proof.
  unfold chunks, range_step, seqZ.
  replace (Z.of_nat (length data) + 16 - 1) with (Z.of_nat (length data) + 15) by lia.
  rewrite <- !list_fmap_compose. apply list_fmap_ext. intros i k _. simpl.
  unfold slice. f_equal; [lia|]. f_equal. lia.
Qed.

Lemma concat_take_drop (q : nat) (data : list Z) :
  (length data <= 16 * q)%nat ->
  concat ((fun k => take 16 (drop (16 * k) data)) <$> seq 0 q) = data.
Proof.
  revert data. induction q as [|q IH]; intros data Hlen.
  - destruct data; [reflexivity | simpl in Hlen; lia].
  - cbn [seq fmap list_fmap concat]. rewrite <- fmap_S_seq, <- list_fmap_compose.
    rewrite (list_fmap_ext _ (fun k => take 16 (drop (16 * k) (drop 16 data)))).
    + change (16 * 0)%nat with 0%nat. rewrite drop_0, IH, take_drop; [reflexivity|].
      rewrite length_drop. lia.
    + intros i k _. simpl. rewrite drop_drop. f_equal. f_equal. lia.
Qed.

Lemma chunks_concat data : concat (chunks data) = data.
Proof.
  rewrite chunks_by_index. apply concat_take_drop.
  pose proof (Z.div_mod (Z.of_nat (length data) + 15) 16 ltac:(lia)) as Hdm.
  pose proof (Z.mod_pos_bound (Z.of_nat (length data) + 15) 16 ltac:(lia)) as Hm.
  lia.
Qed.

Lemma chunks_sizes data : Forall (fun ch => (0 < length ch <= 16)%nat) (chunks data).
Proof.
  rewrite chunks_by_index. apply Forall_fmap, Forall_seq. intros k Hk. simpl.
  rewrite length_take, length_drop.
  pose proof (Z.div_mod (Z.of_nat (length data) + 15) 16 ltac:(lia)) as Hdm.
  pose proof (Z.mod_pos_bound (Z.of_nat (length data) + 15) 16 ltac:(lia)) as Hm.
  lia.
Qed.

Lemma chunks_of_page data :
  length data = 64%nat ->
  chunks data =
  [take 16 data; take 16 (drop 16 data); take 16 (drop 32 data);
   take 16 (drop 48 data)].
Proof. intros Hlen. rewrite chunks_by_index, Hlen. reflexivity. Qed.

Lemma txn_events_data a (cs : list (list Z)) :
  txn_events a ((fun ch => (0x40 :: ch, [SleepUs 50])) <$> cs) =
  flat_map (fun ch => [Writeto a (0x40 :: ch); SleepUs 50]) cs.
Proof.
  induction cs as [|ch cs IH]; [reflexivity|].
  cbn. f_equal. f_equal. exact IH.
Qed.

(** C6. [write_data] cuts its payload into consecutive chunks of at most
    16 bytes which together are the payload, and sends each in its own
    bus transaction behind the control byte [0x40], in payload order; a
    64-byte payload gives exactly four transactions of 16 payload bytes. *)
Theorem write_data_chunked (data : list Z) (w : World) :
  reliable_for (length (chunks data)) (i2c w) ->
  write_data data w =
    (set_i2c
       (advance (length (chunks data))
          (flat_map (fun ch => [Writeto (addr (drv w)) (0x40 :: ch); SleepUs 50])
             (chunks data))
          (i2c w)) w,
     Ok tt) /\
  concat (chunks data) = data /\
  Forall (fun ch => (0 < length ch <= 16)%nat) (chunks data) /\
  (length data = 64%nat ->
   chunks data =
     [take 16 data; take 16 (drop 16 data); take 16 (drop 32 data);
      take 16 (drop 48 data)] /\
   Forall (fun ch => length ch = 16%nat) (chunks data)).
Proof.
  intros Hbus. split; [|split; [apply chunks_concat | split; [apply chunks_sizes|]]].
  - rewrite write_data_txn. unfold on_bus, zoom.
    rewrite run_txns_ok by (rewrite length_fmap; exact Hbus).
    now rewrite length_fmap, txn_events_data.
  - intros Hlen. split; [now apply chunks_of_page|].
    rewrite chunks_of_page by exact Hlen.
    repeat constructor; rewrite length_take, ?length_drop; lia.
Qed.

(** ** One page of a frame *)

Lemma wadvance_wadvance n1 e1 n2 e2 w :
  wadvance n2 e2 (wadvance n1 e1 w) = wadvance (n1 + n2) (e1 ++ e2) w.
Proof. unfold wadvance, set_i2c. cbn. now rewrite advance_advance. Qed.

Lemma wadvance_0 w : wadvance 0 [] w = w.
Proof. unfold wadvance. now rewrite advance_0, set_i2c_id. Qed.

Lemma reliable_wadvance n m evs w :
  (forall i, (i < m)%nat -> fails (i2c w) (calls (i2c w) + n + i) = false) ->
  reliable_for m (i2c (wadvance n evs w)).
Proof. intros Hw i Hi. apply Hw, Hi. Qed.

Lemma active_buffer_length d : buffers_sized d -> length (active_buffer d) = 1024%nat.
Proof.
  intros (_ & Hbuf & Hex & Hpb). unfold active_buffer.
  destruct (rotate d); [|exact Hbuf].
  destruct (proj2 Hex eq_refl) as [pb Hphys]. rewrite Hphys. simpl. now apply Hpb.
Qed.

Lemma page_data_length d page :
  buffers_sized d -> 0 <= page < 16 -> length (page_data d page) = 64%nat.
Proof.
  intros Hd Hpage. unfold page_data, slice.
  rewrite length_take, length_drop, (active_buffer_length d Hd). lia.
Qed.

Lemma page_txns_length d page :
  buffers_sized d -> 0 <= page < 16 ->
  length (page_txns (page_data d page) page) = 7%nat.
Proof.
  intros Hd Hpage. unfold page_txns.
  rewrite (chunks_of_page _ (page_data_length d page Hd Hpage)). reflexivity.
Qed.

Lemma sized_physical d : buffers_sized d -> rotate d = true -> is_Some (physical_buffer d).
Proof. intros (_ & _ & Hex & _) Hrot. now apply Hex. Qed.

Lemma send_page_ok page w :
  buffers_sized (drv w) -> 0 <= page < 16 -> reliable_for 7 (i2c w) ->
  send_page (buffer_ref_of (drv w)) page w =
  (wadvance 7 (page_events (drv w) page) w, Ok tt).
Proof.
  intros Hd Hpage Hbus. unfold buffer_ref_of.
  rewrite send_page_txns by (auto using sized_physical).
  unfold on_bus, zoom.
  rewrite run_txns_ok by (rewrite (page_txns_length _ _ Hd Hpage); exact Hbus).
  now rewrite (page_txns_length _ _ Hd Hpage).
Qed.

Lemma send_page_failed page j w :
  buffers_sized (drv w) -> 0 <= page < 16 -> (j < 7)%nat ->
  reliable_for j (i2c w) -> fails (i2c w) (calls (i2c w) + j) = true ->
  send_page (buffer_ref_of (drv w)) page w =
  (wadvance (Datatypes.S j)
     (failed_events (addr (drv w)) (page_txns (page_data (drv w) page) page) j) w,
   Raise OSError).
Proof.
  intros Hd Hpage Hj Hbus Hko. unfold buffer_ref_of.
  rewrite send_page_txns by (auto using sized_physical).
  unfold on_bus, zoom.
  rewrite (run_txns_failed _ _ j); auto.
  rewrite (page_txns_length _ _ Hd Hpage). exact Hj.
Qed.

Lemma sleep_us_run n w : sleep_us n w = (wadvance 0 [SleepUs n] w, Ok tt).
Proof.
  unfold sleep_us, on_bus, zoom, emit, modify, wadvance, advance. cbn.
  now rewrite Nat.add_0_r.
Qed.

Lemma sleep_ms_run n w : sleep_ms n w = (wadvance 0 [SleepMs n] w, Ok tt).
Proof.
  unfold sleep_ms, on_bus, zoom, emit, modify, wadvance, advance. cbn.
  now rewrite Nat.add_0_r.
Qed.

(** A page that goes through at the first attempt. *)
Lemma show_page_ok page w :
  buffers_sized (drv w) -> 0 <= page < 16 -> reliable_for 7 (i2c w) ->
  show_page (buffer_ref_of (drv w)) page w =
  (wadvance 7 (page_events (drv w) page ++ [SleepUs 100]) w, Ok tt).
Proof.
  intros Hd Hpage Hbus. unfold show_page, try_except_OSError, bind.
  rewrite send_page_ok by assumption.
  now rewrite sleep_us_run, wadvance_wadvance, Nat.add_0_r.
Qed.

(** A page whose first attempt fails at its [j]-th write: the wait, then
    the whole page once more. *)
Lemma show_page_retry page j w :
  buffers_sized (drv w) -> 0 <= page < 16 -> (j < 7)%nat ->
  reliable_for j (i2c w) -> fails (i2c w) (calls (i2c w) + j) = true ->
  show_page (buffer_ref_of (drv w)) page w =
  send_page (buffer_ref_of (drv w)) page
    (wadvance (Datatypes.S j)
       (failed_events (addr (drv w)) (page_txns (page_data (drv w) page) page) j
        ++ [SleepMs 10]) w).
Proof.
  intros Hd Hpage Hj Hbus Hko. unfold show_page, try_except_OSError, bind at 1.
  rewrite (send_page_failed page j) by assumption.
  unfold bind. now rewrite sleep_ms_run, wadvance_wadvance, Nat.add_0_r.
Qed.

(** Pages that all go through. *)
Lemma show_pages_ok (ps : list Z) w :
  buffers_sized (drv w) -> Forall (fun page => 0 <= page < 16) ps ->
  reliable_for (7 * length ps) (i2c w) ->
  for_ ps (show_page (buffer_ref_of (drv w))) w =
  (wadvance (7 * length ps) (frame_events (drv w) ps) w, Ok tt).
Proof.
  intros Hd Hps. revert w Hd. induction Hps as [|page ps Hpage Hps IH]; intros w Hd Hbus.
  - cbn. now rewrite wadvance_0.
  - cbn [for_]. unfold bind.
    rewrite show_page_ok; [|assumption..|eapply reliable_for_le; [|exact Hbus]; simpl; lia].
    change (drv w) with (drv (wadvance 7 (page_events (drv w) page ++ [SleepUs 100]) w)) at 1.
    rewrite IH.
    + rewrite wadvance_wadvance. cbn [length frame_events flat_map]. f_equal. f_equal.
      * lia.
    + exact Hd.
    + apply (reliable_for_advance 7). eapply reliable_for_le; [|exact Hbus].
      simpl. lia.
Qed.

(** ** A whole frame *)

Lemma rotated_fields d :
  buffers_sized d ->
  buffers_sized (rotated d) /\ rotate (rotated d) = rotate d /\
  addr (rotated d) = addr d /\ buffer (rotated d) = buffer d.
Proof.
  intros Hd. unfold rotated. destruct (rotate d) eqn:Hrot; [|auto].
  split; [now apply rotate_buffer_sized|].
  destruct Hd as (_ & Hbuf & Hex & Hpb).
  destruct (proj2 Hex Hrot) as [pb Hphys].
  destruct (rotate_buffer_run d Hbuf pb Hphys (Hpb pb Hphys)) as (pb' & Hrun & _).
  rewrite Hrun. cbn. auto.
Qed.

Lemma show_run w :
  buffers_sized (drv w) ->
  show w =
  for_ (range 16) (show_page (buffer_ref_of (drv w))) (set_drv (rotated (drv w)) w).
Proof.
  intros Hd. unfold show, bind at 1, gets, buffer_ref_of, rotated.
  destruct (rotate (drv w)) eqn:Hrot.
  - destruct Hd as (_ & Hbuf & Hex & Hpb).
    destruct (proj2 Hex Hrot) as [pb Hphys].
    destruct (rotate_buffer_run (drv w) Hbuf pb Hphys (Hpb pb Hphys))
      as (pb' & Hrun & _).
    unfold bind, on_drv, zoom. rewrite Hrun. reflexivity.
  - unfold bind, ret. now rewrite set_drv_id.
Qed.

Lemma range_split (p : nat) :
  (p < 16)%nat ->
  range 16 = seqZ 0 (Z.of_nat p) ++ Z.of_nat p :: seqZ (Z.of_nat p + 1) (15 - Z.of_nat p).
Proof.
  intros Hp. unfold range.
  replace 16 with (Z.of_nat p + (1 + (15 - Z.of_nat p))) at 1 by lia.
  rewrite seqZ_app by lia. f_equal.
  rewrite seqZ_cons by lia. f_equal. f_equal; lia.
Qed.

Lemma pages_in_range m n :
  0 <= m -> m + n <= 16 -> Forall (fun page => 0 <= page < 16) (seqZ m n).
Proof. intros Hm Hn. apply Forall_seqZ. intros j Hj. lia. Qed.

(** A frame on a bus that stays reliable. *)
Lemma show_ok w :
  buffers_sized (drv w) -> reliable_for 112 (i2c w) ->
  show w =
  (wadvance 112 (frame_events (rotated (drv w)) (range 16))
     (set_drv (rotated (drv w)) w), Ok tt).
Proof.
  intros Hd Hbus. rewrite show_run by exact Hd.
  destruct (rotated_fields _ Hd) as (Hd' & Hrot & _).
  set (w1 := set_drv (rotated (drv w)) w).
  replace (buffer_ref_of (drv w)) with (buffer_ref_of (drv w1))
    by (unfold buffer_ref_of; cbn; now rewrite Hrot).
  rewrite show_pages_ok.
  - unfold range. rewrite length_seqZ. reflexivity.
  - exact Hd'.
  - apply pages_in_range; lia.
  - unfold range. rewrite length_seqZ. exact Hbus.
Qed.

(** A frame in which the [j]-th write of page [p] fails at the first
    attempt and everything else goes through. *)
Lemma show_one_failure w (p j : nat) :
  buffers_sized (drv w) -> (p < 16)%nat -> (j < 7)%nat ->
  reliable_for (7 * p + j) (i2c w) ->
  fails (i2c w) (calls (i2c w) + (7 * p + j)) = true ->
  (forall i, (i < 7 * (16 - p))%nat ->
     fails (i2c w) (calls (i2c w) + (7 * p + j) + 1 + i) = false) ->
  let d := rotated (drv w) in
  show w =
  (wadvance (113 + j)
     (frame_events d (seqZ 0 (Z.of_nat p))
      ++ (failed_events (addr d) (page_txns (page_data d (Z.of_nat p)) (Z.of_nat p)) j
          ++ [SleepMs 10])
      ++ page_events d (Z.of_nat p)
      ++ frame_events d (seqZ (Z.of_nat p + 1) (15 - Z.of_nat p)))
     (set_drv d w), Ok tt).
Proof.
  intros Hd Hp Hj Hbefore Hko Hafter d. rewrite show_run by exact Hd.
  destruct (rotated_fields _ Hd) as (Hd' & Hrot & _). fold d in Hd', Hrot |- *.
  set (w1 := set_drv d w).
  replace (buffer_ref_of (drv w)) with (buffer_ref_of (drv w1))
    by (unfold buffer_ref_of; cbn; now rewrite Hrot).
  rewrite (range_split p Hp), for_app. unfold bind at 1.
  rewrite show_pages_ok;
    [|exact Hd' | apply pages_in_range; lia
     |rewrite length_seqZ; eapply reliable_for_le; [|exact Hbefore]; lia].
  rewrite length_seqZ, Nat2Z.id. cbn [for_]. unfold bind at 1.
  set (w2 := wadvance (7 * p) (frame_events (drv w1) (seqZ 0 (Z.of_nat p))) w1).
  change (drv w1) with (drv w2) at 1.
  rewrite (show_page_retry (Z.of_nat p) j w2); [|exact Hd' | lia | exact Hj | |].
  - set (w3 := wadvance (Datatypes.S j) _ w2).
    replace (buffer_ref_of (drv w2)) with (buffer_ref_of (drv w3)) by reflexivity.
    rewrite send_page_ok; [|exact Hd' | lia |].
    + set (w4 := wadvance 7 _ w3).
      replace (buffer_ref_of (drv w1)) with (buffer_ref_of (drv w4)) by reflexivity.
      rewrite show_pages_ok; [|exact Hd' | apply pages_in_range; lia |].
      * unfold w4, w3, w2. rewrite !wadvance_wadvance, length_seqZ.
        cbn [drv wadvance set_i2c w1 set_drv]. fold d.
        do 2 f_equal. lia.
      * rewrite length_seqZ. unfold w4, w3, w2. rewrite !wadvance_wadvance.
        apply reliable_wadvance. intros i Hi. change (i2c w1) with (i2c w).
        match goal with |- fails _ ?n = false =>
          replace n with (calls (i2c w) + (7 * p + j) + 1 + (7 + i))%nat by lia
        end.
        apply Hafter. lia.
    + unfold w3, w2. rewrite !wadvance_wadvance.
      apply reliable_wadvance. intros i Hi. change (i2c w1) with (i2c w).
      match goal with |- fails _ ?n = false =>
        replace n with (calls (i2c w) + (7 * p + j) + 1 + i)%nat by lia
      end.
      apply Hafter. lia.
  - unfold w2. apply reliable_wadvance. intros i Hi. change (i2c w1) with (i2c w).
    rewrite <- Nat.add_assoc. apply Hbefore. lia.
  - unfold w2. change (fails (i2c w) (calls (i2c w) + 7 * p + j) = true).
    rewrite <- Hko. f_equal. lia.
Qed.

(** A frame in which the [j]-th write of page [p] fails and then the
    [j']-th write of the retry of that page fails too. *)
Lemma show_two_failures w (p j j' : nat) :
  buffers_sized (drv w) -> (p < 16)%nat -> (j < 7)%nat -> (j' < 7)%nat ->
  reliable_for (7 * p + j) (i2c w) ->
  fails (i2c w) (calls (i2c w) + (7 * p + j)) = true ->
  (forall i, (i < j')%nat ->
     fails (i2c w) (calls (i2c w) + (7 * p + j) + 1 + i) = false) ->
  fails (i2c w) (calls (i2c w) + (7 * p + j) + 1 + j') = true ->
  let d := rotated (drv w) in
  let txs := page_txns (page_data d (Z.of_nat p)) (Z.of_nat p) in
  show w =
  (wadvance (7 * p + j + j' + 2)
     (frame_events d (seqZ 0 (Z.of_nat p))
      ++ (failed_events (addr d) txs j ++ [SleepMs 10])
      ++ failed_events (addr d) txs j')
     (set_drv d w), Raise OSError).
Proof.
  intros Hd Hp Hj Hj' Hbefore Hko Hbetween Hko' d txs. rewrite show_run by exact Hd.
  destruct (rotated_fields _ Hd) as (Hd' & Hrot & _). fold d in Hd', Hrot |- *.
  set (w1 := set_drv d w).
  replace (buffer_ref_of (drv w)) with (buffer_ref_of (drv w1))
    by (unfold buffer_ref_of; cbn; now rewrite Hrot).
  rewrite (range_split p Hp), for_app. unfold bind at 1.
  rewrite show_pages_ok;
    [|exact Hd' | apply pages_in_range; lia
     |rewrite length_seqZ; eapply reliable_for_le; [|exact Hbefore]; lia].
  rewrite length_seqZ, Nat2Z.id. cbn [for_]. unfold bind at 1.
  set (w2 := wadvance (7 * p) (frame_events (drv w1) (seqZ 0 (Z.of_nat p))) w1).
  replace (buffer_ref_of (drv w1)) with (buffer_ref_of (drv w2)) by reflexivity.
  rewrite (show_page_retry (Z.of_nat p) j w2); [|exact Hd' | lia | exact Hj | |].
  - set (w3 := wadvance (Datatypes.S j) _ w2).
    replace (buffer_ref_of (drv w2)) with (buffer_ref_of (drv w3)) by reflexivity.
    rewrite (send_page_failed (Z.of_nat p) j' w3); [|exact Hd' | lia | exact Hj' | |].
    + unfold w3, w2. rewrite !wadvance_wadvance.
      cbn [drv wadvance set_i2c w1 set_drv]. fold d. fold txs.
      do 2 f_equal. lia.
    + unfold w3, w2. rewrite !wadvance_wadvance.
      apply reliable_wadvance. intros i Hi. change (i2c w1) with (i2c w).
      match goal with |- fails _ ?n = false =>
        replace n with (calls (i2c w) + (7 * p + j) + 1 + i)%nat by lia
      end.
      apply Hbetween. lia.
    + unfold w3, w2. rewrite !wadvance_wadvance.
      change (fails (i2c w) (calls (i2c w) + (7 * p + Datatypes.S j) + j') = true).
      rewrite <- Hko'. f_equal. lia.
  - unfold w2. apply reliable_wadvance. intros i Hi. change (i2c w1) with (i2c w).
    rewrite <- Nat.add_assoc. apply Hbefore. lia.
  - unfold w2. change (fails (i2c w) (calls (i2c w) + 7 * p + j) = true).
    rewrite <- Hko. f_equal. lia.
Qed.

(** A frame with a single failing write, the [j]-th of page [p], and a
    frame in which the retry of that page fails as well. *)
Lemma show_retry_cases (w : World) (p j : nat) :
  buffers_sized (drv w) -> (p < 16)%nat -> (j < 7)%nat ->
  let d := rotated (drv w) in
  let txs := page_txns (page_data d (Z.of_nat p)) (Z.of_nat p) in
  ((forall n, fails (i2c w) (calls (i2c w) + n) = true <-> n = (7 * p + j)%nat) ->
   show w =
   (wadvance (113 + j)
      (frame_events d (seqZ 0 (Z.of_nat p))
       ++ (failed_events (addr d) txs j ++ [SleepMs 10])
       ++ txn_events (addr d) txs
       ++ frame_events d (seqZ (Z.of_nat p + 1) (15 - Z.of_nat p)))
      (set_drv d w), Ok tt)) /\
  (forall j', (j' < 7)%nat ->
     (forall n, (n < 7 * p + j + 1 + j')%nat ->
        fails (i2c w) (calls (i2c w) + n) = true <-> n = (7 * p + j)%nat) ->
     fails (i2c w) (calls (i2c w) + (7 * p + j) + 1 + j') = true ->
     show w =
     (wadvance (7 * p + j + j' + 2)
        (frame_events d (seqZ 0 (Z.of_nat p))
         ++ (failed_events (addr d) txs j ++ [SleepMs 10])
         ++ failed_events (addr d) txs j')
        (set_drv d w), Raise OSError)).
Proof.
  intros Hd Hp Hj d txs.
  assert (Hother : forall bound : nat,
            (forall n, (n < bound)%nat ->
               fails (i2c w) (calls (i2c w) + n) = true <-> n = (7 * p + j)%nat) ->
            forall m n, m = (calls (i2c w) + n)%nat -> (n < bound)%nat ->
                        n <> (7 * p + j)%nat -> fails (i2c w) m = false).
  { intros bound Hone m n -> Hn Hne.
    destruct (fails (i2c w) (calls (i2c w) + n)) eqn:Hf; [|reflexivity].
    apply Hone in Hf; [contradiction | exact Hn]. }
  split.
  - intros Hone. apply (show_one_failure w p j); try assumption.
    + intros i Hi. apply (Hother (Datatypes.S i) (fun n _ => Hone n) _ i); lia.
    + now apply Hone.
    + intros i Hi.
      apply (Hother (7 * p + j + 2 + i)%nat (fun n _ => Hone n) _ (7 * p + j + 1 + i)%nat);
        lia.
  - intros j' Hj' Hone Hko'. apply (show_two_failures w p j j'); try assumption.
    + intros i Hi. apply (Hother _ Hone _ i); lia.
    + apply Hone; lia.
    + intros i Hi. apply (Hother _ Hone _ (7 * p + j + 1 + i)%nat); lia.
Qed.

(** ** The retry policy on every bus *)

Lemma find_seq_first (f : nat -> bool) n lo j :
  find f (seq lo n) = Some j ->
  (lo <= j < lo + n)%nat /\
  (forall i, (lo <= i < j)%nat -> f i = false) /\ f j = true.
Proof.
  revert lo. induction n as [|n IH]; intros lo Hfind; [discriminate|].
  cbn [seq find] in Hfind. destruct (f lo) eqn:Hlo.
  - injection Hfind as <-. split; [lia|]. split; [intros i Hi; lia | exact Hlo].
  - destruct (IH _ Hfind) as (Hj & Hbefore & Hat).
    split; [lia|]. split; [|exact Hat].
    intros i Hi. destruct (Nat.eq_dec i lo) as [->|Hne]; [exact Hlo|].
    apply Hbefore. lia.
Qed.

Lemma first_failure_None n b : first_failure n b = None <-> reliable_for n b.
Proof.
  unfold first_failure, reliable_for. split.
  - intros Hnone i Hi.
    apply (find_none _ _ Hnone i). apply in_seq. lia.
  - intros Hrel. destruct (find _ _) as [j|] eqn:Hfind; [|reflexivity].
    apply find_some in Hfind as [Hin Hf]. apply in_seq in Hin.
    rewrite Hrel in Hf by lia. discriminate.
Qed.

Lemma first_failure_Some n b j :
  first_failure n b = Some j ->
  (j < n)%nat /\ reliable_for j b /\ fails b (calls b + j) = true.
Proof.
  unfold first_failure, reliable_for. intros Hfind.
  apply find_seq_first in Hfind as (Hj & Hbefore & Hat).
  split; [lia|]. split; [|exact Hat]. intros i Hi. apply Hbefore. lia.
Qed.

Lemma set_i2c_set_i2c b1 b2 w : set_i2c b2 (set_i2c b1 w) = set_i2c b2 w.
Proof. reflexivity. Qed.

(** One page under the policy, on every bus. *)
Lemma show_page_policy page w :
  buffers_sized (drv w) -> 0 <= page < 16 ->
  show_page (buffer_ref_of (drv w)) page w =
  (set_i2c (page_policy (drv w) page (i2c w)).1 w,
   (page_policy (drv w) page (i2c w)).2).
Proof.
  intros Hd Hpage. unfold page_policy.
  rewrite (page_txns_length _ _ Hd Hpage).
  destruct (first_failure 7 (i2c w)) as [j|] eqn:Hfirst.
  - apply first_failure_Some in Hfirst as (Hj & Hrel & Hko).
    rewrite (show_page_retry page j) by assumption.
    set (evs := failed_events _ _ j ++ [SleepMs 10]).
    set (w1 := wadvance (Datatypes.S j) evs w).
    change (advance (Datatypes.S j) evs (i2c w)) with (i2c w1).
    change (drv w) with (drv w1) in Hd |- *.
    destruct (first_failure 7 (i2c w1)) as [j'|] eqn:Hsecond.
    + apply first_failure_Some in Hsecond as (Hj' & Hrel' & Hko').
      rewrite (send_page_failed page j') by assumption. reflexivity.
    + apply first_failure_None in Hsecond.
      rewrite send_page_ok by assumption. reflexivity.
  - apply first_failure_None in Hfirst.
    rewrite show_page_ok by assumption. reflexivity.
Qed.

(** The pages of a frame under the policy, on every bus. *)
Lemma show_pages_policy (ps : list Z) w :
  buffers_sized (drv w) -> Forall (fun page => 0 <= page < 16) ps ->
  for_ ps (show_page (buffer_ref_of (drv w))) w =
  (set_i2c (frame_policy (drv w) ps (i2c w)).1 w,
   (frame_policy (drv w) ps (i2c w)).2).
Proof.
  intros Hd Hps. revert w Hd. induction Hps as [|page ps Hpage Hps IH]; intros w Hd.
  - cbn. now rewrite set_i2c_id.
  - cbn [for_ frame_policy]. unfold bind.
    rewrite show_page_policy by assumption.
    destruct (page_policy (drv w) page (i2c w)) as [b1 [[]|e]]; cbn [fst snd];
      [|reflexivity].
    change (drv w) with (drv (set_i2c b1 w)) at 1.
    rewrite IH by exact Hd. reflexivity.
Qed.

(** A frame under the policy, on every bus. *)
Lemma show_policy w :
  buffers_sized (drv w) ->
  show w =
  (mkWorld (rotated (drv w))
     (frame_policy (rotated (drv w)) (range 16) (i2c w)).1,
   (frame_policy (rotated (drv w)) (range 16) (i2c w)).2).
Proof.
  intros Hd. rewrite show_run by exact Hd.
  destruct (rotated_fields _ Hd) as (Hd' & Hrot & _).
  set (w1 := set_drv (rotated (drv w)) w).
  replace (buffer_ref_of (drv w)) with (buffer_ref_of (drv w1))
    by (unfold buffer_ref_of; cbn; now rewrite Hrot).
  rewrite show_pages_policy; [reflexivity | exact Hd' | apply pages_in_range; lia].
Qed.

Lemma page_policy_result d page b :
  (page_policy d page b).2 = Ok tt \/ (page_policy d page b).2 = Raise OSError.
Proof.
  unfold page_policy. destruct (first_failure _ b); [|auto].
  destruct (first_failure _ _); auto.
Qed.

Lemma page_policy_raises d page b :
  (page_policy d page b).2 = Raise OSError <-> fails_twice d page b.
Proof.
  unfold page_policy, fails_twice. cbv zeta.
  destruct (first_failure _ b) as [j|]; [|split; [discriminate | intros (j & j' & H & _); discriminate]].
  destruct (first_failure _ _) as [j'|] eqn:Hsecond.
  - split; [eauto | reflexivity].
  - split; [discriminate|].
    intros (j0 & j1 & [= <-] & Hs). rewrite Hsecond in Hs. discriminate.
Qed.

Lemma frame_policy_result d pages b :
  (frame_policy d pages b).2 = Ok tt \/ (frame_policy d pages b).2 = Raise OSError.
Proof.
  revert b. induction pages as [|page pages IH]; intros b; [now left|].
  cbn [frame_policy]. pose proof (page_policy_result d page b) as Hr.
  destruct (page_policy d page b) as [b1 [[]|e]]; [apply IH|].
  cbn in *. destruct Hr as [Hr|Hr]; [discriminate | now right].
Qed.

(** The policy ends a frame with [OSError] exactly when both attempts at
    one of its pages fail, the pages before it having gone through. *)
Lemma frame_policy_raises d pages b :
  (frame_policy d pages b).2 = Raise OSError <->
  exists (k : nat) page,
    pages !! k = Some page /\
    (frame_policy d (take k pages) b).2 = Ok tt /\
    fails_twice d page (frame_policy d (take k pages) b).1.
Proof.
  revert b. induction pages as [|page pages IH]; intros b.
  - cbn. split; [discriminate | intros (k & p & Hk & _); discriminate].
  - cbn [frame_policy]. pose proof (page_policy_raises d page b) as Hp.
    pose proof (page_policy_result d page b) as Hr.
    destruct (page_policy d page b) as [b1 [[]|e]] eqn:Hpage; cbn [fst snd] in *.
    + rewrite IH. split.
      * intros (k & p & Hk & Hok & Htw). exists (Datatypes.S k), p.
        cbn [take frame_policy]. rewrite Hpage. auto.
      * intros ([|k] & p & Hk & Hok & Htw).
        -- cbn in Hk, Htw. injection Hk as <-. apply Hp in Htw. discriminate.
        -- cbn [take frame_policy] in Hok, Htw. rewrite Hpage in Hok, Htw.
           exists k, p. auto.
    + destruct Hr as [Hr|Hr]; [discriminate|]. split.
      * intros _. exists 0%nat, page. cbn. split; [reflexivity|].
        split; [reflexivity|]. now apply Hp.
      * intros _. exact Hr.
Qed.

Lemma take_range (p : nat) : (p < 16)%nat -> take p (range 16) = seqZ 0 (Z.of_nat p).
Proof.
  intros Hp. rewrite (range_split p Hp).
  rewrite take_app_length' by (rewrite length_seqZ; lia). reflexivity.
Qed.

Lemma lookup_range (k : nat) page :
  range 16 !! k = Some page <-> (k < 16)%nat /\ page = Z.of_nat k.
Proof. unfold range. rewrite lookup_seqZ. lia. Qed.

(** A frame ends with [OSError] exactly when both attempts at one of its
    pages fail. *)
Lemma frame_raises d b :
  (frame_policy d (range 16) b).2 = Raise OSError <->
  exists p : nat,
    (p < 16)%nat /\
    (frame_policy d (seqZ 0 (Z.of_nat p)) b).2 = Ok tt /\
    fails_twice d (Z.of_nat p) (frame_policy d (seqZ 0 (Z.of_nat p)) b).1.
Proof.
  rewrite frame_policy_raises. split.
  - intros (k & page & Hk & Hok & Htw). apply lookup_range in Hk as [Hk ->].
    rewrite take_range in Hok, Htw by exact Hk. eauto.
  - intros (p & Hp & Hok & Htw). exists p, (Z.of_nat p).
    rewrite take_range by exact Hp. split; [|auto]. apply lookup_range. auto.
Qed.

(** C4. The retry policy of [show], on every bus.  Whatever calls fail,
    [show] does to the bus what the policy says page by page: a page whose
    first attempt fails is followed by a 10 ms wait and sent once more
    from its first address command, and the frame goes on with the next
    page when that second attempt goes through; [show] raises [OSError],
    and nothing else, exactly when both attempts at one page fail.  In
    particular, if exactly one bus write fails during a frame, the [j]-th
    of page [p], [show] returns normally: the pages before [p] go through,
    the failed attempt at page [p] is followed by the wait and by that
    page's three address commands and data write once more, and the pages
    after [p] go through at their first attempt; and if the retry of the
    page fails as well, [show] raises [OSError] at that point. *)
Theorem show_retry_policy (w : World) :
  buffers_sized (drv w) ->
  let d := rotated (drv w) in
  let out := frame_policy d (range 16) (i2c w) in
  show w = (mkWorld d out.1, out.2) /\
  (out.2 = Ok tt \/ out.2 = Raise OSError) /\
  (out.2 = Raise OSError <->
   exists p : nat,
     (p < 16)%nat /\
     (frame_policy d (seqZ 0 (Z.of_nat p)) (i2c w)).2 = Ok tt /\
     fails_twice d (Z.of_nat p) (frame_policy d (seqZ 0 (Z.of_nat p)) (i2c w)).1) /\
  (forall p j : nat,
     (p < 16)%nat -> (j < 7)%nat ->
     let txs := page_txns (page_data d (Z.of_nat p)) (Z.of_nat p) in
     ((forall n, fails (i2c w) (calls (i2c w) + n) = true <-> n = (7 * p + j)%nat) ->
      show w =
      (wadvance (113 + j)
         (frame_events d (seqZ 0 (Z.of_nat p))
          ++ (failed_events (addr d) txs j ++ [SleepMs 10])
          ++ txn_events (addr d) txs
          ++ frame_events d (seqZ (Z.of_nat p + 1) (15 - Z.of_nat p)))
         (set_drv d w), Ok tt)) /\
     (forall j', (j' < 7)%nat ->
        (forall n, (n < 7 * p + j + 1 + j')%nat ->
           fails (i2c w) (calls (i2c w) + n) = true <-> n = (7 * p + j)%nat) ->
        fails (i2c w) (calls (i2c w) + (7 * p + j) + 1 + j') = true ->
        show w =
        (wadvance (7 * p + j + j' + 2)
           (frame_events d (seqZ 0 (Z.of_nat p))
            ++ (failed_events (addr d) txs j ++ [SleepMs 10])
            ++ failed_events (addr d) txs j')
           (set_drv d w), Raise OSError))).
Proof.
  intros Hd d out. split; [now apply show_policy|].
  split; [apply frame_policy_result|]. split; [apply frame_raises|].
  intros p j Hp Hj. exact (show_retry_cases w p j Hd Hp Hj).
Qed.

(** ** Initialization *)

Lemma for_write_cmd_txns cmds w :
  Forall (fun c => 0 <= c < 256) cmds ->
  for_ cmds write_cmd w = on_bus (run_txns (addr (drv w)) (command_txns cmds)) w.
Proof.
  intros Hcmds. revert w. induction Hcmds as [|c cmds Hc Hcmds IH]; intros w.
  - cbn. unfold on_bus, zoom. cbn. now rewrite set_i2c_id.
  - cbn [for_ command_txns fmap list_fmap]. rewrite on_bus_cons.
    apply bind_on_bus; [now apply write_cmd_txn|].
    intros b. apply (IH (set_i2c b w)).
Qed.

Lemma init_commands_bytes : Forall (fun c => 0 <= c < 256) init_commands.
Proof. repeat constructor; now compute. Qed.

Lemma txn_events_commands a cmds :
  txn_events a (command_txns cmds) = command_events a cmds.
Proof. induction cmds as [|c cmds IH]; [reflexivity|]. cbn. now f_equal. Qed.

Lemma failed_events_commands a cmds k c :
  cmds !! k = Some c ->
  failed_events a (command_txns cmds) k =
  command_events a (take k cmds) ++ [WritetoFailed a [0x80; c]].
Proof.
  intros Hk. unfold failed_events, command_txns.
  rewrite <- fmap_take, list_lookup_fmap, Hk. cbn.
  now rewrite <- txn_events_commands.
Qed.

(** The commands all go through on a bus that stays reliable. *)
Lemma init_commands_ok w :
  reliable_for 21 (i2c w) ->
  for_ init_commands write_cmd w =
  (wadvance 21 (command_events (addr (drv w)) init_commands) w, Ok tt).
Proof.
  intros Hbus. rewrite for_write_cmd_txns by apply init_commands_bytes.
  unfold on_bus, zoom. rewrite run_txns_ok by exact Hbus.
  now rewrite txn_events_commands.
Qed.

(** The first command write that fails ends [init_display]. *)
Lemma init_display_command_failed w (k : nat) c :
  init_commands !! k = Some c ->
  reliable_for k (i2c w) -> fails (i2c w) (calls (i2c w) + k) = true ->
  init_display w =
  (wadvance (Datatypes.S k)
     (command_events (addr (drv w)) (take k init_commands)
      ++ [WritetoFailed (addr (drv w)) [0x80; c]]) w,
   Raise OSError).
Proof.
  intros Hk Hbus Hko. unfold init_display, bind at 1.
  rewrite for_write_cmd_txns by apply init_commands_bytes.
  unfold on_bus, zoom. rewrite (run_txns_failed _ _ k); auto.
  - now rewrite (failed_events_commands _ _ _ c Hk).
  - apply lookup_lt_Some in Hk. unfold command_txns. now rewrite length_fmap.
Qed.

Lemma fresh_instance_sized a rot ext_vcc : buffers_sized (fresh_instance a rot ext_vcc).
Proof.
  unfold buffers_sized. destruct rot; cbn; repeat split; try reflexivity.
  - eauto.
  - intros pb [= <-]. reflexivity.
  - intros [pb Hpb]. discriminate.
  - discriminate.
  - discriminate.
Qed.

Lemma fresh_instance_cleared a rot ext_vcc :
  fb_fill 0 (fresh_instance a rot ext_vcc) = fresh_instance a rot ext_vcc.
Proof. destruct rot; reflexivity. Qed.

Lemma fresh_instance_rotated a rot ext_vcc :
  rotated (fresh_instance a rot ext_vcc) = fresh_instance a rot ext_vcc.
Proof. destruct rot; [vm_compute|]; reflexivity. Qed.

Lemma SH1107_init_fresh b a rot ext_vcc :
  SH1107_init b a rot ext_vcc = init_display (mkWorld (fresh_instance a rot ext_vcc) b).
Proof. destruct rot; reflexivity. Qed.

(** After the commands, [init_display] clears the buffer and shows it. *)
Lemma init_display_frame b a rot ext_vcc :
  reliable_for 21 b ->
  init_display (mkWorld (fresh_instance a rot ext_vcc) b) =
  show (mkWorld (fresh_instance a rot ext_vcc)
          (advance 21 (command_events a init_commands) b)).
Proof.
  intros Hbus. unfold init_display, bind at 1.
  rewrite init_commands_ok by exact Hbus.
  unfold bind, on_drv, zoom, modify. cbn [drv wadvance set_i2c].
  now rewrite fresh_instance_cleared.
Qed.

(** C7. On a bus that stays reliable, construction sends the 21
    initialization command bytes in their fixed order, each as a command
    write, leaves the buffer cleared, and then transfers one full frame:
    for the pages 0 to 15 in ascending order the page-address command
    [0xB0 | page], column-low [0x00], column-high [0x10], and the 64 bytes
    of that page of the active buffer in four data writes. *)
Theorem construction_sequence (b : Bus) (a : Z) (rot ext_vcc : bool) :
  reliable_for 133 b ->
  let d := fresh_instance a rot ext_vcc in
  SH1107_init b a rot ext_vcc =
    (mkWorld d
       (advance 133
          (((fun c => Writeto a [0x80; c]) <$>
              [0xAE; 0xDC; 0x00; 0x81; 0x2F; 0x20; 0xA0; 0xC0; 0xA8; 0x7F;
               0xD3; 0x60; 0xD5; 0x51; 0xD9; 0x22; 0xDB; 0x35; 0xA4; 0xA6; 0xAF])
           ++ flat_map
                (fun page =>
                   [Writeto a [0x80; Z.lor 0xB0 page];
                    Writeto a [0x80; 0x00];
                    Writeto a [0x80; 0x10]]
                   ++ flat_map (fun ch => [Writeto a (0x40 :: ch); SleepUs 50])
                        (chunks (page_data d page))
                   ++ [SleepUs 100])
                (range 16))
          b),
     Ok tt) /\
  buffer d = replicate 1024 0 /\
  Forall (fun page =>
            page_data d page = replicate 64 0 /\
            concat (chunks (page_data d page)) = page_data d page /\
            length (chunks (page_data d page)) = 4%nat)
    (range 16).
Proof.
  intros Hbus d. split; [|split].
  - rewrite SH1107_init_fresh, init_display_frame
      by (eapply reliable_for_le; [|exact Hbus]; lia).
    rewrite show_ok.
    + cbn [drv]. fold d. unfold d at 1 2. rewrite fresh_instance_rotated. fold d.
      unfold wadvance, set_i2c, set_drv. cbn [drv i2c]. rewrite advance_advance.
      f_equal. f_equal. f_equal. f_equal.
      unfold frame_events, page_events, page_txns, txn_events.
      apply flat_map_ext. intros page. cbn [app flat_map fst snd addr d fresh_instance].
      do 3 f_equal. f_equal. apply (txn_events_data a).
    + apply fresh_instance_sized.
    + apply (reliable_for_advance 21 112). exact Hbus.
  - reflexivity.
  - unfold d. destruct rot; vm_compute; repeat constructor.
Qed.

(** A failing initialization command, a frame of the construction with a
    single failing write, and one in which the retry fails as well. *)
Lemma init_errors_cases (b : Bus) (a : Z) (rot ext_vcc : bool) :
  let d := fresh_instance a rot ext_vcc in
  (forall (k : nat) (c : Z),
     init_commands !! k = Some c ->
     reliable_for k b -> fails b (calls b + k) = true ->
     SH1107_init b a rot ext_vcc =
     (mkWorld d
        (advance (Datatypes.S k)
           (command_events a (take k init_commands) ++ [WritetoFailed a [0x80; c]])
           b),
      Raise OSError)) /\
  (forall p j : nat,
     (p < 16)%nat -> (j < 7)%nat ->
     let txs := page_txns (page_data d (Z.of_nat p)) (Z.of_nat p) in
     ((forall n, fails b (calls b + n) = true <-> n = (21 + 7 * p + j)%nat) ->
      SH1107_init b a rot ext_vcc =
      (mkWorld d
         (advance (134 + j)
            (command_events a init_commands
             ++ frame_events d (seqZ 0 (Z.of_nat p))
             ++ (failed_events a txs j ++ [SleepMs 10])
             ++ txn_events a txs
             ++ frame_events d (seqZ (Z.of_nat p + 1) (15 - Z.of_nat p)))
            b),
       Ok tt)) /\
     (forall j', (j' < 7)%nat ->
        (forall n, (n < 21 + 7 * p + j + 1 + j')%nat ->
           fails b (calls b + n) = true <-> n = (21 + 7 * p + j)%nat) ->
        fails b (calls b + (21 + 7 * p + j + 1 + j')) = true ->
        SH1107_init b a rot ext_vcc =
        (mkWorld d
           (advance (21 + 7 * p + j + j' + 2)
              (command_events a init_commands
               ++ frame_events d (seqZ 0 (Z.of_nat p))
               ++ (failed_events a txs j ++ [SleepMs 10])
               ++ failed_events a txs j')
              b),
         Raise OSError))).
Proof.
  intros d. split.
  - intros k c Hk Hbus Hko. rewrite SH1107_init_fresh.
    exact (init_display_command_failed (mkWorld d b) k c Hk Hbus Hko).
  - intros p j Hp Hj txs. split.
    + intros Hone.
      assert (Hother : forall n, n <> (21 + 7 * p + j)%nat ->
                                 fails b (calls b + n) = false).
      { intros n Hne. destruct (fails b (calls b + n)) eqn:Hf; [|reflexivity].
        apply Hone in Hf. contradiction. }
      rewrite SH1107_init_fresh, init_display_frame
        by (intros i Hi; apply Hother; lia).
      rewrite (show_one_failure _ p j).
      * pose proof (fresh_instance_rotated a rot ext_vcc) as Hrot. fold d in Hrot.
        cbn [drv]. fold d. rewrite !Hrot. fold txs.
        unfold wadvance, set_i2c, set_drv. cbn [drv i2c]. rewrite advance_advance.
        reflexivity.
      * apply fresh_instance_sized.
      * exact Hp.
      * exact Hj.
      * intros i Hi. cbn. rewrite <- Nat.add_assoc. apply Hother. lia.
      * cbn. rewrite <- Nat.add_assoc. apply Hone. lia.
      * intros i Hi. cbn. rewrite <- !Nat.add_assoc. apply Hother. lia.
    + intros j' Hj' Hone Hko'.
      assert (Hother : forall n, (n < 21 + 7 * p + j + 1 + j')%nat ->
                                 n <> (21 + 7 * p + j)%nat ->
                                 fails b (calls b + n) = false).
      { intros n Hn Hne. destruct (fails b (calls b + n)) eqn:Hf; [|reflexivity].
        apply Hone in Hf; [contradiction | exact Hn]. }
      rewrite SH1107_init_fresh, init_display_frame
        by (intros i Hi; apply Hother; lia).
      rewrite (show_two_failures _ p j j').
      * pose proof (fresh_instance_rotated a rot ext_vcc) as Hrot. fold d in Hrot.
        cbn [drv]. fold d. rewrite !Hrot. fold txs.
        unfold wadvance, set_i2c, set_drv. cbn [drv i2c]. rewrite advance_advance.
        match goal with |- (mkWorld _ (advance ?n _ _), _) = _ =>
          replace n with (21 + 7 * p + j + j' + 2)%nat by lia
        end.
        reflexivity.
      * apply fresh_instance_sized.
      * exact Hp.
      * exact Hj.
      * exact Hj'.
      * intros i Hi. cbn. rewrite <- Nat.add_assoc. apply Hother; lia.
      * cbn. rewrite <- Nat.add_assoc. apply Hone; lia.
      * intros i Hi. cbn. rewrite <- !Nat.add_assoc. apply Hother; lia.
      * cbn. rewrite <- Hko'. f_equal. lia.
Qed.

Lemma run_txns_policy a txs b :
  run_txns a txs b =
  match first_failure (length txs) b with
  | None => (advance (length txs) (txn_events a txs) b, Ok tt)
  | Some j => (advance (Datatypes.S j) (failed_events a txs j) b, Raise OSError)
  end.
Proof.
  destruct (first_failure (length txs) b) as [j|] eqn:Hfirst.
  - apply first_failure_Some in Hfirst as (Hj & Hrel & Hko).
    now apply run_txns_failed.
  - apply first_failure_None in Hfirst. now apply run_txns_ok.
Qed.

(** Construction on every bus. *)
Lemma SH1107_init_policy b a rot ext_vcc :
  let d := fresh_instance a rot ext_vcc in
  SH1107_init b a rot ext_vcc = (mkWorld d (init_policy d b).1, (init_policy d b).2).
Proof.
  intros d. rewrite SH1107_init_fresh. fold d. unfold init_policy.
  destruct (first_failure (length init_commands) b) as [k|] eqn:Hfirst.
  - unfold init_display, bind at 1.
    rewrite for_write_cmd_txns by apply init_commands_bytes.
    unfold on_bus, zoom. cbn [drv i2c]. rewrite run_txns_policy.
    replace (length (command_txns init_commands)) with (length init_commands)
      by (unfold command_txns; now rewrite length_fmap).
    rewrite Hfirst. reflexivity.
  - apply first_failure_None in Hfirst.
    unfold d. rewrite init_display_frame by exact Hfirst. fold d.
    rewrite show_policy by apply fresh_instance_sized.
    cbn [drv i2c]. unfold d. rewrite fresh_instance_rotated. reflexivity.
Qed.

(** C8 (as the code has it), on every bus.  Construction does what the
    policy says: the first of the 21 initialization command writes that
    fails is fatal, construction raises [OSError] at that write and
    nothing is sent again; when the 21 commands go through, the frame
    transfer that ends initialization falls under the retry policy of
    [show].  So construction raises [OSError], and nothing else, exactly
    when a command write fails or both attempts at one page of the frame
    fail.  In particular, when a write of the frame is the only one that
    fails, the page is sent once more after the 10 ms wait and
    construction returns normally; when the retry of the page fails as
    well, construction raises [OSError]. *)
Theorem init_errors (b : Bus) (a : Z) (rot ext_vcc : bool) :
  let d := fresh_instance a rot ext_vcc in
  let out := init_policy d b in
  let b21 := advance 21 (command_events a init_commands) b in
  SH1107_init b a rot ext_vcc = (mkWorld d out.1, out.2) /\
  (out.2 = Ok tt \/ out.2 = Raise OSError) /\
  (out.2 = Raise OSError <->
   (exists k, first_failure 21 b = Some k) \/
   (first_failure 21 b = None /\
    exists p : nat,
      (p < 16)%nat /\
      (frame_policy d (seqZ 0 (Z.of_nat p)) b21).2 = Ok tt /\
      fails_twice d (Z.of_nat p) (frame_policy d (seqZ 0 (Z.of_nat p)) b21).1)) /\
  (forall (k : nat) (c : Z),
     init_commands !! k = Some c ->
     reliable_for k b -> fails b (calls b + k) = true ->
     SH1107_init b a rot ext_vcc =
     (mkWorld d
        (advance (Datatypes.S k)
           (command_events a (take k init_commands) ++ [WritetoFailed a [0x80; c]])
           b),
      Raise OSError)) /\
  (forall p j : nat,
     (p < 16)%nat -> (j < 7)%nat ->
     let txs := page_txns (page_data d (Z.of_nat p)) (Z.of_nat p) in
     ((forall n, fails b (calls b + n) = true <-> n = (21 + 7 * p + j)%nat) ->
      SH1107_init b a rot ext_vcc =
      (mkWorld d
         (advance (134 + j)
            (command_events a init_commands
             ++ frame_events d (seqZ 0 (Z.of_nat p))
             ++ (failed_events a txs j ++ [SleepMs 10])
             ++ txn_events a txs
             ++ frame_events d (seqZ (Z.of_nat p + 1) (15 - Z.of_nat p)))
            b),
       Ok tt)) /\
     (forall j', (j' < 7)%nat ->
        (forall n, (n < 21 + 7 * p + j + 1 + j')%nat ->
           fails b (calls b + n) = true <-> n = (21 + 7 * p + j)%nat) ->
        fails b (calls b + (21 + 7 * p + j + 1 + j')) = true ->
        SH1107_init b a rot ext_vcc =
        (mkWorld d
           (advance (21 + 7 * p + j + j' + 2)
              (command_events a init_commands
               ++ frame_events d (seqZ 0 (Z.of_nat p))
               ++ (failed_events a txs j ++ [SleepMs 10])
               ++ failed_events a txs j')
              b),
         Raise OSError))).
Proof.
  intros d out b21. split; [apply SH1107_init_policy|].
  assert (Hout : out = match first_failure 21 b with
                       | Some k =>
                           (advance (Datatypes.S k)
                              (failed_events (addr d) (command_txns init_commands) k) b,
                            Raise OSError)
                       | None => frame_policy d (range 16) b21
                       end).
  { unfold out, init_policy, b21, d. destruct rot; reflexivity. }
  split; [|split].
  - rewrite Hout. destruct (first_failure 21 b); [now right|].
    apply frame_policy_result.
  - rewrite Hout. destruct (first_failure 21 b) as [k|].
    + split; [eauto | reflexivity].
    + rewrite frame_raises. split; [auto|].
      intros [(k & Hk)|(_ & Hp)]; [discriminate | exact Hp].
  - exact (init_errors_cases b a rot ext_vcc).
Qed.

(** C8 (as stated) fails: with a bus whose call number 21 fails, the first
    write of the frame transfer inside construction raises [OSError], the
    driver waits, sends the same command again, and construction returns
    normally instead of propagating the error. *)
Lemma init_error_is_retried :
  (SH1107_init (flaky_bus 21) 0x3C true false).2 = Ok tt /\
  take 3 (drop 21 (trace (i2c (SH1107_init (flaky_bus 21) 0x3C true false).1))) =
    [WritetoFailed 0x3C [0x80; 0xB0]; SleepMs 10; Writeto 0x3C [0x80; 0xB0]].
Proof. split; vm_compute; reflexivity. Qed.

(** ** Shapes on concrete inputs *)

(** C2 (the code at the claim's input). [triangle(0,0, 4,0, 0,4, 1, True)]
    on a cleared buffer returns normally and sets every pixel with
    [x >= 0], [y >= 1], [x + y <= 4] and pixel [(0, 0)], leaves [(4, 4)]
    clear, but also leaves [(1, 0)], [(2, 0)], [(3, 0)] and [(4, 0)] clear:
    on the row of the two top vertices only [x0] is drawn. *)
Theorem triangle_fill_flat_top `{LineRaster} (rot : bool) :
  let r := triangle 0 0 4 0 0 4 1 true (fresh_instance 0x3C rot false) in
  r.2 = Ok tt /\
  pixel_lit r.1 0 0 = true /\
  (forall x, 1 <= x <= 4 -> pixel_lit r.1 x 0 = false) /\
  (forall x y, 0 <= x -> 1 <= y -> x + y <= 4 -> pixel_lit r.1 x y = true) /\
  pixel_lit r.1 4 4 = false.
Proof.
  intros r. subst r. split; [destruct rot; reflexivity|].
  split; [destruct rot; vm_compute; reflexivity|].
  split; [|split; [|destruct rot; vm_compute; reflexivity]].
  - intros x Hx.
    assert (Hc : x = 1 \/ x = 2 \/ x = 3 \/ x = 4) by lia.
    destruct rot; destruct Hc as [->|[->|[->| ->]]]; vm_compute; reflexivity.
  - intros x y Hx Hy Hxy.
    assert (Hc : (y = 1 /\ (x = 0 \/ x = 1 \/ x = 2 \/ x = 3)) \/
                 (y = 2 /\ (x = 0 \/ x = 1 \/ x = 2)) \/
                 (y = 3 /\ (x = 0 \/ x = 1)) \/
                 (y = 4 /\ x = 0)) by lia.
    destruct rot;
      destruct Hc as [[-> Hc]|[[-> Hc]|[[-> Hc]|[-> ->]]]];
      repeat (destruct Hc as [->|Hc]); subst; vm_compute; reflexivity.
Qed.

(** C3 (the code at the failing input). A filled ellipse of vertical
    radius 0 raises [ZeroDivisionError] before it draws anything, on every
    surface and whatever the float arithmetic. *)
Theorem ellipse_fill_zero_radius_raises {S} `{Surface S} {F} `{PyFloat F}
    (x0 y0 a c : Z) (s : S) :
  ellipse x0 y0 a 0 c true s = (s, Raise ZeroDivisionError).
Proof. reflexivity. Qed.

(** ** The theorems at concrete inputs *)

Lemma rotate_buffer_bits_witness :
  length (buffer lit_instance) = 1024%nat /\
  physical_buffer lit_instance = Some (replicate 1024 0) /\
  exists pb',
    _rotate_buffer lit_instance = (set_physical_buffer pb' lit_instance, Ok tt) /\
    pb' = lone_pixel 64 0 127.
Proof.
  split; [reflexivity|]. split; [reflexivity|].
  destruct (rotate_buffer_bits lit_instance (replicate 1024 0)
              eq_refl eq_refl eq_refl)
    as (pb' & Hrun & _ & _ & _ & Hlone & _).
  exists pb'. split; [exact Hrun|]. apply Hlone. reflexivity.
Defined.

Lemma show_retry_policy_witness :
  (show (mkWorld (fresh_instance 0x3C true false) (flaky_bus 23))).2 = Ok tt /\
  (show (mkWorld (fresh_instance 0x3C true false) (broken_bus 23))).2 = Raise OSError /\
  (let r := show (mkWorld (fresh_instance 0x3C true false) (failing_bus [6; 20])%nat) in
   r.2 = Ok tt /\ calls (i2c r.1) = 126%nat).
Proof.
  split; [|split].
  - destruct (show_retry_policy
                (mkWorld (fresh_instance 0x3C true false) (flaky_bus 23))
                (fresh_instance_sized _ _ _)) as (_ & _ & _ & Hcases).
    destruct (Hcases 3%nat 2%nat ltac:(lia) ltac:(lia)) as [Hone _].
    rewrite Hone; [reflexivity|]. intros n. apply Nat.eqb_eq.
  - destruct (show_retry_policy
                (mkWorld (fresh_instance 0x3C true false) (broken_bus 23))
                (fresh_instance_sized _ _ _)) as (_ & _ & _ & Hcases).
    destruct (Hcases 3%nat 2%nat ltac:(lia) ltac:(lia)) as [_ Htwo].
    rewrite (Htwo 0%nat); [reflexivity | lia | | reflexivity].
    intros n Hn. cbn. rewrite orb_true_iff, !Nat.eqb_eq. lia.
  - destruct (show_retry_policy
                (mkWorld (fresh_instance 0x3C true false) (failing_bus [6; 20])%nat)
                (fresh_instance_sized _ _ _)) as (Hrun & _).
    cbv zeta. rewrite Hrun. vm_compute. split; reflexivity.
Defined.

Lemma write_data_chunked_witness :
  reliable_for 4 reliable_bus /\
  (write_data (replicate 64 0xFF)
     (mkWorld (fresh_instance 0x3C true false) reliable_bus)).2 = Ok tt /\
  length (chunks (replicate 64 0xFF)) = 4%nat.
Proof.
  assert (Hbus : reliable_for 4 reliable_bus) by (intros i Hi; reflexivity).
  split; [exact Hbus|].
  destruct (write_data_chunked (replicate 64 0xFF)
              (mkWorld (fresh_instance 0x3C true false) reliable_bus) Hbus)
    as (Hrun & _ & _ & Hpage).
  split; [now rewrite Hrun|].
  destruct (Hpage eq_refl) as [Hchunks _]. now rewrite Hchunks.
Defined.

Lemma construction_sequence_witness :
  reliable_for 133 reliable_bus /\
  (SH1107_init reliable_bus 0x3C true false).2 = Ok tt /\
  calls (i2c (SH1107_init reliable_bus 0x3C true false).1) = 133%nat.
Proof.
  assert (Hbus : reliable_for 133 reliable_bus) by (intros i Hi; reflexivity).
  split; [exact Hbus|].
  destruct (construction_sequence reliable_bus 0x3C true false Hbus) as [Hrun _].
  rewrite Hrun. split; reflexivity.
Defined.

Lemma init_errors_witness :
  (SH1107_init (flaky_bus 5) 0x3C true false).2 = Raise OSError /\
  calls (i2c (SH1107_init (flaky_bus 5) 0x3C true false).1) = 6%nat /\
  (SH1107_init (flaky_bus 21) 0x3C true false).2 = Ok tt /\
  (SH1107_init (broken_bus 21) 0x3C true false).2 = Raise OSError /\
  (let r := SH1107_init (failing_bus [27; 41])%nat 0x3C true false in
   r.2 = Ok tt /\ calls (i2c r.1) = 147%nat).
Proof.
  split; [|split; [|split; [|split]]].
  - destruct (init_errors (flaky_bus 5) 0x3C true false) as (_ & _ & _ & Hcmd & _).
    rewrite (Hcmd 5%nat 0x20); [reflexivity | reflexivity | | reflexivity].
    intros i Hi. apply Nat.eqb_neq. cbn. lia.
  - destruct (init_errors (flaky_bus 5) 0x3C true false) as (_ & _ & _ & Hcmd & _).
    rewrite (Hcmd 5%nat 0x20); [reflexivity | reflexivity | | reflexivity].
    intros i Hi. apply Nat.eqb_neq. cbn. lia.
  - destruct (init_errors (flaky_bus 21) 0x3C true false) as (_ & _ & _ & _ & Hpage).
    destruct (Hpage 0%nat 0%nat ltac:(lia) ltac:(lia)) as [Hone _].
    rewrite Hone; [reflexivity|]. intros n. apply Nat.eqb_eq.
  - destruct (init_errors (broken_bus 21) 0x3C true false) as (_ & _ & _ & _ & Hpage).
    destruct (Hpage 0%nat 0%nat ltac:(lia) ltac:(lia)) as [_ Htwo].
    rewrite (Htwo 0%nat); [reflexivity | lia | | reflexivity].
    intros n Hn. cbn. rewrite orb_true_iff, !Nat.eqb_eq. lia.
  - destruct (init_errors (failing_bus [27; 41])%nat 0x3C true false) as (Hrun & _).
    cbv zeta. rewrite Hrun. vm_compute. split; reflexivity.
Defined.

Lemma buffer_lengths_invariant_witness :
  let w := (@run_op end_points spec_float binary64 (OpEllipse 32 32 10 5 1 true)
              (SH1107_init reliable_bus 0x3C true false).1).1 in
  @reachable end_points spec_float binary64 w /\
  length (buffer (drv w)) = 1024%nat /\
  rotate (drv w) = true.
Proof.
  intros w.
  assert (Hw : @reachable end_points spec_float binary64 w)
    by (apply reach_op, reach_init).
  split; [exact Hw|].
  destruct (@buffer_lengths_invariant end_points spec_float binary64 w Hw)
    as (_ & Hlen & _ & _).
  split; [exact Hlen | reflexivity].
Defined.

Lemma circle_outline_within_fill_witness :
  plotted (circle 10 10 5 1 false ([] : list draw_call)).1 15 10 = true /\
  plotted (circle 10 10 5 1 true ([] : list draw_call)).1 15 10 = true.
Proof.
  split; [reflexivity|]. apply circle_outline_within_fill. reflexivity.
Defined.

(** * Further properties of the code *)

(** ** Simple commands *)

Lemma write_cmd_ok cmd w :
  0 <= cmd < 256 -> fails (i2c w) (calls (i2c w)) = false ->
  write_cmd cmd w = (wadvance 1 [Writeto (addr (drv w)) [0x80; cmd]] w, Ok tt).
Proof.
  intros Hcmd Hok. rewrite write_cmd_txn by exact Hcmd. unfold on_bus, zoom.
  rewrite run_txns_ok; [reflexivity|].
  intros i Hi. cbn in Hi. replace i with 0%nat by lia. now rewrite Nat.add_0_r.
Qed.

Lemma write_cmd_failed cmd w :
  0 <= cmd < 256 -> fails (i2c w) (calls (i2c w)) = true ->
  write_cmd cmd w =
  (wadvance 1 [WritetoFailed (addr (drv w)) [0x80; cmd]] w, Raise OSError).
Proof.
  intros Hcmd Hko. rewrite write_cmd_txn by exact Hcmd. unfold on_bus, zoom.
  rewrite (run_txns_failed _ _ 0); [reflexivity | cbn; lia | |].
  - intros i Hi. lia.
  - now rewrite Nat.add_0_r.
Qed.




(** X2. [contrast(value)] with a byte level on a bus that takes two writes:
    the opcode, then the level, each as its own command write. *)
Theorem contrast_sends_level (value : Z) (w : World) :
  0 <= value < 256 ->
  reliable_for 2 (i2c w) ->
  contrast value w =
  (wadvance 2 [Writeto (addr (drv w)) [0x80; 0x81];
               Writeto (addr (drv w)) [0x80; value]] w, Ok tt).
Proof.
  intros Hvalue Hbus. unfold contrast, bind.
  rewrite write_cmd_ok;
    [|now compute | rewrite <- (Nat.add_0_r (calls _)); apply Hbus; lia].
  rewrite write_cmd_ok; [|exact Hvalue | apply (Hbus 1%nat); lia].
  now rewrite wadvance_wadvance.
Qed.

Lemma contrast_sends_level_witness :
  (contrast 0xCF (mkWorld (fresh_instance 0x3C true false) reliable_bus)).2 = Ok tt.
Proof.
  rewrite contrast_sends_level; [reflexivity | lia | intros i Hi; reflexivity].
Defined.

Lemma land_1_odd n : Z.land n 1 = if Z.odd n then 1 else 0.
Proof.
  change 1 with (Z.ones 1) at 1. rewrite Z.land_ones by lia.
  rewrite Zmod_odd. reflexivity.
Qed.

(** X3. [invert(flag)] looks only at the lowest bit of its argument: it sends
    [0xA7] for an odd one (so for [True]) and [0xA6] for an even one, then
    waits 10 ms. *)
Theorem invert_sends_parity (inv : Z) (w : World) :
  fails (i2c w) (calls (i2c w)) = false ->
  invert inv w =
  (wadvance 1 [Writeto (addr (drv w)) [0x80; if Z.odd inv then 0xA7 else 0xA6];
               SleepMs 10] w, Ok tt).
Proof.
  intros Hok. unfold invert, bind. rewrite land_1_odd.
  rewrite write_cmd_ok; [|destruct (Z.odd inv); now compute | exact Hok].
  rewrite sleep_ms_run, wadvance_wadvance.
  destruct (Z.odd inv); reflexivity.
Qed.

Lemma invert_sends_parity_witness :
  invert (-3) (mkWorld (fresh_instance 0x3C true false) reliable_bus) =
  (mkWorld (fresh_instance 0x3C true false)
     (mkBus (fun _ => false) 1 [Writeto 0x3C [0x80; 0xA7]; SleepMs 10]), Ok tt).
Proof. rewrite invert_sends_parity; reflexivity. Defined.

(** ** The frame on the wire *)

Lemma data_payload_app evs1 evs2 :
  data_payload (evs1 ++ evs2) = data_payload evs1 ++ data_payload evs2.
Proof. unfold data_payload. apply flat_map_app. Qed.

Lemma data_payload_chunks a (cs : list (list Z)) :
  data_payload (flat_map (fun ch => [Writeto a (0x40 :: ch); SleepUs 50]) cs) =
  concat cs.
Proof.
  induction cs as [|ch cs IH]; [reflexivity|].
  cbn [flat_map concat]. rewrite data_payload_app, IH. cbn. now rewrite app_nil_r.
Qed.

Lemma txn_events_app a txs1 txs2 :
  txn_events a (txs1 ++ txs2) = txn_events a txs1 ++ txn_events a txs2.
Proof. unfold txn_events. apply flat_map_app. Qed.

Lemma data_payload_page d page :
  data_payload (page_events d page) = page_data d page.
Proof.
  unfold page_events, page_txns. rewrite txn_events_app, data_payload_app.
  rewrite txn_events_data, data_payload_chunks, chunks_concat.
  reflexivity.
Qed.

Lemma data_payload_frame d (n : nat) :
  data_payload (frame_events d (seqZ 0 (Z.of_nat n))) =
  take (64 * n) (active_buffer d).
Proof.
  induction n as [|n IH]; [reflexivity|].
  rewrite seqZ_S. unfold frame_events in *. rewrite flat_map_app, data_payload_app, IH.
  cbn [flat_map]. rewrite app_nil_r, data_payload_app, data_payload_page.
  cbn [data_payload flat_map]. rewrite app_nil_r.
  unfold page_data, slice.
  replace (Z.to_nat ((0 + Z.of_nat n) * 64 + 64 - (0 + Z.of_nat n) * 64)) with 64%nat by lia.
  replace (Z.to_nat ((0 + Z.of_nat n) * 64)) with (64 * n)%nat by lia.
  rewrite take_take_drop. f_equal. lia.
Qed.

(** The finished rotation, bit by bit. *)
Lemma rotated_bits buf pb :
  rotated_so_far buf 8 0 0 pb ->
  length pb = 1024%nat /\
  (forall p c b, 0 <= p < 8 -> 0 <= c < 128 -> 0 <= b < 8 ->
     bit_of pb (dst_index p c b) (dst_bit c) = bit_of buf (p * 128 + c) b) /\
  (forall i k, 0 <= i < 1024 -> 0 <= k -> bit_of pb i k = true ->
     exists p c b,
       0 <= p < 8 /\ 0 <= c < 128 /\ 0 <= b < 8 /\
       bit_of buf (p * 128 + c) b = true /\
       i = dst_index p c b /\ k = dst_bit c).
Proof.
  intros (Hlen & Hbytes & Hbits). split; [exact Hlen|]. split.
  - intros p c b Hp Hc Hb.
    destruct (dst_index_range p c b Hp Hc Hb) as [Hidx Hdbit].
    destruct (bit_of buf (p * 128 + c) b) eqn:Hsrc.
    + apply Hbits; [lia | lia |]. exists p, c, b.
      repeat split; try lia; try assumption. unfold visited. lia.
    + destruct (bit_of pb (dst_index p c b) (dst_bit c)) eqn:Hdst; [|reflexivity].
      apply Hbits in Hdst; [|lia..].
      destruct Hdst as (p' & c' & b' & Hp' & Hc' & Hb' & _ & Hs' & Hi' & Hk').
      destruct (dst_injective p c b p' c' b') as (-> & -> & ->); try assumption.
      congruence.
  - intros i k Hi Hk Hset. apply Hbits in Hset; [|lia..].
    destruct Hset as (p & c & b & Hp & Hc & Hb & _ & Hs & Hi' & Hk').
    exists p, c, b. auto 10.
Qed.

(** X4. On a bus that stays reliable, [show] makes 112 bus calls and the
    bytes of its 64 data writes, put end to end, are the frame: for a
    portrait instance the logical buffer itself; for a landscape instance
    the 1024 bytes that hold every logical bit at its rotated place, bit
    [(127 - c) mod 8] of byte [(127 - c) / 8 * 64 + 8p + b] for bit [b] of
    byte [c] of page [p], and no other set bit.  They are also what the
    physical buffer holds afterwards, and the logical buffer is left as it
    was. *)
Theorem show_sends_buffer (w : World) :
  buffers_sized (drv w) ->
  reliable_for 112 (i2c w) ->
  exists evs d',
    show w = (wadvance 112 evs (set_drv d' w), Ok tt) /\
    data_payload evs = active_buffer d' /\
    buffer d' = buffer (drv w) /\
    (rotate (drv w) = false -> d' = drv w /\ data_payload evs = buffer (drv w)) /\
    (rotate (drv w) = true ->
     length (data_payload evs) = 1024%nat /\
     (forall p c b, 0 <= p < 8 -> 0 <= c < 128 -> 0 <= b < 8 ->
        bit_of (data_payload evs) (dst_index p c b) (dst_bit c)
        = bit_of (buffer (drv w)) (p * 128 + c) b) /\
     (forall i k, 0 <= i < 1024 -> 0 <= k -> bit_of (data_payload evs) i k = true ->
        exists p c b,
          0 <= p < 8 /\ 0 <= c < 128 /\ 0 <= b < 8 /\
          bit_of (buffer (drv w)) (p * 128 + c) b = true /\
          i = dst_index p c b /\ k = dst_bit c)).
Proof.
  intros Hd Hbus. destruct (rotated_fields _ Hd) as (Hd' & Hrot & _ & Hbuf).
  exists (frame_events (rotated (drv w)) (range 16)), (rotated (drv w)).
  assert (Hpay : data_payload (frame_events (rotated (drv w)) (range 16)) =
                 active_buffer (rotated (drv w))).
  { change (range 16) with (seqZ 0 (Z.of_nat 16)). rewrite data_payload_frame.
    apply take_ge. rewrite (active_buffer_length _ Hd'). lia. }
  split; [now apply show_ok|]. split; [exact Hpay|]. split; [exact Hbuf|].
  split.
  - intros Hportrait. rewrite Hpay. unfold rotated, active_buffer.
    rewrite Hportrait. cbv iota. rewrite Hportrait. split; reflexivity.
  - intros Hland. rewrite Hpay.
    destruct Hd as (_ & Hlen & Hex & Hpb).
    destruct (proj2 Hex Hland) as [pb Hphys].
    destruct (rotate_buffer_run (drv w) Hlen pb Hphys (Hpb pb Hphys))
      as (pb' & Hrun & Hrotated).
    assert (Hact : active_buffer (rotated (drv w)) = pb').
    { unfold active_buffer. rewrite Hrot, Hland. unfold rotated.
      rewrite Hland, Hrun. reflexivity. }
    rewrite Hact. now apply rotated_bits.
Qed.

Lemma show_sends_buffer_witness :
  buffers_sized lit_instance /\
  exists evs d',
    show (mkWorld lit_instance reliable_bus) =
      (wadvance 112 evs (set_drv d' (mkWorld lit_instance reliable_bus)), Ok tt) /\
    bit_of (data_payload evs) (dst_index 0 0 0) (dst_bit 0) = true.
Proof.
  assert (Hd : buffers_sized lit_instance).
  { apply buffers_sized_set_buffer; [reflexivity | apply fresh_instance_sized]. }
  split; [exact Hd|].
  destruct (show_sends_buffer (mkWorld lit_instance reliable_bus) Hd
              ltac:(intros i Hi; reflexivity)) as (evs & d' & Hrun & _ & _ & _ & Hland).
  exists evs, d'. split; [exact Hrun|].
  destruct (Hland eq_refl) as (_ & Hbits & _).
  rewrite (Hbits 0 0 0) by lia. reflexivity.
Defined.

(** ** Any bus *)

Lemma run_txns_any a txs b :
  exists k evs r,
    run_txns a txs b = (advance k evs b, r) /\ (k <= length txs)%nat /\
    (r = Ok tt \/ r = Raise OSError).
Proof.
  revert b. induction txs as [|t txs IH]; intros b.
  - exists 0%nat, [], (Ok tt). rewrite advance_0. cbn. auto.
  - unfold run_txns. cbn [for_]. unfold bind at 1 2.
    destruct (fails b (calls b)) eqn:Hf.
    + rewrite writeto_failed by exact Hf.
      exists 1%nat, [WritetoFailed a t.1], (Raise OSError). cbn. split; [reflexivity|].
      split; [lia | auto].
    + rewrite writeto_ok by exact Hf. rewrite emit_run, advance_advance.
      fold (run_txns a txs).
      destruct (IH (advance (1 + 0) ([Writeto a t.1] ++ t.2) b))
        as (k & evs & r & Hrun & Hk & Hr).
      rewrite Hrun, advance_advance. exists (1 + 0 + k)%nat, (([Writeto a t.1] ++ t.2) ++ evs), r.
      split; [reflexivity|]. split; [cbn; lia | exact Hr].
Qed.

Lemma send_page_any page w :
  buffers_sized (drv w) -> 0 <= page < 16 ->
  bus_bounded 7 (send_page (buffer_ref_of (drv w)) page) w.
Proof.
  intros Hd Hpage. unfold bus_bounded, buffer_ref_of.
  rewrite send_page_txns by (auto using sized_physical).
  unfold on_bus, zoom.
  destruct (run_txns_any (addr (drv w)) (page_txns (page_data (drv w) page) page) (i2c w))
    as (k & evs & r & Hrun & Hk & Hr).
  rewrite Hrun. rewrite (page_txns_length _ _ Hd Hpage) in Hk.
  exists k, evs, r. auto.
Qed.

Lemma show_page_any page w :
  buffers_sized (drv w) -> 0 <= page < 16 ->
  bus_bounded 14 (show_page (buffer_ref_of (drv w)) page) w.
Proof.
  intros Hd Hpage. unfold bus_bounded, show_page, try_except_OSError, bind at 1.
  destruct (send_page_any page w Hd Hpage) as (k & evs & r & Hrun & Hk & Hr).
  rewrite Hrun. destruct Hr as [-> | ->].
  - rewrite sleep_us_run, wadvance_wadvance. eexists _, _, _.
    split; [reflexivity|]. split; [lia | auto].
  - unfold bind. rewrite sleep_ms_run, wadvance_wadvance.
    set (w1 := wadvance (k + 0) (evs ++ [SleepMs 10]) w).
    destruct (send_page_any page w1 Hd Hpage) as (k' & evs' & r' & Hrun' & Hk' & Hr').
    change (drv w1) with (drv w) in Hrun'. rewrite Hrun'. unfold w1.
    rewrite wadvance_wadvance. eexists _, _, _.
    split; [reflexivity|]. split; [lia | exact Hr'].
Qed.

Lemma show_pages_any (ps : list Z) w :
  buffers_sized (drv w) -> Forall (fun page => 0 <= page < 16) ps ->
  bus_bounded (14 * length ps) (for_ ps (show_page (buffer_ref_of (drv w)))) w.
Proof.
  intros Hd Hps. revert w Hd. induction Hps as [|page ps Hpage Hps IH]; intros w Hd.
  - exists 0%nat, [], (Ok tt). rewrite wadvance_0. cbn. auto.
  - unfold bus_bounded. cbn [for_]. unfold bind.
    destruct (show_page_any page w Hd Hpage) as (k & evs & r & Hrun & Hk & Hr).
    rewrite Hrun. destruct Hr as [-> | ->].
    + set (w1 := wadvance k evs w).
      destruct (IH w1 Hd) as (k' & evs' & r' & Hrun' & Hk' & Hr').
      change (drv w1) with (drv w) in Hrun'. rewrite Hrun'. unfold w1.
      rewrite wadvance_wadvance. eexists _, _, _.
      split; [reflexivity|]. split; [cbn [length]; lia | exact Hr'].
    + eexists _, _, _. split; [reflexivity|]. split; [cbn [length]; lia | auto].
Qed.

(** X5. Whatever the bus does, [show] on an instance whose buffers have their
    sizes ends normally or with [OSError] and with no other exception,
    makes at most 224 bus calls (two attempts at each page), and leaves
    the logical buffer as it was. *)
Theorem show_on_any_bus (w : World) :
  buffers_sized (drv w) ->
  exists k evs r d',
    show w = (wadvance k evs (set_drv d' w), r) /\
    (k <= 224)%nat /\ (r = Ok tt \/ r = Raise OSError) /\
    buffer d' = buffer (drv w) /\ buffers_sized d'.
Proof.
  intros Hd. rewrite show_run by exact Hd.
  destruct (rotated_fields _ Hd) as (Hd' & Hrot & _ & Hbuf).
  set (w1 := set_drv (rotated (drv w)) w).
  replace (buffer_ref_of (drv w)) with (buffer_ref_of (drv w1))
    by (unfold buffer_ref_of; cbn; now rewrite Hrot).
  destruct (show_pages_any (range 16) w1 Hd' ltac:(apply pages_in_range; lia))
    as (k & evs & r & Hrun & Hk & Hr).
  unfold range in Hk. rewrite length_seqZ in Hk.
  exists k, evs, r, (rotated (drv w)). split; [exact Hrun|].
  split; [lia|]. auto.
Qed.

Lemma show_on_any_bus_witness :
  exists k evs r d',
    show (mkWorld lit_instance (broken_bus 40)) =
      (wadvance k evs (set_drv d' (mkWorld lit_instance (broken_bus 40))), r) /\
    (k <= 224)%nat /\ (r = Ok tt \/ r = Raise OSError).
Proof.
  assert (Hd : buffers_sized lit_instance).
  { apply buffers_sized_set_buffer; [reflexivity | apply fresh_instance_sized]. }
  destruct (show_on_any_bus (mkWorld lit_instance (broken_bus 40)) Hd)
    as (k & evs & r & d' & Hrun & Hk & Hr & _).
  exists k, evs, r, d'. auto.
Defined.

Lemma SH1107_init_any a rot ext_vcc b :
  exists k evs r,
    SH1107_init b a rot ext_vcc =
      (mkWorld (fresh_instance a rot ext_vcc) (advance k evs b), r) /\
    (k <= 245)%nat /\ (r = Ok tt \/ r = Raise OSError).
Proof.
  rewrite SH1107_init_fresh.
  pose proof (fresh_instance_sized a rot ext_vcc) as Hd.
  pose proof (fresh_instance_cleared a rot ext_vcc) as Hclear.
  pose proof (fresh_instance_rotated a rot ext_vcc) as Hrotated.
  set (d := fresh_instance a rot ext_vcc) in *.
  unfold init_display, bind at 1.
  rewrite for_write_cmd_txns by apply init_commands_bytes.
  unfold on_bus, zoom. cbn [drv i2c].
  destruct (run_txns_any (addr d) (command_txns init_commands) b)
    as (k & evs & r & Hrun & Hk & Hr).
  assert (Hk21 : (k <= 21)%nat).
  { unfold command_txns in Hk. rewrite length_fmap in Hk. exact Hk. }
  rewrite Hrun. destruct Hr as [-> | ->].
  - unfold bind, on_drv, zoom, modify. cbn [drv set_i2c set_drv i2c fst snd].
    rewrite Hclear.
    pose proof (show_run (mkWorld d (advance k evs b)) Hd) as Hsr.
    cbn [drv] in Hsr. rewrite Hrotated in Hsr.
    change (set_drv d (mkWorld d (advance k evs b)))
      with (mkWorld d (advance k evs b)) in Hsr.
    destruct (show_pages_any (range 16) (mkWorld d (advance k evs b))
                Hd ltac:(apply pages_in_range; lia))
      as (k2 & evs2 & r2 & Hrun2 & Hk2 & Hr2).
    unfold range in Hk2. rewrite length_seqZ in Hk2.
    cbn [drv] in Hrun2.
    change (set_drv d (set_i2c (advance k evs b) (mkWorld d b)))
      with (mkWorld d (advance k evs b)).
    rewrite Hsr, Hrun2. unfold wadvance, set_i2c. cbn [drv i2c].
    rewrite advance_advance. exists (k + k2)%nat, (evs ++ evs2), r2.
    split; [reflexivity|]. split; [lia | exact Hr2].
  - exists k, evs, (Raise OSError). split; [reflexivity|].
    split; [lia | auto].
Qed.

(** X6. Whatever the bus does, construction ends normally or with [OSError],
    makes at most 245 bus calls (21 commands and two attempts at each of
    the 16 pages), and the instance it has built has its fields as
    [__init__] set them and both buffers cleared. *)
Theorem construction_on_any_bus (b : Bus) (a : Z) (rot ext_vcc : bool) :
  exists k evs r,
    SH1107_init b a rot ext_vcc =
      (mkWorld (fresh_instance a rot ext_vcc) (advance k evs b), r) /\
    (k <= 245)%nat /\ (r = Ok tt \/ r = Raise OSError).
Proof. apply SH1107_init_any. Qed.

Lemma construction_on_any_bus_witness :
  exists k evs r,
    SH1107_init (broken_bus 30) 0x3C true false =
      (mkWorld (fresh_instance 0x3C true false) (advance k evs (broken_bus 30)), r) /\
    (k <= 245)%nat.
Proof.
  destruct (construction_on_any_bus (broken_bus 30) 0x3C true false)
    as (k & evs & r & Hrun & Hk & _).
  exists k, evs, r. auto.
Defined.

(** X7. The convenience classes fix the orientation: whatever the bus does
    during construction, [SH1107_Portrait] leaves a 64x128 instance of 16
    pages without a physical buffer, [SH1107_Landscape] a 128x64 instance
    of 8 pages with a cleared 1024-byte physical buffer; the logical
    buffer has 1024 cleared bytes in both. *)
Theorem convenience_classes (b : Bus) (a : Z) (ext_vcc : bool) :
  let p := drv (SH1107_Portrait_init b a ext_vcc).1 in
  let l := drv (SH1107_Landscape_init b a ext_vcc).1 in
  (rotate p = false /\ width p = 64 /\ height p = 128 /\ pages p = 16 /\
   physical_buffer p = None /\ buffer p = replicate 1024 0) /\
  (rotate l = true /\ width l = 128 /\ height l = 64 /\ pages l = 8 /\
   physical_buffer l = Some (replicate 1024 0) /\ buffer l = replicate 1024 0).
Proof.
  unfold SH1107_Portrait_init, SH1107_Landscape_init.
  destruct (SH1107_init_any a false ext_vcc b) as (k1 & e1 & r1 & -> & _).
  destruct (SH1107_init_any a true ext_vcc b) as (k2 & e2 & r2 & -> & _).
  cbn. repeat split.
Qed.

(** ** More on the rotation *)

Lemma rotated_so_far_unique buf P C B pb1 pb2 :
  rotated_so_far buf P C B pb1 -> rotated_so_far buf P C B pb2 -> pb1 = pb2.
Proof.
  intros (Hlen1 & Hbytes1 & Hbits1) (Hlen2 & Hbytes2 & Hbits2).
  apply buffers_eq_of_bits; try assumption.
  - intros i Hi. apply Hbytes1, Hi.
  - intros i Hi. apply Hbytes2, Hi.
  - intros i k Hi Hk. apply eq_true_iff_eq.
    rewrite Hbits1, Hbits2 by assumption. reflexivity.
Qed.

(** X8. The physical buffer [_rotate_buffer] leaves depends on the logical
    buffer alone: whatever the physical buffer held before (a previous
    frame, say), two instances with the same logical buffer end with the
    same physical buffer, and the logical buffer is not touched. *)
Theorem rotate_buffer_recomputes (d1 d2 : SH1107) (pb1 pb2 : list Z) :
  length (buffer d1) = 1024%nat ->
  buffer d2 = buffer d1 ->
  physical_buffer d1 = Some pb1 -> length pb1 = 1024%nat ->
  physical_buffer d2 = Some pb2 -> length pb2 = 1024%nat ->
  exists pb',
    _rotate_buffer d1 = (set_physical_buffer pb' d1, Ok tt) /\
    _rotate_buffer d2 = (set_physical_buffer pb' d2, Ok tt).
Proof.
  intros Hlen Hsame Hpb1 Hlen1 Hpb2 Hlen2.
  destruct (rotate_buffer_run d1 Hlen pb1 Hpb1 Hlen1) as (pb1' & Hrun1 & Hrot1).
  assert (Hlen' : length (buffer d2) = 1024%nat) by now rewrite Hsame.
  destruct (rotate_buffer_run d2 Hlen' pb2 Hpb2 Hlen2) as (pb2' & Hrun2 & Hrot2).
  rewrite Hsame in Hrot2.
  rewrite (rotated_so_far_unique _ _ _ _ _ _ Hrot2 Hrot1) in Hrun2.
  eauto.
Qed.

Lemma rotate_buffer_recomputes_witness :
  exists pb',
    _rotate_buffer lit_instance = (set_physical_buffer pb' lit_instance, Ok tt) /\
    _rotate_buffer (set_physical_buffer (replicate 1024 0xFF) lit_instance) =
      (set_physical_buffer pb' (set_physical_buffer (replicate 1024 0xFF) lit_instance),
       Ok tt).
Proof.
  apply (rotate_buffer_recomputes lit_instance
           (set_physical_buffer (replicate 1024 0xFF) lit_instance)
           (replicate 1024 0) (replicate 1024 0xFF)); reflexivity.
Defined.

Lemma rotated_same_source buf1 buf2 pb p c b :
  rotated_so_far buf1 8 0 0 pb -> rotated_so_far buf2 8 0 0 pb ->
  0 <= p < 8 -> 0 <= c < 128 -> 0 <= b < 8 ->
  bit_of buf1 (p * 128 + c) b = true -> bit_of buf2 (p * 128 + c) b = true.
Proof.
  intros (_ & _ & Hbits1) (_ & _ & Hbits2) Hp Hc Hb Hsrc.
  destruct (dst_index_range p c b Hp Hc Hb) as [Hidx Hdbit].
  assert (Hdst : bit_of pb (dst_index p c b) (dst_bit c) = true).
  { apply Hbits1; [lia | lia |]. exists p, c, b.
    repeat split; try lia; try assumption. unfold visited. lia. }
  apply Hbits2 in Hdst; [|lia..].
  destruct Hdst as (p' & c' & b' & Hp' & Hc' & Hb' & _ & Hs' & Hi' & Hk').
  destruct (dst_injective p c b p' c' b') as (-> & -> & ->); assumption.
Qed.

(** X9. The rotation loses nothing: two logical buffers of bytes that rotate
    to the same physical buffer are the same buffer. *)
Theorem rotate_buffer_injective (d1 d2 : SH1107) (pb1 pb2 : list Z) :
  length (buffer d1) = 1024%nat -> length (buffer d2) = 1024%nat ->
  forallb (fun v => (0 <=? v) && (v <? 256)) (buffer d1) = true ->
  forallb (fun v => (0 <=? v) && (v <? 256)) (buffer d2) = true ->
  physical_buffer d1 = Some pb1 -> length pb1 = 1024%nat ->
  physical_buffer d2 = Some pb2 -> length pb2 = 1024%nat ->
  physical_buffer (_rotate_buffer d1).1 = physical_buffer (_rotate_buffer d2).1 ->
  buffer d1 = buffer d2.
Proof.
  intros Hlen1 Hlen2 Hb1 Hb2 Hpb1 Hl1 Hpb2 Hl2 Hsame.
  destruct (rotate_buffer_run d1 Hlen1 pb1 Hpb1 Hl1) as (p1 & Hrun1 & Hrot1).
  destruct (rotate_buffer_run d2 Hlen2 pb2 Hpb2 Hl2) as (p2 & Hrun2 & Hrot2).
  rewrite Hrun1, Hrun2 in Hsame. cbn in Hsame. injection Hsame as ->.
  assert (Hbyte : forall (buf : list Z) i,
            length buf = 1024%nat ->
            forallb (fun v => (0 <=? v) && (v <? 256)) buf = true ->
            0 <= i < 1024 -> 0 <= buf !!! Z.to_nat i < 256).
  { intros buf i Hlen Hall Hi. rewrite forallb_forall in Hall.
    specialize (Hall (buf !!! Z.to_nat i)).
    rewrite andb_true_iff, Z.leb_le, Z.ltb_lt in Hall. apply Hall.
    apply list_elem_of_In, list_elem_of_lookup_total_2. lia. }
  apply buffers_eq_of_bits; try assumption.
  - intros i Hi. apply (Hbyte _ i Hlen1 Hb1 Hi).
  - intros i Hi. apply (Hbyte _ i Hlen2 Hb2 Hi).
  - intros i k Hi Hk. destruct (Z_lt_le_dec k 8) as [Hk8|Hk8].
    + assert (Hi' : i = i / 128 * 128 + i mod 128) by (Z.div_mod_to_equations; lia).
      assert (Hp : 0 <= i / 128 < 8) by (Z.div_mod_to_equations; lia).
      assert (Hc : 0 <= i mod 128 < 128) by (Z.div_mod_to_equations; lia).
      apply eq_true_iff_eq. rewrite Hi'. split; intros Hsrc.
      * apply (rotated_same_source _ _ _ _ _ _ Hrot1 Hrot2); auto; lia.
      * apply (rotated_same_source _ _ _ _ _ _ Hrot2 Hrot1); auto; lia.
    + unfold bit_of. rewrite !testbit_byte_high; auto.
Qed.

Lemma rotate_buffer_injective_witness :
  physical_buffer (_rotate_buffer lit_instance).1 =
    physical_buffer
      (_rotate_buffer (set_physical_buffer (replicate 1024 0xFF) lit_instance)).1 /\
  buffer lit_instance =
    buffer (set_physical_buffer (replicate 1024 0xFF) lit_instance).
Proof.
  assert (Hsame : physical_buffer (_rotate_buffer lit_instance).1 =
                  physical_buffer
                    (_rotate_buffer
                       (set_physical_buffer (replicate 1024 0xFF) lit_instance)).1)
    by (vm_compute; reflexivity).
  split; [exact Hsame|].
  exact (rotate_buffer_injective lit_instance
           (set_physical_buffer (replicate 1024 0xFF) lit_instance)
           (replicate 1024 0) (replicate 1024 0xFF)
           eq_refl eq_refl eq_refl eq_refl eq_refl eq_refl eq_refl eq_refl Hsame).
Defined.

(** ** More on the circles *)

Lemma circle_fill_loop_total {S} `{Surface S} x0 y0 r c fuel l s :
  (Z.to_nat (r - l.1.2 + 1) <= fuel)%nat ->
  exists s' l',
    while_ fuel (fun '(x, y, err) => y <=? r) (circle_fill_body x0 y0 c) l s
    = (s', Ok l').
Proof.
  intros Hfuel.
  destruct (while_total (fun _ _ => True) (fun l => r - l.1.2 + 1)
              (fun '(x, y, err) => y <=? r) (circle_fill_body x0 y0 c))
    with (fuel := fuel) (l := l) (s := s) as (s' & l' & Hrun & _); eauto.
  clear. intros [[x y] err] s _ Hc. apply Z.leb_le in Hc. split; [simpl; lia|].
  assert (Hdec : (circle_fill_next (x, y, err)).1.2 = y + 1).
  { unfold circle_fill_next. now destruct (_ >? _). }
  unfold circle_fill_body, bind, modify, ret.
  destruct (negb (y =? 0)); eexists _, (circle_fill_next (x, y, err));
    (split; [reflexivity|]); (split; [exact I|]); rewrite Hdec; simpl; lia.
Qed.

(** With a negative radius neither loop of [circle] is entered. *)
Lemma circle_negative_radius {S} `{Surface S} x0 y0 r c f (s : S) :
  r < 0 -> circle x0 y0 r c f s = (s, Ok tt).
Proof.
  intros Hneg. unfold circle.
  replace (Z.to_nat (r + 1)) with 0%nat by lia. cbn [while_].
  replace (0 <=? r) with false by (symmetry; apply Z.leb_gt; lia).
  replace (r >=? 0) with false by (symmetry; rewrite Z.geb_leb; apply Z.leb_gt; lia).
  destruct f; reflexivity.
Qed.

(** X10. [circle] returns normally on every surface, for all arguments and in
    both modes, and with a negative radius it draws nothing at all. *)
Theorem circle_returns (S : Type) (HS : Surface S) (x0 y0 r c : Z) (f : bool) (s : S) :
  exists s', circle x0 y0 r c f s = (s', Ok tt) /\ (r < 0 -> s' = s).
Proof.
  destruct (Z_lt_le_dec r 0) as [Hneg|Hpos].
  - exists s. split; [now apply circle_negative_radius | reflexivity].
  - unfold circle. destruct f.
    + destruct (circle_fill_loop_total x0 y0 r c (Z.to_nat (r + 1)) (r, 0, 0) s)
        as (s' & l' & Hrun); [simpl; lia|].
      exists s'. unfold bind. rewrite Hrun. split; [reflexivity | lia].
    + destruct (circle_outline_loop_total x0 y0 c (Z.to_nat (r + 1)) (r, 0, 0) s)
        as (s' & l' & Hrun); [simpl; lia|].
      exists s'. unfold bind. rewrite Hrun. split; [reflexivity | lia].
Qed.

Lemma circle_returns_witness :
  exists s', circle 3 3 (-2) 1 true ([] : list draw_call) = (s', Ok tt) /\
             (-2 < 0 -> s' = []).
Proof. exact (circle_returns _ _ 3 3 (-2) 1 true []). Defined.

(** The span of row [n] of the filled circle reaches past the circle: the
    first integer point beyond it lies outside the radius. *)
Lemma fill_x_outside r n :
  0 <= r -> Z.of_nat n <= r ->
  r * r < (fill_x r n + 1) * (fill_x r n + 1) + Z.of_nat n * Z.of_nat n.
Proof.
  intros Hr. induction n as [|n IH]; intros Hn.
  - unfold fill_x. simpl. nia.
  - specialize (IH ltac:(lia)).
    pose proof (circle_fill_state_inv r n) as Hinv.
    unfold fill_x in *. rewrite circle_fill_state_S.
    destruct (circle_fill_state r n) as [[x y] err].
    destruct Hinv as (Hy & Herr & _ & Hlo). cbn [fst snd] in IH.
    unfold circle_fill_next.
    destruct (2 * (err + (1 + 2 * y)) >? 2 * x + 1) eqn:Hc; cbn [fst snd].
    + apply Z.gtb_lt in Hc.
      replace (x - 1 + 1) with x by lia.
      destruct (Z_le_gt_dec x (Z.of_nat n)) as [Hxn|Hxn]; [nia|].
      destruct (Z_lt_le_dec (2 * r) (3 * x + 1)) as [Hbig|Hsmall]; [nia|].
      exfalso.
      assert (H1 : 0 <= (2 * r - 1 - 3 * x) * (2 * r - 1 + 3 * x)) by nia.
      assert (H2 : 0 <= (x - Z.of_nat n - 1) * (x + Z.of_nat n + 1)) by nia.
      nia.
    + nia.
Qed.

(** X11. The filled circle covers the whole disc: every integer point within
    distance [r] of the centre is in one of the spans it draws. *)
Theorem circle_fill_covers_disc (x0 y0 r c px py : Z) :
  0 <= r ->
  (px - x0) * (px - x0) + (py - y0) * (py - y0) <= r * r ->
  plotted (circle x0 y0 r c true ([] : list draw_call)).1 px py = true.
Proof.
  intros Hr Hin.
  destruct (circle_fill_log x0 y0 r c [] Hr) as (sf & Hsf & Hcov).
  rewrite Hsf. cbn [fst].
  set (n := Z.to_nat (Z.abs (py - y0))).
  assert (Hn : Z.of_nat n = Z.abs (py - y0)) by (unfold n; lia).
  pose proof (Z.abs_square (py - y0)) as Hsqy.
  pose proof (Z.abs_square (px - x0)) as Hsqx.
  pose proof (Z.abs_nonneg (py - y0)) as Hay.
  pose proof (Z.abs_nonneg (px - x0)) as Hax.
  assert (Hnr : Z.of_nat n <= r) by (rewrite Hn; nia).
  pose proof (fill_x_outside r n Hr Hnr) as Hout.
  assert (Hx : Z.abs (px - x0) <= fill_x r n).
  { destruct (Z_le_gt_dec (Z.abs (px - x0)) (fill_x r n)) as [Hle|Hgt]; [exact Hle|].
    exfalso.
    pose proof (circle_fill_state_inv r n) as Hinv. unfold fill_x in *.
    destruct (circle_fill_state r n) as [[x y] err]. cbn [fst snd] in *.
    destruct Hinv as (Hy & _ & _ & Hlo).
    assert (0 <= x) by lia.
    rewrite Hn in Hout.
    assert ((x + 1) * (x + 1) <= Z.abs (px - x0) * Z.abs (px - x0)) by nia.
    nia. }
  destruct (Hcov n px Hnr ltac:(lia)) as [Hup Hdown].
  destruct (Z_le_gt_dec 0 (py - y0)).
  - replace py with (y0 + Z.of_nat n) by lia. exact Hup.
  - replace py with (y0 - Z.of_nat n) by lia. exact Hdown.
Qed.

Lemma circle_fill_covers_disc_witness :
  plotted (circle 10 10 5 1 true ([] : list draw_call)).1 13 14 = true.
Proof. apply circle_fill_covers_disc; lia. Defined.

(** Conversely, every span of the filled circle has half-width
    [fill_x r n] on a row at distance [n <= r] of the centre. *)
Lemma circle_fill_log_only x0 y0 r c :
  0 <= r ->
  exists s',
    circle x0 y0 r c true ([] : list draw_call) = (s', Ok tt) /\
    forall px py, plotted s' px py = true ->
      exists n, Z.of_nat n <= r /\ Z.abs (py - y0) = Z.of_nat n /\
                Z.abs (px - x0) <= fill_x r n.
Proof.
  intros Hr. unfold circle.
  set (I := fun (l : Z * Z * Z) (s' : list draw_call) =>
    exists n, l = circle_fill_state r n /\
      forall px py, plotted s' px py = true ->
        exists m, Z.of_nat m <= r /\ Z.abs (py - y0) = Z.of_nat m /\
                  Z.abs (px - x0) <= fill_x r m).
  destruct (while_total I (fun l => r - l.1.2 + 1)
              (fun '(x, y, err) => y <=? r) (circle_fill_body x0 y0 c))
    with (fuel := Z.to_nat (r + 1)) (l := (r, 0, 0)) (s := ([] : list draw_call))
    as (s' & l' & Hrun & (n & Hl & Hlog) & Hexit).
  - intros l s1 (n & Hl & Hlog) Hc.
    pose proof (circle_fill_state_inv r n) as Hinv.
    assert (Hfx : fill_x r n = l.1.1) by (unfold fill_x; now rewrite Hl).
    rewrite <- Hl in Hinv. destruct l as [[x y] err].
    destruct Hinv as (Hy & _ & _ & Hb). simpl in Hfx.
    apply Z.leb_le in Hc. split; [simpl; lia|].
    eexists _, _. split; [apply circle_fill_body_log|]. split.
    + exists (Datatypes.S n). split; [now rewrite circle_fill_state_S, Hl|].
      intros px py. rewrite plotted_app, orb_true_iff.
      intros [Hold|Hnew]; [now apply Hlog|].
      exists n. rewrite Hfx. split; [lia|].
      unfold plotted in Hnew. destruct (y =? 0); cbn [existsb call_covers] in Hnew;
        rewrite ?orb_true_iff, ?andb_true_iff, ?Z.eqb_eq, ?Z.leb_le, ?Z.ltb_lt in Hnew;
        lia.
    + destruct (circle_fill_next (x, y, err)) as [[x' y'] err'] eqn:Hnext.
      unfold circle_fill_next in Hnext.
      destruct (_ >? _) in Hnext; injection Hnext as <- <- <-; simpl; lia.
  - exists 0%nat. split; [reflexivity|]. intros px py Hp. discriminate Hp.
  - simpl. lia.
  - exists s'. unfold bind. rewrite Hrun. split; [reflexivity | exact Hlog].
Qed.

(** X12. The filled circle draws nothing outside the square of side [2r + 1]
    around the centre. *)
Theorem circle_fill_in_square (x0 y0 r c px py : Z) :
  plotted (circle x0 y0 r c true ([] : list draw_call)).1 px py = true ->
  x0 - r <= px <= x0 + r /\ y0 - r <= py <= y0 + r.
Proof.
  destruct (Z_lt_le_dec r 0) as [Hneg|Hr].
  - rewrite (circle_negative_radius x0 y0 r c true [] Hneg). discriminate.
  - destruct (circle_fill_log_only x0 y0 r c Hr) as (s' & Hrun & Hlog).
    rewrite Hrun. cbn [fst]. intros Hp.
    destruct (Hlog px py Hp) as (n & Hn & Hpy & Hpx).
    pose proof (circle_fill_state_inv r n) as Hinv. unfold fill_x in Hpx.
    destruct (circle_fill_state r n) as [[x y] err]. cbn [fst snd] in Hpx.
    destruct Hinv as (_ & _ & _ & Hb). lia.
Qed.

Lemma circle_fill_in_square_witness :
  plotted (circle 10 10 5 1 true ([] : list draw_call)).1 13 14 = true /\
  (10 - 5 <= 13 <= 10 + 5 /\ 10 - 5 <= 14 <= 10 + 5).
Proof.
  assert (Hp : plotted (circle 10 10 5 1 true ([] : list draw_call)).1 13 14 = true)
    by (vm_compute; reflexivity).
  split; [exact Hp | exact (circle_fill_in_square 10 10 5 1 13 14 Hp)].
Defined.

(** The pixels one pass of the outline circle adds. *)
Lemma plotted_octants (s : list draw_call) x0 y0 x y c px py :
  plotted (s ++ [Pixel (x0 + x) (y0 + y) c; Pixel (x0 + y) (y0 + x) c;
                 Pixel (x0 - y) (y0 + x) c; Pixel (x0 - x) (y0 + y) c;
                 Pixel (x0 - x) (y0 - y) c; Pixel (x0 - y) (y0 - x) c;
                 Pixel (x0 + y) (y0 - x) c; Pixel (x0 + x) (y0 - y) c]) px py = true <->
  plotted s px py = true \/
  ((px = x0 + x \/ px = x0 - x) /\ (py = y0 + y \/ py = y0 - y)) \/
  ((px = x0 + y \/ px = x0 - y) /\ (py = y0 + x \/ py = y0 - x)).
Proof.
  rewrite plotted_app, orb_true_iff. unfold plotted at 2.
  cbn [existsb call_covers].
  rewrite !orb_true_iff, !andb_true_iff, !Z.eqb_eq. intuition congruence.
Qed.

(** What the outline circle records: every pixel lies on the integer
    circle (within the radius, with its diagonal neighbour away from the
    centre outside), and the pixel set has the eight symmetries of the
    square. *)
Lemma circle_outline_log_shape x0 y0 r c :
  exists s',
    circle x0 y0 r c false ([] : list draw_call) = (s', Ok tt) /\
    forall px py, plotted s' px py = true ->
      (Z.abs (px - x0) * Z.abs (px - x0) + Z.abs (py - y0) * Z.abs (py - y0) <= r * r /\
       r * r < (Z.abs (px - x0) + 1) * (Z.abs (px - x0) + 1)
               + (Z.abs (py - y0) + 1) * (Z.abs (py - y0) + 1)) /\
      plotted s' (2 * x0 - px) py = true /\
      plotted s' px (2 * y0 - py) = true /\
      plotted s' (x0 + (py - y0)) (y0 + (px - x0)) = true.
Proof.
  unfold circle.
  set (Q := fun (s' : list draw_call) =>
    forall px py, plotted s' px py = true ->
      (Z.abs (px - x0) * Z.abs (px - x0) + Z.abs (py - y0) * Z.abs (py - y0) <= r * r /\
       r * r < (Z.abs (px - x0) + 1) * (Z.abs (px - x0) + 1)
               + (Z.abs (py - y0) + 1) * (Z.abs (py - y0) + 1)) /\
      plotted s' (2 * x0 - px) py = true /\
      plotted s' px (2 * y0 - py) = true /\
      plotted s' (x0 + (py - y0)) (y0 + (px - x0)) = true).
  set (I := fun (l : Z * Z * Z) (s' : list draw_call) =>
    let '(x, y, err) := l in
    err = x * x + (y + 1) * (y + 1) - r * r - 1 /\
    (x < y \/ - 2 * x - 2 < err <= 0) /\ 0 <= y /\ Q s').
  assert (Hstep : forall x y err s, 0 <= y <= x ->
            err = x * x + (y + 1) * (y + 1) - r * r - 1 ->
            - 2 * x - 2 < err <= 0 -> Q s ->
            Q (s ++ [Pixel (x0 + x) (y0 + y) c; Pixel (x0 + y) (y0 + x) c;
                     Pixel (x0 - y) (y0 + x) c; Pixel (x0 - x) (y0 + y) c;
                     Pixel (x0 - x) (y0 - y) c; Pixel (x0 - y) (y0 - x) c;
                     Pixel (x0 + y) (y0 - x) c; Pixel (x0 + x) (y0 - y) c])).
  { intros x y err s Hxy Herr Hb HQ px py. rewrite !plotted_octants.
    intros [Hold|Hnew].
    - destruct (HQ px py Hold) as (Hnear & H1 & H2 & H3). auto.
    - split; [|split; [|split]; right; lia].
      destruct Hnew as [Hnew|Hnew].
      + assert (Hax : Z.abs (px - x0) = x) by lia.
        assert (Hay : Z.abs (py - y0) = y) by lia.
        rewrite Hax, Hay. nia.
      + assert (Hax : Z.abs (px - x0) = y) by lia.
        assert (Hay : Z.abs (py - y0) = x) by lia.
        rewrite Hax, Hay. nia. }
  destruct (while_total I (fun l => l.1.1 - l.1.2 + 1)
              (fun '(x, y, err) => x >=? y) (circle_outline_body x0 y0 c))
    with (fuel := Z.to_nat (r + 1)) (l := (r, 0, 0)) (s := ([] : list draw_call))
    as (s' & l' & Hrun & HI & _).
  - intros [[x y] err] s (Herr & Hb & Hy & HQ) Hc.
    apply Z.geb_le in Hc. split; [simpl; lia|].
    eexists _, _. split; [apply circle_outline_body_log|].
    assert (He : - 2 * x - 2 < err <= 0) by lia. split.
    + unfold I, circle_outline_next.
      replace (err <=? 0) with true by (symmetry; apply Z.leb_le; lia).
      destruct (err + (2 * (y + 1) + 1) >? 0) eqn:Hc2.
      * apply Z.gtb_lt in Hc2.
        split; [lia|]. split; [lia|]. split; [lia|].
        apply (Hstep x y err); auto; lia.
      * assert (~ 0 < err + (2 * (y + 1) + 1)) by (rewrite <- Z.gtb_lt; congruence).
        split; [lia|]. split; [lia|]. split; [lia|].
        apply (Hstep x y err); auto; lia.
    + pose proof (circle_outline_next_decreases x y err) as Hd.
      destruct (circle_outline_next (x, y, err)) as [[x' y'] err']. simpl. lia.
  - unfold I. split; [lia|]. split; [lia|]. split; [lia|].
    intros px py Hp. discriminate Hp.
  - simpl. lia.
  - exists s'. unfold bind. rewrite Hrun. split; [reflexivity|].
    destruct l' as [[x y] err]. apply HI.
Qed.

(** X13. Every pixel of the outline circle lies on the integer circle of radius
    [r]: it is within distance [r] of the centre, and the pixel diagonally
    next to it, away from the centre, is farther than [r]. *)
Theorem circle_outline_on_circle (x0 y0 r c px py : Z) :
  plotted (circle x0 y0 r c false ([] : list draw_call)).1 px py = true ->
  (px - x0) * (px - x0) + (py - y0) * (py - y0) <= r * r /\
  r * r < (Z.abs (px - x0) + 1) * (Z.abs (px - x0) + 1)
          + (Z.abs (py - y0) + 1) * (Z.abs (py - y0) + 1).
Proof.
  destruct (circle_outline_log_shape x0 y0 r c) as (s' & Hrun & Hlog).
  rewrite Hrun. cbn [fst]. intros Hp.
  destruct (Hlog px py Hp) as (Hnear & _).
  rewrite !Z.abs_square in Hnear. exact Hnear.
Qed.

Lemma circle_outline_on_circle_witness :
  plotted (circle 10 10 5 1 false ([] : list draw_call)).1 14 12 = true /\
  ((14 - 10) * (14 - 10) + (12 - 10) * (12 - 10) <= 5 * 5 /\
   5 * 5 < (Z.abs (14 - 10) + 1) * (Z.abs (14 - 10) + 1)
           + (Z.abs (12 - 10) + 1) * (Z.abs (12 - 10) + 1)).
Proof.
  assert (Hp : plotted (circle 10 10 5 1 false ([] : list draw_call)).1 14 12 = true)
    by (vm_compute; reflexivity).
  split; [exact Hp | exact (circle_outline_on_circle 10 10 5 1 14 12 Hp)].
Defined.

(** X14. The outline circle is symmetric about the centre: with a pixel it
    plots its mirror images in the vertical and the horizontal axis
    through the centre and in the diagonal. *)
Theorem circle_outline_symmetric (x0 y0 r c px py : Z) :
  plotted (circle x0 y0 r c false ([] : list draw_call)).1 px py = true ->
  plotted (circle x0 y0 r c false ([] : list draw_call)).1 (2 * x0 - px) py = true /\
  plotted (circle x0 y0 r c false ([] : list draw_call)).1 px (2 * y0 - py) = true /\
  plotted (circle x0 y0 r c false ([] : list draw_call)).1
    (x0 + (py - y0)) (y0 + (px - x0)) = true.
Proof.
  destruct (circle_outline_log_shape x0 y0 r c) as (s' & Hrun & Hlog).
  rewrite Hrun. cbn [fst]. intros Hp.
  destruct (Hlog px py Hp) as (_ & Hsym). exact Hsym.
Qed.

Lemma circle_outline_symmetric_witness :
  plotted (circle 10 10 5 1 false ([] : list draw_call)).1 14 12 = true /\
  plotted (circle 10 10 5 1 false ([] : list draw_call)).1 (2 * 10 - 14) 12 = true /\
  plotted (circle 10 10 5 1 false ([] : list draw_call)).1 14 (2 * 10 - 12) = true /\
  plotted (circle 10 10 5 1 false ([] : list draw_call)).1
    (10 + (12 - 10)) (10 + (14 - 10)) = true.
Proof.
  assert (Hp : plotted (circle 10 10 5 1 false ([] : list draw_call)).1 14 12 = true)
    by (vm_compute; reflexivity).
  split; [exact Hp | exact (circle_outline_symmetric 10 10 5 1 14 12 Hp)].
Defined.

(** ** The ellipses *)

Lemma while_skipped {S L} fuel (cond : L -> bool) (body : L -> M S L) l (s : S) :
  cond l = false -> while_ fuel cond body l s = (s, Ok l).
Proof. intros Hc. destruct fuel; simpl; now rewrite Hc. Qed.

Lemma bind_ok_ex {S A B} (m : M S A) (k : A -> M S B) s s1 x r (P : S -> Prop) :
  m s = (s1, Ok x) ->
  (exists s', k x s1 = (s', r) /\ P s') ->
  exists s', bind m k s = (s', r) /\ P s'.
Proof. intros Hm (s' & Hk & HP). exists s'. unfold bind. now rewrite Hm. Qed.

Section EllipseOutline.
Context {S : Type} `{Surface S} {F : Type} `{PyFloat F}.
Variables x0 y0 a b c : Z.

(** A property of the loop position [(x, y)] and the surface that each
    pass carries to whichever position it moves to. *)
Variable J : Z -> Z -> S -> Prop.
Hypothesis J_step : forall x y s,
  0 <= x -> 0 <= y <= b -> J x y s ->
  J (x + 1) y (ellipse_points x0 y0 c x y s).1 /\
  J x (y - 1) (ellipse_points x0 y0 c x y s).1 /\
  J (x + 1) (y - 1) (ellipse_points x0 y0 c x y s).1.

(** Both loops of the outline ellipse end: the first because [dx] grows by
    [2 b^2 > 0] on each pass while [dy] never grows, the second because
    [y] goes down by one on each pass.  With a negative [b] neither is
    entered; otherwise the second one runs until [y = -1]. *)
Lemma ellipse_outline_run s :
  J 0 b s ->
  exists s', ellipse x0 y0 a b c false s = (s', Ok tt) /\
             ((b < 0 /\ s' = s) \/ (0 <= b /\ exists x, J x (-1) s')).
Proof.
  intros HJ. unfold ellipse. cbv zeta.
  destruct (Z_lt_le_dec b 0) as [Hneg|Hb].
  - exists s. split; [|left; auto].
    unfold bind at 1. rewrite while_skipped by (apply Z.ltb_ge; nia).
    unfold bind. rewrite while_skipped
      by (rewrite Z.geb_leb; apply Z.leb_gt; lia).
    reflexivity.
  - set (I1 := fun (l : Z * Z * Z * Z * Z) (s' : S) =>
      let '(x, y, d, dx, dy) := l in
      dx = 2 * (b * b) * x /\ dy = 2 * (a * a) * y /\ 0 <= x /\ 0 <= y <= b /\
      J x y s').
    set (I2 := fun (l : Z * Z * F * Z * Z) (s' : S) =>
      let '(x, y, d, dx, dy) := l in 0 <= x /\ -1 <= y <= b /\ J x y s').
    match goal with
    | |- context [while_ ?fu ?cd ?bd (0, b, ?d, 0, ?dy)] =>
        destruct (while_total I1 (fun l => l.2 - l.1.2) cd bd)
          with (fuel := fu) (l := (0, b, d, 0, dy)) (s := s)
          as (s1 & [[[[x1 y1] d1] dx1] dy1] & Hrun1 & HI1 & _)
    end.
    + intros [[[[x y] d] dx] dy] s1 (Hdx & Hdy & Hx & Hy & HJ1) Hc.
      apply Z.ltb_lt in Hc. cbn [fst snd].
      assert (Hbx : 0 <= b * b * x) by nia.
      assert (Ha : 0 <= a * a) by nia.
      assert (Hypos : 0 < y) by nia.
      assert (Hbpos : 0 < b * b) by nia.
      split; [lia|].
      destruct (J_step x y s1 Hx Hy HJ1) as (J1 & _ & J3).
      unfold bind. destruct (d <? 0).
      * eexists _, _. split; [reflexivity|]. cbn [fst snd]. split; [|lia].
        split; [lia|]. split; [lia|]. split; [lia|]. split; [lia|]. exact J1.
      * eexists _, _. split; [reflexivity|]. cbn [fst snd]. split; [|nia].
        split; [lia|]. split; [lia|]. split; [lia|]. split; [lia|]. exact J3.
    + unfold I1. split; [lia|]. split; [lia|]. split; [lia|]. split; [lia|]. exact HJ.
    + cbn [fst snd]. lia.
    + destruct HI1 as (_ & _ & Hx1 & Hy1 & HJ1).
      apply (bind_ok_ex _ _ _ _ _ _ _ Hrun1). cbv beta iota.
      match goal with
      | |- context [while_ ?fu ?cd ?bd (x1, y1, ?d, dx1, dy1)] =>
          destruct (while_total I2 (fun l => l.1.1.1.2 + 1) cd bd)
            with (fuel := fu) (l := (x1, y1, d, dx1, dy1)) (s := s1)
            as (s2 & [[[[x2 y2] d2] dx2] dy2] & Hrun2 & HI2 & Hexit)
      end.
      * intros [[[[x y] d] dx] dy] s2 (Hx & Hy & HJ2) Hc.
        rewrite Z.geb_leb in Hc. apply Z.leb_le in Hc. cbn [fst snd].
        split; [lia|].
        destruct (J_step x y s2 Hx ltac:(lia) HJ2) as (_ & J2 & J3).
        unfold bind. destruct (fpos d).
        -- eexists _, _. split; [reflexivity|]. cbn [fst snd]. split; [|lia].
           split; [lia|]. split; [lia|]. exact J2.
        -- eexists _, _. split; [reflexivity|]. cbn [fst snd]. split; [|lia].
           split; [lia|]. split; [lia|]. exact J3.
      * unfold I2. split; [lia|]. split; [lia|]. exact HJ1.
      * cbn [fst snd]. lia.
      * apply (bind_ok_ex _ _ _ _ _ _ _ Hrun2).
        exists s2. split; [reflexivity|].
        right. split; [exact Hb|]. exists x2.
        destruct HI2 as (_ & Hy2 & HJ2).
        rewrite Z.geb_leb in Hexit. apply Z.leb_gt in Hexit.
        now replace (-1) with y2 by lia.
Qed.

End EllipseOutline.

(** X15. The outline ellipse returns normally on every surface, for all
    arguments and whatever the float arithmetic does, and with a negative
    vertical radius it draws nothing. *)
Theorem ellipse_outline_returns (S : Type) (HS : Surface S) (F : Type) (HF : PyFloat F)
    (x0 y0 a b c : Z) (s : S) :
  exists s', ellipse x0 y0 a b c false s = (s', Ok tt) /\ (b < 0 -> s' = s).
Proof.
  destruct (ellipse_outline_run x0 y0 a b c (fun _ _ _ => True)) with (s := s)
    as (s' & Hrun & Hcase); auto.
  exists s'. split; [exact Hrun|]. intros Hneg.
  destruct Hcase as [[_ ->]|[Hb _]]; [reflexivity | lia].
Qed.

Lemma ellipse_outline_returns_witness :
  exists s', @ellipse _ Log_Surface _ binary64 3 3 4 (-2) 1 false [] = (s', Ok tt) /\
             (-2 < 0 -> s' = []).
Proof. exact (ellipse_outline_returns _ _ _ binary64 3 3 4 (-2) 1 []). Defined.

(** The pixels one pass of an ellipse loop adds. *)
Lemma ellipse_points_log x0 y0 c x y (s : list draw_call) :
  (ellipse_points x0 y0 c x y s).1 =
  s ++ [Pixel (x0 + x) (y0 + y) c; Pixel (x0 - x) (y0 + y) c;
        Pixel (x0 + x) (y0 - y) c; Pixel (x0 - x) (y0 - y) c].
Proof.
  unfold ellipse_points, bind, modify. cbn [pixel Log_Surface fst].
  now rewrite <- !app_assoc.
Qed.

Lemma plotted_quadrants (s : list draw_call) x0 y0 x y c px py :
  plotted (s ++ [Pixel (x0 + x) (y0 + y) c; Pixel (x0 - x) (y0 + y) c;
                 Pixel (x0 + x) (y0 - y) c; Pixel (x0 - x) (y0 - y) c]) px py = true <->
  plotted s px py = true \/
  ((px = x0 + x \/ px = x0 - x) /\ (py = y0 + y \/ py = y0 - y)).
Proof.
  rewrite plotted_app, orb_true_iff. unfold plotted at 2.
  cbn [existsb call_covers].
  rewrite !orb_true_iff, !andb_true_iff, !Z.eqb_eq. intuition congruence.
Qed.

(** What the outline ellipse records, whatever the float arithmetic: the
    pixels lie on rows [y0 - b .. y0 + b], each of these rows has one, the
    two poles are among them, and the pixel set is symmetric in both axes
    through the centre. *)
Lemma ellipse_outline_log {F} `{PyFloat F} x0 y0 a b c :
  exists s',
    ellipse x0 y0 a b c false ([] : list draw_call) = (s', Ok tt) /\
    (forall px py, plotted s' px py = true ->
       y0 - b <= py <= y0 + b /\
       plotted s' (2 * x0 - px) py = true /\
       plotted s' px (2 * y0 - py) = true) /\
    (forall m, 0 <= m <= b ->
       exists px, plotted s' px (y0 + m) = true /\ plotted s' px (y0 - m) = true) /\
    (0 <= b -> plotted s' x0 (y0 + b) = true /\ plotted s' x0 (y0 - b) = true).
Proof.
  set (J := fun (x y : Z) (s : list draw_call) =>
    (forall px py, plotted s px py = true ->
       y0 - b <= py <= y0 + b /\
       plotted s (2 * x0 - px) py = true /\
       plotted s px (2 * y0 - py) = true) /\
    (forall m, y < m <= b ->
       exists px, plotted s px (y0 + m) = true /\ plotted s px (y0 - m) = true) /\
    ((x = 0 /\ y = b) \/
     (plotted s x0 (y0 + b) = true /\ plotted s x0 (y0 - b) = true))).
  destruct (ellipse_outline_run x0 y0 a b c J) with (s := ([] : list draw_call))
    as (s' & Hrun & Hcase).
  - intros x y s Hx Hy (Hin & Hrows & Hpole).
    rewrite ellipse_points_log.
    set (s1 := s ++ _).
    assert (Hnew : forall px py, plotted s1 px py = true <->
              plotted s px py = true \/
              ((px = x0 + x \/ px = x0 - x) /\ (py = y0 + y \/ py = y0 - y)))
      by (intros; apply plotted_quadrants).
    assert (H1 : forall px py, plotted s1 px py = true ->
              y0 - b <= py <= y0 + b /\
              plotted s1 (2 * x0 - px) py = true /\
              plotted s1 px (2 * y0 - py) = true).
    { intros px py. rewrite !Hnew. intros [Hold|Hpt].
      - destruct (Hin px py Hold) as (Hb & Hs1 & Hs2). auto.
      - split; [lia|]. split; right; lia. }
    assert (H2 : forall m, y - 1 < m <= b ->
              exists px, plotted s1 px (y0 + m) = true /\
                         plotted s1 px (y0 - m) = true).
    { intros m Hm. destruct (Z.eq_dec m y) as [->|Hne].
      - exists (x0 + x). rewrite !Hnew. split; right; lia.
      - destruct (Hrows m ltac:(lia)) as (px & Hp1 & Hp2).
        exists px. rewrite !Hnew. auto. }
    assert (H3 : plotted s1 x0 (y0 + b) = true /\ plotted s1 x0 (y0 - b) = true).
    { rewrite !Hnew. destruct Hpole as [[-> ->]|[Hp1 Hp2]]; [|auto].
      split; right; lia. }
    assert (HJ : forall x' y', y - 1 <= y' -> J x' y' s1).
    { intros x' y' Hy'. unfold J. split; [exact H1|].
      split; [intros m Hm; apply H2; lia | right; exact H3]. }
    split; [apply HJ; lia | split; apply HJ; lia].
  - unfold J. split; [intros px py Hp; discriminate Hp|].
    split; [intros m Hm; lia | left; auto].
  - exists s'. split; [exact Hrun|].
    destruct Hcase as [[Hneg ->]|[Hb (x & Hin & Hrows & Hpole)]].
    + split; [intros px py Hp; discriminate Hp|].
      split; [intros m Hm; lia | intros Hb; lia].
    + split; [exact Hin|]. split; [intros m Hm; apply Hrows; lia|].
      intros _. destruct Hpole as [[_ Hy]|Hp]; [lia | exact Hp].
Qed.

(** X16. The outline ellipse covers exactly the rows [y0 - b .. y0 + b]: no
    pixel lies outside them, each of them has a pixel, and the two poles
    [(x0, y0 + b)] and [(x0, y0 - b)] are plotted. *)
Theorem ellipse_outline_rows (F : Type) (HF : PyFloat F) (x0 y0 a b c : Z) :
  let s := (ellipse x0 y0 a b c false ([] : list draw_call)).1 in
  (forall px py, plotted s px py = true -> y0 - b <= py <= y0 + b) /\
  (forall py, y0 - b <= py <= y0 + b -> exists px, plotted s px py = true) /\
  (0 <= b -> plotted s x0 (y0 + b) = true /\ plotted s x0 (y0 - b) = true).
Proof.
  destruct (ellipse_outline_log x0 y0 a b c) as (s' & Hrun & Hin & Hrows & Hpole).
  rewrite Hrun. cbn [fst]. split; [|split; [|exact Hpole]].
  - intros px py Hp. now destruct (Hin px py Hp).
  - intros py Hpy. destruct (Hrows (Z.abs (py - y0)) ltac:(lia)) as (px & Hp1 & Hp2).
    exists px. destruct (Z_le_gt_dec 0 (py - y0)).
    + now replace py with (y0 + Z.abs (py - y0)) by lia.
    + now replace py with (y0 - Z.abs (py - y0)) by lia.
Qed.

Lemma ellipse_outline_rows_witness :
  let s := (@ellipse _ Log_Surface _ binary64 20 20 6 3 1 false []).1 in
  (forall px py, plotted s px py = true -> 20 - 3 <= py <= 20 + 3) /\
  (forall py, 20 - 3 <= py <= 20 + 3 -> exists px, plotted s px py = true) /\
  (0 <= 3 -> plotted s 20 (20 + 3) = true /\ plotted s 20 (20 - 3) = true).
Proof. exact (ellipse_outline_rows _ binary64 20 20 6 3 1). Defined.

(** X17. The outline ellipse is symmetric in both axes through its centre. *)
Theorem ellipse_outline_symmetric (F : Type) (HF : PyFloat F) (x0 y0 a b c px py : Z) :
  plotted (ellipse x0 y0 a b c false ([] : list draw_call)).1 px py = true ->
  plotted (ellipse x0 y0 a b c false ([] : list draw_call)).1 (2 * x0 - px) py = true /\
  plotted (ellipse x0 y0 a b c false ([] : list draw_call)).1 px (2 * y0 - py) = true.
Proof.
  destruct (ellipse_outline_log x0 y0 a b c) as (s' & Hrun & Hin & _).
  rewrite Hrun. cbn [fst]. intros Hp. now destruct (Hin px py Hp).
Qed.

Lemma ellipse_outline_symmetric_witness :
  plotted (@ellipse _ Log_Surface _ binary64 20 20 6 3 1 false []).1 20 23 = true /\
  plotted (@ellipse _ Log_Surface _ binary64 20 20 6 3 1 false []).1
    (2 * 20 - 20) 23 = true /\
  plotted (@ellipse _ Log_Surface _ binary64 20 20 6 3 1 false []).1
    20 (2 * 20 - 23) = true.
Proof.
  assert (Hp : plotted (@ellipse _ Log_Surface _ binary64 20 20 6 3 1 false []).1
                 20 23 = true) by (vm_compute; reflexivity).
  split; [exact Hp | exact (ellipse_outline_symmetric _ binary64 20 20 6 3 1 20 23 Hp)].
Defined.

(** ** The filled ellipse *)

Lemma In_range2 lo hi y : In y (range2 lo hi) <-> lo <= y < hi.
Proof.
  unfold range2. rewrite <- list_elem_of_In, elem_of_seqZ. lia.
Qed.




(** With binary64 floats [ellipse(32, 32, 10, 5, 1, True)] draws the rows
    28 and 36 with half-width 6. *)
Example ellipse_fill_rows_28_36 :
  let s := (@ellipse _ Log_Surface _ binary64 32 32 10 5 1 true []).1 in
  plotted s 26 28 = true /\ plotted s 38 36 = true /\ plotted s 25 28 = false.
Proof. vm_compute. auto. Qed.

(** ** The filled triangle *)

Lemma for_row_spans (body : Z -> M (list draw_call) unit) span c :
  (forall y s, body y s =
     (s ++ [HLine (span y).1 y ((span y).2 - (span y).1 + 1) c], Ok tt)) ->
  forall rows s, for_ rows body s = (s ++ row_spans span c rows, Ok tt).
Proof.
  intros Hbody rows. induction rows as [|y rows IH]; intros s.
  - simpl. unfold ret. now rewrite app_nil_r.
  - cbn [for_ row_spans map]. unfold bind. rewrite Hbody, IH.
    unfold row_spans. now rewrite <- app_assoc.
Qed.

Lemma plotted_row_spans span c rows px py :
  plotted (row_spans span c rows) px py = true <->
  In py rows /\ (span py).1 <= px <= (span py).2.
Proof.
  unfold plotted, row_spans. rewrite existsb_exists. split.
  - intros (k & Hin & Hcov). apply in_map_iff in Hin as (y & <- & Hy).
    cbn [call_covers] in Hcov.
    rewrite !andb_true_iff, Z.eqb_eq, Z.leb_le, Z.ltb_lt in Hcov.
    destruct Hcov as [[-> Hlo] Hhi]. split; [exact Hy | lia].
  - intros (Hy & Hpx). eexists. split; [apply in_map_iff; eauto|].
    cbn [call_covers].
    rewrite !andb_true_iff, Z.eqb_eq, Z.leb_le, Z.ltb_lt. lia.
Qed.

(** The log of the filled triangle: one span per row between the lowest
    and the highest [y] of the vertices. *)
Lemma triangle_fill_log x0 y0 x1 y1 x2 y2 c (s : list draw_call) :
  triangle x0 y0 x1 y1 x2 y2 c true s =
  let '(p0, p1, p2) := sort_vertices (x0, y0) (x1, y1) (x2, y2) in
  (s ++ row_spans (triangle_span p0 p1 p2) c (range2 p0.2 (p2.2 + 1)), Ok tt).
Proof.
  unfold triangle, sort_vertices.
  destruct (swap_if_above (x0, y0) (x1, y1)) as [p0 p1].
  destruct (swap_if_above p1 (x2, y2)) as [p1' p2].
  destruct (swap_if_above p0 p1') as [[x0' y0'] [x1' y1']].
  destruct p2 as [x2' y2']. cbn [fst snd].
  apply for_row_spans. intros y s1. unfold triangle_span.
  destruct (if y <=? y1' then _ else _) as [xa xb].
  destruct (xa >? xb); reflexivity.
Qed.

(** The conditional swaps order the vertices by [y] and only permute
    them. *)
Lemma sort_vertices_sorted p0 p1 p2 :
  let '(q0, q1, q2) := sort_vertices p0 p1 p2 in
  q0.2 <= q1.2 <= q2.2 /\
  ((q0 = p0 /\ q1 = p1 /\ q2 = p2) \/ (q0 = p0 /\ q1 = p2 /\ q2 = p1) \/
   (q0 = p1 /\ q1 = p0 /\ q2 = p2) \/ (q0 = p1 /\ q1 = p2 /\ q2 = p0) \/
   (q0 = p2 /\ q1 = p0 /\ q2 = p1) \/ (q0 = p2 /\ q1 = p1 /\ q2 = p0)).
Proof.
  destruct p0 as [x0 y0], p1 as [x1 y1], p2 as [x2 y2].
  unfold sort_vertices, swap_if_above. cbn [fst snd].
  repeat match goal with
         | |- context [?u >? ?v] => destruct (Z.gtb_spec u v); cbn [fst snd]
         end;
    (split; [lia | tauto]).
Qed.

(** Linear interpolation between two rows stays between the two end
    abscissas and is exact at both ends. *)
Lemma interpolate_between xa ya xb yb y :
  ya < yb -> ya <= y <= yb ->
  Z.min xa xb <= xa + (xb - xa) * (y - ya) / (yb - ya) <= Z.max xa xb.
Proof.
  intros Hlt Hy.
  pose proof (Z.div_mod ((xb - xa) * (y - ya)) (yb - ya) ltac:(lia)) as Hdm.
  pose proof (Z.mod_pos_bound ((xb - xa) * (y - ya)) (yb - ya) ltac:(lia)) as Hm.
  set (q := (xb - xa) * (y - ya) / (yb - ya)) in *.
  set (m := (xb - xa) * (y - ya) mod (yb - ya)) in *.
  destruct (Z_le_gt_dec xa xb).
  - rewrite Z.min_l, Z.max_r by lia. split; nia.
  - rewrite Z.min_r, Z.max_l by lia. split; nia.
Qed.

Lemma interpolate_start xa ya xb yb :
  xa + (xb - xa) * (ya - ya) / (yb - ya) = xa.
Proof. rewrite Z.sub_diag, Z.mul_0_r, Zdiv_0_l. lia. Qed.

Lemma interpolate_end xa ya xb yb :
  ya <> yb -> xa + (xb - xa) * (yb - ya) / (yb - ya) = xb.
Proof. intros Hne. rewrite Z.div_mul by lia. lia. Qed.

(** On the rows of the triangle the two ends of a span are in order and
    within the horizontal extent of the vertices. *)
Lemma triangle_span_bounds x0 y0 x1 y1 x2 y2 y :
  y0 <= y1 <= y2 -> y0 <= y <= y2 ->
  let sp := triangle_span (x0, y0) (x1, y1) (x2, y2) y in
  sp.1 <= sp.2 /\
  Z.min x0 (Z.min x1 x2) <= sp.1 /\ sp.2 <= Z.max x0 (Z.max x1 x2).
Proof.
  intros Hs Hy. unfold triangle_span.
  pose proof (interpolate_between x0 y0 x1 y1 y) as I01.
  pose proof (interpolate_between x0 y0 x2 y2 y) as I02.
  pose proof (interpolate_between x1 y1 x2 y2 y) as I12.
  set (i01 := x0 + (x1 - x0) * (y - y0) / (y1 - y0)) in *.
  set (i02 := x0 + (x2 - x0) * (y - y0) / (y2 - y0)) in *.
  set (i12 := x1 + (x2 - x1) * (y - y1) / (y2 - y1)) in *.
  destruct (Z.leb_spec y y1); destruct (Z.eqb_spec y1 y0);
    destruct (Z.eqb_spec y2 y0); destruct (Z.eqb_spec y2 y1); cbn [negb];
    match goal with
    | |- context [?u >? ?v] => destruct (Z.gtb_spec u v)
    end; cbn [fst snd]; lia.
Qed.

(** With three different [y], each vertex lies on the span of its row. *)
Lemma triangle_span_vertices x0 y0 x1 y1 x2 y2 :
  y0 < y1 < y2 ->
  ((triangle_span (x0, y0) (x1, y1) (x2, y2) y0).1 <= x0
   <= (triangle_span (x0, y0) (x1, y1) (x2, y2) y0).2) /\
  ((triangle_span (x0, y0) (x1, y1) (x2, y2) y1).1 <= x1
   <= (triangle_span (x0, y0) (x1, y1) (x2, y2) y1).2) /\
  ((triangle_span (x0, y0) (x1, y1) (x2, y2) y2).1 <= x2
   <= (triangle_span (x0, y0) (x1, y1) (x2, y2) y2).2).
Proof.
  intros Hs. unfold triangle_span.
  replace (y0 <=? y1) with true by (symmetry; apply Z.leb_le; lia).
  replace (y1 <=? y1) with true by (symmetry; apply Z.leb_le; lia).
  replace (y2 <=? y1) with false by (symmetry; apply Z.leb_gt; lia).
  replace (y1 =? y0) with false by (symmetry; apply Z.eqb_neq; lia).
  replace (y2 =? y0) with false by (symmetry; apply Z.eqb_neq; lia).
  replace (y2 =? y1) with false by (symmetry; apply Z.eqb_neq; lia).
  cbn [negb].
  rewrite !interpolate_start, !interpolate_end by lia.
  repeat match goal with
         | |- context [?u >? ?v] => destruct (Z.gtb_spec u v)
         end; cbn [fst snd]; lia.
Qed.

(** X19. The filled triangle stays within the bounding box of its vertices. *)
Theorem triangle_fill_in_box (x0 y0 x1 y1 x2 y2 c px py : Z) :
  plotted (triangle x0 y0 x1 y1 x2 y2 c true ([] : list draw_call)).1 px py = true ->
  Z.min x0 (Z.min x1 x2) <= px <= Z.max x0 (Z.max x1 x2) /\
  Z.min y0 (Z.min y1 y2) <= py <= Z.max y0 (Z.max y1 y2).
Proof.
  rewrite triangle_fill_log.
  pose proof (sort_vertices_sorted (x0, y0) (x1, y1) (x2, y2)) as Hsort.
  destruct (sort_vertices (x0, y0) (x1, y1) (x2, y2))
    as [[[xa ya] [xb yb]] [xc yc]].
  cbn [fst snd app] in *. destruct Hsort as [Hord Hperm].
  rewrite plotted_row_spans, In_range2. intros [Hrow Hpx].
  pose proof (triangle_span_bounds xa ya xb yb xc yc py Hord ltac:(lia)) as Hb.
  cbv zeta in Hb.
  assert (Hx : Z.min xa (Z.min xb xc) = Z.min x0 (Z.min x1 x2) /\
               Z.max xa (Z.max xb xc) = Z.max x0 (Z.max x1 x2) /\
               ya = Z.min y0 (Z.min y1 y2) /\ yc = Z.max y0 (Z.max y1 y2)).
  { destruct Hperm as [H|[H|[H|[H|[H|H]]]]]; destruct H as (H0 & H1 & H2);
      injection H0 as -> ->; injection H1 as -> ->; injection H2 as -> ->; lia. }
  lia.
Qed.

Lemma triangle_fill_in_box_witness :
  plotted (triangle 0 0 4 0 0 4 1 true ([] : list draw_call)).1 1 2 = true /\
  (Z.min 0 (Z.min 4 0) <= 1 <= Z.max 0 (Z.max 4 0) /\
   Z.min 0 (Z.min 0 4) <= 2 <= Z.max 0 (Z.max 0 4)).
Proof.
  assert (Hp : plotted (triangle 0 0 4 0 0 4 1 true ([] : list draw_call)).1 1 2 = true)
    by (vm_compute; reflexivity).
  split; [exact Hp | exact (triangle_fill_in_box 0 0 4 0 0 4 1 1 2 Hp)].
Defined.

(** X20. The filled triangle reaches every row between the lowest and the
    highest [y] of its vertices. *)
Theorem triangle_fill_every_row (x0 y0 x1 y1 x2 y2 c py : Z) :
  Z.min y0 (Z.min y1 y2) <= py <= Z.max y0 (Z.max y1 y2) ->
  exists px,
    plotted (triangle x0 y0 x1 y1 x2 y2 c true ([] : list draw_call)).1 px py = true.
Proof.
  intros Hpy. rewrite triangle_fill_log.
  pose proof (sort_vertices_sorted (x0, y0) (x1, y1) (x2, y2)) as Hsort.
  destruct (sort_vertices (x0, y0) (x1, y1) (x2, y2))
    as [[[xa ya] [xb yb]] [xc yc]].
  cbn [fst snd app] in *. destruct Hsort as [Hord Hperm].
  assert (Hy : ya = Z.min y0 (Z.min y1 y2) /\ yc = Z.max y0 (Z.max y1 y2)).
  { destruct Hperm as [H|[H|[H|[H|[H|H]]]]]; destruct H as (H0 & H1 & H2);
      injection H0 as -> ->; injection H1 as -> ->; injection H2 as -> ->; lia. }
  pose proof (triangle_span_bounds xa ya xb yb xc yc py Hord ltac:(lia)) as Hb.
  cbv zeta in Hb.
  exists (triangle_span (xa, ya) (xb, yb) (xc, yc) py).1.
  rewrite plotted_row_spans, In_range2. lia.
Qed.

Lemma triangle_fill_every_row_witness :
  exists px,
    plotted (triangle 0 0 4 0 0 4 1 true ([] : list draw_call)).1 px 3 = true.
Proof. apply triangle_fill_every_row. lia. Defined.

(** X21. When the three vertices have different [y], the filled triangle plots
    each of them. *)
Theorem triangle_fill_vertices (x0 y0 x1 y1 x2 y2 c : Z) :
  y0 <> y1 -> y1 <> y2 -> y0 <> y2 ->
  plotted (triangle x0 y0 x1 y1 x2 y2 c true ([] : list draw_call)).1 x0 y0 = true /\
  plotted (triangle x0 y0 x1 y1 x2 y2 c true ([] : list draw_call)).1 x1 y1 = true /\
  plotted (triangle x0 y0 x1 y1 x2 y2 c true ([] : list draw_call)).1 x2 y2 = true.
Proof.
  intros H01 H12 H02. rewrite triangle_fill_log.
  pose proof (sort_vertices_sorted (x0, y0) (x1, y1) (x2, y2)) as Hsort.
  destruct (sort_vertices (x0, y0) (x1, y1) (x2, y2))
    as [[[xa ya] [xb yb]] [xc yc]].
  cbn [fst snd app] in *. destruct Hsort as [Hord Hperm].
  rewrite !plotted_row_spans, !In_range2.
  assert (Hstrict : ya < yb < yc).
  { destruct Hperm as [H|[H|[H|[H|[H|H]]]]]; destruct H as (H0 & H1 & H2);
      injection H0 as -> ->; injection H1 as -> ->; injection H2 as -> ->; lia. }
  destruct (triangle_span_vertices xa ya xb yb xc yc Hstrict) as (Va & Vb & Vc).
  destruct Hperm as [H|[H|[H|[H|[H|H]]]]]; destruct H as (H0 & H1 & H2);
    injection H0 as -> ->; injection H1 as -> ->; injection H2 as -> ->;
    repeat split; lia.
Qed.

Lemma triangle_fill_vertices_witness :
  plotted (triangle 5 9 1 2 8 4 1 true ([] : list draw_call)).1 5 9 = true /\
  plotted (triangle 5 9 1 2 8 4 1 true ([] : list draw_call)).1 1 2 = true /\
  plotted (triangle 5 9 1 2 8 4 1 true ([] : list draw_call)).1 8 4 = true.
Proof. apply triangle_fill_vertices; lia. Defined.

(** X22. When the three vertices have different [y], the filled triangle does
    not depend on the order in which they are given. *)
Theorem triangle_fill_vertex_order (S : Type) (HS : Surface S)
    (x0 y0 x1 y1 x2 y2 c : Z) (s : S) :
  y0 <> y1 -> y1 <> y2 -> y0 <> y2 ->
  triangle x1 y1 x0 y0 x2 y2 c true s = triangle x0 y0 x1 y1 x2 y2 c true s /\
  triangle x0 y0 x2 y2 x1 y1 c true s = triangle x0 y0 x1 y1 x2 y2 c true s.
Proof.
  intros H01 H12 H02. unfold triangle, swap_if_above. cbn [fst snd].
  split;
    repeat match goal with
           | |- context [?u >? ?v] => destruct (Z.gtb_spec u v); cbn [fst snd]
           end; try lia; reflexivity.
Qed.

Lemma triangle_fill_vertex_order_witness :
  triangle 1 2 5 9 8 4 1 true ([] : list draw_call)
  = triangle 5 9 1 2 8 4 1 true ([] : list draw_call) /\
  triangle 5 9 8 4 1 2 1 true ([] : list draw_call)
  = triangle 5 9 1 2 8 4 1 true ([] : list draw_call).
Proof. apply triangle_fill_vertex_order; lia. Defined.

(** ** Commands and the frame *)

Lemma write_cmd_keeps_drv cmd w : drv (write_cmd cmd w).1 = drv w.
Proof.
  unfold write_cmd, bind, gets, bytes.
  destruct (forallb _ _); [|reflexivity].
  unfold ret, on_bus, zoom.
  destruct (writeto _ _ _) as [b' r]. now destruct w.
Qed.

Lemma sleep_ms_keeps_drv n w : drv (sleep_ms n w).1 = drv w.
Proof. now destruct w. Qed.

(** X23. The display commands never touch the driver's state: whatever their
    argument and whether or not the bus fails, [contrast], [invert],
    [poweroff] and [poweron] leave both frame buffers and the geometry as
    they were, so a later [show] sends the same frame. *)
Theorem commands_keep_driver_state (w : World) (value inv : Z) :
  drv (contrast value w).1 = drv w /\
  drv (invert inv w).1 = drv w /\
  drv (poweroff w).1 = drv w /\
  drv (poweron w).1 = drv w.
Proof.
  split; [|split; [|split]].
  - unfold contrast, bind.
    pose proof (write_cmd_keeps_drv _SET_CONTRAST w) as H1.
    destruct (write_cmd _SET_CONTRAST w) as [w1 [[]|e]]; [|exact H1].
    cbn [fst] in H1. rewrite <- H1. apply write_cmd_keeps_drv.
  - unfold invert, bind.
    pose proof (write_cmd_keeps_drv (Z.lor _SET_NORM_INV (Z.land inv 1)) w) as H1.
    destruct (write_cmd _ w) as [w1 [[]|e]]; [|exact H1].
    cbn [fst] in H1. rewrite <- H1. apply sleep_ms_keeps_drv.
  - apply write_cmd_keeps_drv.
  - apply write_cmd_keeps_drv.
Qed.
